(** * Sedma berie tri: the rules engine and the room server, verified

    A shallow embedding of [card.py], [game_logic.py] and the parts of
    [server.py] that own rooms, results and display names, followed by the
    properties the specification states about them.

    Python objects are mutated in place; here every method is a computation
    in a state-and-exception monad over the object it mutates.  Python
    integers are unbounded, hence [Z].  A [deque] is a list whose head is
    the left end: [popleft] takes the head, [append] adds at the tail. *)

From stdpp Require Import gmap strings list pretty sorting.
From Stdlib Require Import ZArith Ascii.

Open Scope Z_scope.

(** ** Python primitives *)

(** The exceptions the modelled code can raise. *)
Inductive Exn := IndexError | ZeroDivisionError | AttributeError | KeyError.

Inductive Result (A : Type) :=
  | Ok (a : A)
  | Raise (e : Exn).
Arguments Ok {A} a.
Arguments Raise {A} e.

(** A method of an object of type [Σ]: it reads and writes the object,
    consumes randomness from the generator state [Rng] (Python keeps it in
    the [random] module), and returns a value or raises.  An exception ends
    the computation; the half-updated object it would leave behind in
    Python is not kept. *)
Definition M (Rng Σ A : Type) : Type := Σ → Rng → Result (A * Σ * Rng).

Definition ret {Rng Σ A} (a : A) : M Rng Σ A := λ s r, Ok (a, s, r).

Definition bind {Rng Σ A B} (m : M Rng Σ A) (k : A → M Rng Σ B) : M Rng Σ B :=
  λ s r, match m s r with
         | Ok (a, s', r') => k a s' r'
         | Raise e => Raise e
         end.

Definition raise {Rng Σ A} (e : Exn) : M Rng Σ A := λ _ _, Raise e.
Definition get {Rng Σ} : M Rng Σ Σ := λ s r, Ok (s, s, r).
Definition put {Rng Σ} (s : Σ) : M Rng Σ unit := λ _ r, Ok (tt, s, r).
Definition modify {Rng Σ} (f : Σ → Σ) : M Rng Σ unit := λ s r, Ok (tt, f s, r).

Declare Scope py_scope.
Delimit Scope py_scope with py.
Notation "x <- m ;; k" := (bind m (λ x, k))
  (at level 100, m at next level, right associativity) : py_scope.
Notation "m ;;; k" := (bind m (λ _, k))
  (at level 100, right associativity) : py_scope.
Open Scope py_scope.

(** [l[i]]: a negative index counts from the end; out of range raises. *)
Definition py_index {A} (l : list A) (i : Z) : option nat :=
  let n := Z.of_nat (length l) in
  if bool_decide (0 ≤ i < n) then Some (Z.to_nat i)
  else if bool_decide (- n ≤ i < 0) then Some (Z.to_nat (n + i))
  else None.

Definition getitem {Rng Σ A} (l : list A) (i : Z) : M Rng Σ A :=
  match py_index l i ≫= (l !!.) with
  | Some x => ret x
  | None => raise IndexError
  end.

(** [a % b] with Python's sign convention (that of the divisor). *)
Definition py_mod {Rng Σ} (a b : Z) : M Rng Σ Z :=
  if bool_decide (b = 0) then raise ZeroDivisionError else ret (a `mod` b).

(** [[f(x) for x in l]] where [f] may raise. *)
Fixpoint mapM {Rng Σ A B} (f : A → M Rng Σ B) (l : list A) : M Rng Σ (list B) :=
  match l with
  | [] => ret []
  | x :: l' => y <- f x ;; ys <- mapM f l' ;; ret (y :: ys)
  end.

(** [for x in l: f(x)]. *)
Fixpoint forM_ {Rng Σ A} (l : list A) (f : A → M Rng Σ unit) : M Rng Σ unit :=
  match l with
  | [] => ret tt
  | x :: l' => f x ;;; forM_ l' f
  end.

(** [l.sort(key=key)] with integer keys: Python's sort is stable, and so is
    this insertion sort, which places an element before the first one whose
    key is not smaller. *)
Fixpoint insert_by {A} (key : A → Z) (x : A) (l : list A) : list A :=
  match l with
  | [] => [x]
  | y :: l' => if bool_decide (key x ≤ key y) then x :: l else y :: insert_by key x l'
  end.

Definition sort_by {A} (key : A → Z) (l : list A) : list A :=
  foldr (insert_by key) [] l.

(** A Python [str] is modelled by its UTF-8 encoding, one [ascii] per
    byte (a [str] with a lone surrogate has no encoding and is outside the
    model).

    [len(s)] counts code points: the bytes that are not continuation bytes
    ([10xxxxxx], 128 to 191). *)
Definition py_len (s : string) : nat :=
  length (filter (λ c, ¬ (128 ≤ nat_of_ascii c < 192)%nat) (String.list_ascii_of_string s)).

(** [str.isspace] for one code point, by the length of its encoding.  The
    whitespace code points are U+0009 to U+000D, U+001C to U+0020 (one
    byte); U+0085 and U+00A0 (two bytes, [C2 85] and [C2 A0]); U+1680
    ([E1 9A 80]), U+2000 to U+200A ([E2 80 80] to [E2 80 8A]), U+2028,
    U+2029, U+202F ([E2 80 A8], [E2 80 A9], [E2 80 AF]), U+205F
    ([E2 81 9F]) and U+3000 ([E3 80 80]) (three bytes). *)
Definition py_isspace (c : ascii) : bool :=
  let n := nat_of_ascii c in
  (bool_decide (9 ≤ n ≤ 13) || bool_decide (28 ≤ n ≤ 32))%nat.

Definition py_isspace2 (c d : ascii) : bool :=
  let c := nat_of_ascii c in
  let d := nat_of_ascii d in
  bool_decide (c = 194 ∧ (d = 133 ∨ d = 160))%nat.

Definition py_isspace3 (c d e : ascii) : bool :=
  let c := nat_of_ascii c in
  let d := nat_of_ascii d in
  let e := nat_of_ascii e in
  bool_decide ((c = 225 ∧ d = 154 ∧ e = 128)
               ∨ (c = 226 ∧ d = 128 ∧ (128 ≤ e ≤ 138 ∨ e = 168 ∨ e = 169 ∨ e = 175))
               ∨ (c = 226 ∧ d = 129 ∧ e = 159)
               ∨ (c = 227 ∧ d = 128 ∧ e = 128))%nat.

(** [str.lstrip()]: whitespace code points are dropped from the left. *)
Fixpoint lstrip (s : string) : string :=
  match s with
  | String c s1 =>
      if py_isspace c then lstrip s1
      else
        match s1 with
        | String d s2 =>
            if py_isspace2 c d then lstrip s2
            else
              match s2 with
              | String e s3 => if py_isspace3 c d e then lstrip s3 else s
              | EmptyString => s
              end
        | EmptyString => s
        end
  | EmptyString => EmptyString
  end.

(** [str.rstrip()] on the reversed bytes: the last byte of a code point
    comes first. *)
Fixpoint rstrip_rev (s : string) : string :=
  match s with
  | String e s1 =>
      if py_isspace e then rstrip_rev s1
      else
        match s1 with
        | String d s2 =>
            if py_isspace2 d e then rstrip_rev s2
            else
              match s2 with
              | String c s3 => if py_isspace3 c d e then rstrip_rev s3 else s
              | EmptyString => s
              end
        | EmptyString => s
        end
  | EmptyString => EmptyString
  end.

(** [str.strip()]. *)
Definition strip (s : string) : string :=
  String.rev (rstrip_rev (String.rev (lstrip s))).

(** Truthiness of a list or deque: non-empty. *)
Definition truthy {A} (l : list A) : bool :=
  match l with [] => false | _ => true end.

(** ** card.py *)

Module card.

(** [Card]: the [image] attribute is a rendering asset and is not
    modelled.  A [Card] defines neither [__bool__] nor [__len__], so every
    card is truthy. *)
Record Card := mkCard { name : string; value : Z; suit : string }.

#[global] Instance Card_eq_dec : EqDecision Card.
Proof. solve_decision. Defined.

End card.

Export card(Card, mkCard, Card_eq_dec).

(** [random.shuffle], the one use of the generator: it returns the
    reordered list and the next generator state. *)
Class Random (Rng : Type) := random_shuffle : list Card → Rng → list Card * Rng.

(** ** game_logic.py *)

Module game_logic.

Record Game := mkGame {
  num_players : Z;
  players : list (list Card);
  draw_pile : list Card;
  discard_pile : list Card;
  current_player : Z;
  _card_cache : list (string * Card)
}.

Definition set_players (f : list (list Card) → list (list Card)) (g : Game) : Game :=
  mkGame (num_players g) (f (players g)) (draw_pile g) (discard_pile g)
         (current_player g) (_card_cache g).
Definition set_draw_pile (f : list Card → list Card) (g : Game) : Game :=
  mkGame (num_players g) (players g) (f (draw_pile g)) (discard_pile g)
         (current_player g) (_card_cache g).
Definition set_discard_pile (f : list Card → list Card) (g : Game) : Game :=
  mkGame (num_players g) (players g) (draw_pile g) (f (discard_pile g))
         (current_player g) (_card_cache g).
Definition set_current_player (p : Z) (g : Game) : Game :=
  mkGame (num_players g) (players g) (draw_pile g) (discard_pile g)
         p (_card_cache g).
Definition set_card_cache (c : list (string * Card)) (g : Game) : Game :=
  mkGame (num_players g) (players g) (draw_pile g) (discard_pile g)
         (current_player g) c.

(** [Game.__init__]: [int(num_players)] is the identity on an [int]. *)
Definition __init__ (num_players : Z) : Game :=
  let n := Z.max 2 num_players in
  mkGame n (replicate (Z.to_nat n) []) [] [] 0 [].

Section methods.
Context {Rng : Type} `{!Random Rng}.
#[local] Abbreviation M := (M Rng Game).

(** [random.shuffle(x)] as a computation on the generator state. *)
Definition shuffle (l : list Card) : M (list Card) :=
  λ g r, let '(l', r') := random_shuffle l r in Ok (l', g, r').

(** [self.players[i].append(c)]. *)
Definition hand_append (i : Z) (c : Card) : M unit :=
  g <- get ;;
  match py_index (players g) i with
  | Some k =>
      match players g !! k with
      | Some hand => modify (set_players <[k := hand ++ [c]]>)
      | None => raise IndexError
      end
  | None => raise IndexError
  end.

(** [self.players[i].pop(j)]. *)
Definition hand_pop (i j : Z) : M Card :=
  g <- get ;;
  match py_index (players g) i with
  | Some k =>
      match players g !! k with
      | Some hand =>
          match py_index hand j with
          | Some kj =>
              match hand !! kj with
              | Some c => modify (set_players <[k := delete kj hand]>) ;;; ret c
              | None => raise IndexError
              end
          | None => raise IndexError
          end
      | None => raise IndexError
      end
  | None => raise IndexError
  end.

Definition _refresh_draw_pile : M unit :=
  g <- get ;;
  if bool_decide (Z.of_nat (length (discard_pile g)) ≤ 1) then ret tt
  else
    top_card <- getitem (discard_pile g) (-1) ;;
    let cards_to_shuffle := removelast (discard_pile g) in
    cards_to_shuffle <- shuffle cards_to_shuffle ;;
    modify (set_draw_pile (λ _, cards_to_shuffle)) ;;;
    modify (set_discard_pile (λ _, [top_card])).

(** The [for _ in range(self.num_players)] loop of
    [_get_next_active_player] with [n] iterations left. *)
Fixpoint scan_active (n : nat) (next_player : Z) : M Z :=
  match n with
  | O => ret next_player
  | S n' =>
      g <- get ;;
      hand <- getitem (players g) next_player ;;
      if truthy hand then ret next_player
      else
        next_player <- py_mod (next_player + 1) (num_players g) ;;
        scan_active n' next_player
  end.

Definition _get_next_active_player : M Z :=
  g <- get ;;
  next_player <- py_mod (current_player g + 1) (num_players g) ;;
  scan_active (Z.to_nat (num_players g)) next_player.

Definition next_turn : M unit :=
  next_player <- _get_next_active_player ;;
  modify (set_current_player next_player).

Definition check_game_over (g : Game) : bool :=
  bool_decide (Z.of_nat (length (filter (λ player, truthy player = true) (players g))) ≤ 1).

(** The body of the [for _ in range(3)] loop of [play_card] with [n]
    iterations left; the result is [cards_drawn]. *)
Fixpoint draw_three (n : nat) (next_player : Z) (cards_drawn : Z) : M Z :=
  match n with
  | O => ret cards_drawn
  | S n' =>
      g <- get ;;
      (if negb (truthy (draw_pile g)) then _refresh_draw_pile else ret tt) ;;;
      g <- get ;;
      match draw_pile g with
      | c :: rest =>
          modify (set_draw_pile (λ _, rest)) ;;;
          hand_append next_player c ;;;
          draw_three n' next_player (cards_drawn + 1)
      | [] => ret cards_drawn
      end
  end.

Definition playable (card : Card) (top_discard : option Card) : bool :=
  match top_discard with
  | Some top =>
      bool_decide (card.suit card = card.suit top)
      || bool_decide (card.value card = card.value top)
      || bool_decide (card.value card = 12)
  | None => true
  end.

Definition play_card (player_index card_index : Z) : M bool :=
  g <- get ;;
  in_range <-
    (if bool_decide (0 ≤ player_index < num_players g) then
       hand <- getitem (players g) player_index ;;
       ret (bool_decide (0 ≤ card_index < Z.of_nat (length hand)))
     else ret false) ;;
  if negb in_range then ret false
  else
    hand <- getitem (players g) player_index ;;
    card <- getitem hand card_index ;;
    let top_discard := last (discard_pile g) in
    if negb (playable card top_discard) then ret false
    else
      popped <- hand_pop player_index card_index ;;
      modify (set_discard_pile (λ d, d ++ [popped])) ;;;
      (if bool_decide (card.value card = 7) then
         next_player <- _get_next_active_player ;;
         draw_three 3 next_player 0 ;;;
         modify (set_current_player next_player)
       else if bool_decide (card.value card = 14) then
         next_player <- _get_next_active_player ;;
         modify (set_current_player next_player)
       else ret tt) ;;;
      g <- get ;;
      (if negb (truthy (draw_pile g)) && negb (bool_decide (card.value card = 7))
       then _refresh_draw_pile else ret tt) ;;;
      next_turn ;;;
      ret true.

Definition draw_card (player_index : Z) : M bool :=
  g <- get ;;
  if negb (bool_decide (0 ≤ player_index < num_players g)) then ret false
  else
    (if negb (truthy (draw_pile g)) then _refresh_draw_pile else ret tt) ;;;
    g <- get ;;
    match draw_pile g with
    | c :: rest =>
        modify (set_draw_pile (λ _, rest)) ;;;
        hand_append player_index c ;;;
        ret true
    | [] => ret false
    end.

(** [suits] and [values] of [create_deck]; [values] is
    [list(range(7, 15))]. *)
Definition suits : list string := ["♥"; "♦"; "♣"; "♠"].
Definition values : list Z := seqZ 7 8.

(** The body of the inner loop of [create_deck] on the cache, an
    insertion-ordered dict: [card_key] is [f"{value}{suit}"]. *)
Definition cache_card (suit : string) (cache : list (string * Card)) (value : Z)
  : list (string * Card) :=
  let card_key := pretty value +:+ suit in
  if bool_decide (card_key ∈ cache.*1) then cache
  else cache ++ [(card_key, mkCard card_key value suit)].

Definition create_deck : M unit :=
  g <- get ;;
  let cache :=
    foldl (λ cache suit, foldl (cache_card suit) cache values)
          (_card_cache g) suits in
  modify (set_card_cache cache) ;;;
  pile <- shuffle (cache.*2) ;;
  modify (set_draw_pile (λ _, pile)).

(** [if self.draw_pile: player.append(self.draw_pile.popleft())] for the
    [k]-th hand of the iteration over [self.players]. *)
Definition deal_one (g : Game) (k : nat) : Game :=
  match draw_pile g with
  | c :: rest => set_players (alter (λ player, player ++ [c]) k) (set_draw_pile (λ _, rest) g)
  | [] => g
  end.

Definition deal_round (g : Game) : Game :=
  foldl deal_one g (seq 0 (length (players g))).

Definition deal_cards : M unit :=
  modify (λ g, foldl (λ g _, deal_round g) g (seq 0 5)) ;;;
  g <- get ;;
  match draw_pile g with
  | c :: rest =>
      modify (set_draw_pile (λ _, rest)) ;;;
      modify (set_discard_pile (λ d, d ++ [c]))
  | [] => ret tt
  end.

End methods.

(** The dict [serialize] returns; a card is serialised by its [name],
    [value] and [suit], which is all a [Card] holds here. *)
Record Snapshot := mkSnapshot {
  s_num_players : Z;
  s_players : list (list Card);
  s_draw_pile_count : Z;
  s_discard_pile : list Card;
  s_current_player : Z
}.

Definition serialize (g : Game) : Snapshot :=
  mkSnapshot (num_players g) (players g) (Z.of_nat (length (draw_pile g)))
             (discard_pile g) (current_player g).

End game_logic.

(** ** server.py *)

Module server.

Import game_logic(Game).

Definition MAX_ROOMS : Z := 5.
Definition MAX_PLAYERS_PER_ROOM : Z := 4.

(** A connection.  Socket I/O itself is outside the model: a message that
    is sent is appended to the server's [sent] log and the send succeeds. *)
Abbreviation socket := nat.

Module Player.
Record t := mk { sock : socket; name : string; slot : Z }.
End Player.

(** Entries of [get_room_info] ([created_at], a wall-clock time, is left
    out) and of the [results] list of [end_game]. *)
Record RoomInfo := mkRoomInfo {
  info_room_id : string;
  info_room_name : string;
  info_creator : string;
  info_players : Z;
  info_max_players : Z;
  info_in_game : bool
}.

Record ResultEntry := mkResult {
  pid : Z;
  rank : Z;
  cards_left : Z;
  disconnected : bool
}.

(** Messages from the server; the field [t] selects the constructor. *)
Module server_msg.
Inductive t :=
  | e (msg : string)
  | name_set (name : string)
  | room_list (rooms : list RoomInfo) (max_rooms current_rooms : Z)
  | room_list_update (rooms : list RoomInfo)
  | player_left (player_name : string) (players_count : Z)
  | gs (state : game_logic.Snapshot) (player_names : gmap Z string)
  | go (w : option Z) (results : list ResultEntry) (player_names : gmap Z string)
  | back_to_lobby.
End server_msg.
Abbreviation Message := server_msg.t.

(** Messages from a client that the modelled handlers read; a field that
    is [None] is absent from the JSON object.  [other t] is a message of
    any other type [t]. *)
Module client_msg.
Inductive t :=
  | set_name (name : option string)
  | refresh_rooms
  | p (ci : option Z)
  | d
  | leave_room
  | other (t : string).
End client_msg.
Abbreviation ClientMessage := client_msg.t.

Module GameRoom.
Record t := mk {
  room_id : string;
  room_name : string;
  creator : Player.t;
  max_players : Z;
  game : option Game;
  game_ended : bool;
  players : list (option Player.t);
  player_names : gmap Z string;
  sockets : gset socket;
  finish_order : list Z;
  disconnected : gset Z;
  last_game_state : option (game_logic.Snapshot * gmap Z string)
}.

Definition set_game (f : option Game → option Game) (room : t) : t :=
  mk (room_id room) (room_name room) (creator room) (max_players room)
     (f (game room)) (game_ended room) (players room) (player_names room)
     (sockets room) (finish_order room) (disconnected room) (last_game_state room).
Definition set_game_ended (b : bool) (room : t) : t :=
  mk (room_id room) (room_name room) (creator room) (max_players room)
     (game room) b (players room) (player_names room)
     (sockets room) (finish_order room) (disconnected room) (last_game_state room).
Definition set_players (f : list (option Player.t) → list (option Player.t)) (room : t) : t :=
  mk (room_id room) (room_name room) (creator room) (max_players room)
     (game room) (game_ended room) (f (players room)) (player_names room)
     (sockets room) (finish_order room) (disconnected room) (last_game_state room).
Definition set_sockets (f : gset socket → gset socket) (room : t) : t :=
  mk (room_id room) (room_name room) (creator room) (max_players room)
     (game room) (game_ended room) (players room) (player_names room)
     (f (sockets room)) (finish_order room) (disconnected room) (last_game_state room).
Definition set_finish_order (f : list Z → list Z) (room : t) : t :=
  mk (room_id room) (room_name room) (creator room) (max_players room)
     (game room) (game_ended room) (players room) (player_names room)
     (sockets room) (f (finish_order room)) (disconnected room) (last_game_state room).
Definition set_disconnected (f : gset Z → gset Z) (room : t) : t :=
  mk (room_id room) (room_name room) (creator room) (max_players room)
     (game room) (game_ended room) (players room) (player_names room)
     (sockets room) (finish_order room) (f (disconnected room)) (last_game_state room).
Definition set_last_game_state (st : option (game_logic.Snapshot * gmap Z string)) (room : t) : t :=
  mk (room_id room) (room_name room) (creator room) (max_players room)
     (game room) (game_ended room) (players room) (player_names room)
     (sockets room) (finish_order room) (disconnected room) st.
End GameRoom.

(** [LobbyManager.client_names] is never written by the server and is
    left out. *)
Module LobbyManager.
Record t := mk {
  clients : gset socket;
  player_room_created : gmap string bool
}.
End LobbyManager.

Module RoomManager.
Record t := mk {
  rooms : gmap string GameRoom.t;
  client_rooms : gmap socket string
}.
End RoomManager.

Module MultiRoomServer.
Record t := mk {
  lobby : LobbyManager.t;
  rooms : RoomManager.t;
  client_names : gmap socket string;
  sent : list (socket * Message)
}.

Definition set_lobby (f : LobbyManager.t → LobbyManager.t) (s : t) : t :=
  mk (f (lobby s)) (rooms s) (client_names s) (sent s).
Definition set_rooms (f : RoomManager.t → RoomManager.t) (s : t) : t :=
  mk (lobby s) (f (rooms s)) (client_names s) (sent s).
Definition set_client_names (f : gmap socket string → gmap socket string) (s : t) : t :=
  mk (lobby s) (rooms s) (f (client_names s)) (sent s).
Definition set_sent (f : list (socket * Message) → list (socket * Message)) (s : t) : t :=
  mk (lobby s) (rooms s) (client_names s) (f (sent s)).
End MultiRoomServer.

Section methods.
Context {Rng : Type} `{!Random Rng}.

(** [self.game.m(...)] from a method of the room: [None] has no
    attributes. *)
Definition on_game {A} (m : M Rng Game A) : M Rng GameRoom.t A :=
  λ room r,
    match GameRoom.game room with
    | Some g =>
        match m g r with
        | Ok (a, g', r') => Ok (a, GameRoom.set_game (λ _, Some g') room, r')
        | Raise ex => Raise ex
        end
    | None => Raise AttributeError
    end.

(** [self.rooms.rooms[room_id].m(...)]: the room is shared with the
    table, so its mutation is visible there. *)
Definition on_room {A} (room_id : string) (m : M Rng GameRoom.t A)
  : M Rng MultiRoomServer.t A :=
  λ s r,
    match RoomManager.rooms (MultiRoomServer.rooms s) !! room_id with
    | Some room =>
        match m room r with
        | Ok (a, room', r') =>
            Ok (a,
                MultiRoomServer.set_rooms
                  (λ rm, RoomManager.mk (<[room_id := room']> (RoomManager.rooms rm))
                                        (RoomManager.client_rooms rm)) s,
                r')
        | Raise ex => Raise ex
        end
    | None => Raise KeyError
    end.

(** *** GameRoom *)

(** The [if self.game and self.game.players[i]:] block of
    [remove_player]; [extendleft] pushes the cards one by one at the
    left end, which reverses them. *)
Definition discard_hand (i : nat) : M Rng GameRoom.t unit :=
  room <- get ;;
  match GameRoom.game room with
  | Some g =>
      hand <- getitem (game_logic.players g) (Z.of_nat i) ;;
      if truthy hand then
        on_game (modify (game_logic.set_discard_pile (λ pile, reverse hand ++ pile))) ;;;
        on_game (modify (game_logic.set_players <[i := []]>)) ;;;
        modify (GameRoom.set_disconnected (λ ds, {[Z.of_nat i]} ∪ ds)) ;;;
        g <- on_game get ;;
        if bool_decide (game_logic.current_player g = Z.of_nat i)
        then on_game game_logic.next_turn
        else ret tt
      else ret tt
  | None => ret tt
  end.

(** [player and player.sock == sock] for a seat. *)
Definition seat_of (sock : socket) (player : option Player.t) : bool :=
  match player with
  | Some pl => bool_decide (Player.sock pl = sock)
  | None => false
  end.

(** The loop of [remove_player] over [enumerate(self.players)] from
    seat [i] on. *)
Fixpoint remove_player_from (sock : socket) (i : nat) (seats : list (option Player.t))
  : M Rng GameRoom.t bool :=
  match seats with
  | [] => ret false
  | player :: seats' =>
      if seat_of sock player then
        discard_hand i ;;;
        modify (GameRoom.set_players <[i := None]>) ;;;
        modify (GameRoom.set_sockets (λ ss, ss ∖ {[sock]})) ;;;
        ret true
      else remove_player_from sock (S i) seats'
  end.

Definition remove_player (sock : socket) : M Rng GameRoom.t bool :=
  room <- get ;;
  remove_player_from sock 0 (GameRoom.players room).

Definition is_empty (room : GameRoom.t) : bool :=
  forallb (λ pl, bool_decide (pl = None)) (GameRoom.players room).

Definition occupied (room : GameRoom.t) : Z :=
  Z.of_nat (length (filter is_Some (GameRoom.players room))).

Definition get_room_info (room : GameRoom.t) : RoomInfo :=
  mkRoomInfo (GameRoom.room_id room) (GameRoom.room_name room)
             (Player.name (GameRoom.creator room)) (occupied room)
             (GameRoom.max_players room)
             (bool_decide (is_Some (GameRoom.game room)) || GameRoom.game_ended room).

(** *** MultiRoomServer.send_message

    Every send succeeds in the model.  The [socket.error] path of
    [send_message], which retries and then returns [False], is left out,
    and with it the removal of the sockets whose send failed at the end of
    [broadcast_to_room] and [broadcast]. *)

Definition send_message (sock : socket) (message : Message)
  : M Rng MultiRoomServer.t bool :=
  modify (MultiRoomServer.set_sent (λ log, log ++ [(sock, message)])) ;;;
  ret true.

(** *** LobbyManager *)

Definition add_client (sock : socket) : M Rng MultiRoomServer.t unit :=
  modify (MultiRoomServer.set_lobby (λ lb,
    LobbyManager.mk ({[sock]} ∪ LobbyManager.clients lb)
                    (LobbyManager.player_room_created lb))).

(** The rooms a listing shows: [not room.game and not room.game_ended].
    The model lists them in the order of the table's keys, the code in the
    order in which the rooms were created; no statement depends on the
    order of a listing. *)
Definition get_available_rooms_info (rooms : gmap string GameRoom.t) : list RoomInfo :=
  get_room_info <$>
    filter (λ room, GameRoom.game room = None ∧ GameRoom.game_ended room = false)
           (map_to_list rooms).*2.

Definition broadcast (message : Message) (exclude_sock : option socket)
  : M Rng MultiRoomServer.t unit :=
  s <- get ;;
  forM_ (elements (LobbyManager.clients (MultiRoomServer.lobby s)))
        (λ sock, if bool_decide (Some sock ≠ exclude_sock)
                 then send_message sock message ;;; ret tt
                 else ret tt).

Definition send_room_list (sock : socket) : M Rng MultiRoomServer.t unit :=
  s <- get ;;
  let rooms := RoomManager.rooms (MultiRoomServer.rooms s) in
  send_message sock (server_msg.room_list (get_available_rooms_info rooms) MAX_ROOMS
                               (Z.of_nat (size rooms))) ;;;
  ret tt.

(** *** RoomManager *)

Definition broadcast_to_room (room_id : string) (message : Message)
                             (exclude_sock : option socket)
  : M Rng MultiRoomServer.t unit :=
  s <- get ;;
  match RoomManager.rooms (MultiRoomServer.rooms s) !! room_id with
  | None => ret tt
  | Some room =>
      forM_ (elements (GameRoom.sockets room))
            (λ sock, if bool_decide (Some sock ≠ exclude_sock)
                     then send_message sock message ;;; ret tt
                     else ret tt)
  end.

(** [winner] of [end_game]: the first seat whose hand is empty. *)
Definition winner (g : Game) : option Z :=
  (λ found, Z.of_nat found.1) <$>
    list_find (λ hand, truthy hand = false) (game_logic.players g).

(** [results.append({...})] with [rank = len(results) + 1]. *)
Definition append_result (ds : gset Z) (results : list ResultEntry)
                         (pid cards_left : Z) : list ResultEntry :=
  results ++ [mkResult pid (Z.of_nat (length results) + 1) cards_left
                       (bool_decide (pid ∈ ds))].

Definition end_game (room_id : string) : M Rng MultiRoomServer.t unit :=
  s <- get ;;
  match RoomManager.rooms (MultiRoomServer.rooms s) !! room_id with
  | None => ret tt
  | Some room =>
      match GameRoom.game room with
      | None => ret tt
      | Some g =>
          let winner := winner g in
          let results :=
            foldl (λ results pid, append_result (GameRoom.disconnected room) results pid 0)
                  [] (GameRoom.finish_order room) in
          remaining <-
            mapM (λ i, hand <- getitem (game_logic.players g) i ;;
                       ret (i, Z.of_nat (length hand)))
                 (filter (λ i, i ∉ GameRoom.finish_order room)
                         (seqZ 0 (GameRoom.max_players room))) ;;
          let remaining := sort_by snd remaining in
          let results :=
            foldl (λ results x, append_result (GameRoom.disconnected room) results x.1 x.2)
                  results remaining in
          broadcast_to_room room_id
            (server_msg.go ((λ w, w + 1) <$> winner) results (GameRoom.player_names room)) None ;;;
          on_room room_id
            (modify (GameRoom.set_game (λ _, None)) ;;;
             modify (GameRoom.set_game_ended true) ;;;
             modify (GameRoom.set_last_game_state None) ;;;
             modify (GameRoom.set_finish_order (λ _, [])))
      end
  end.

Definition leave_room (sock : socket) : M Rng MultiRoomServer.t unit :=
  s <- get ;;
  match RoomManager.client_rooms (MultiRoomServer.rooms s) !! sock with
  | Some room_id =>
      match RoomManager.rooms (MultiRoomServer.rooms s) !! room_id with
      | Some _ =>
          let player_name := default "Unknown" (MultiRoomServer.client_names s !! sock) in
          on_room room_id (remove_player sock) ;;;
          room <- on_room room_id get ;;
          broadcast_to_room room_id (server_msg.player_left player_name (occupied room)) None ;;;
          match GameRoom.game room with
          | Some g =>
              broadcast_to_room room_id
                (server_msg.gs (game_logic.serialize g) (GameRoom.player_names room)) None
          | None => ret tt
          end ;;;
          if is_empty room then
            modify (MultiRoomServer.set_lobby (λ lb,
              LobbyManager.mk (LobbyManager.clients lb)
                (delete (Player.name (GameRoom.creator room))
                        (LobbyManager.player_room_created lb)))) ;;;
            modify (MultiRoomServer.set_rooms (λ rm,
              RoomManager.mk (delete room_id (RoomManager.rooms rm))
                             (RoomManager.client_rooms rm)))
          else ret tt
      | None => ret tt
      end ;;;
      modify (MultiRoomServer.set_rooms (λ rm,
        RoomManager.mk (RoomManager.rooms rm) (delete sock (RoomManager.client_rooms rm))))
  | None => ret tt
  end ;;;
  add_client sock ;;;
  send_message sock server_msg.back_to_lobby ;;;
  send_room_list sock ;;;
  s <- get ;;
  broadcast
    (server_msg.room_list_update (get_available_rooms_info (RoomManager.rooms (MultiRoomServer.rooms s))))
    None.

(** *** MessageHandler *)

(** The [set_name] and [refresh_rooms] branches of
    [handle_lobby_message]; a message type with no branch falls through
    the [if]/[elif] chain.  The [create_room] and [join_room] branches are
    not modelled: of a message [other "create_room"] or
    [other "join_room"] this definition says nothing about the code, and
    no statement below is made of them. *)
Definition handle_lobby_message (sock : socket) (message : ClientMessage)
  : M Rng MultiRoomServer.t unit :=
  match message with
  | client_msg.set_name name =>
      let player_name := strip (default "" name) in
      if negb (bool_decide (3 ≤ py_len player_name ≤ 20)%nat) then
        send_message sock (server_msg.e "Name must be 3-20 characters long") ;;; ret tt
      else
        s <- get ;;
        if bool_decide (player_name ∈ (map_to_list (MultiRoomServer.client_names s)).*2) then
          send_message sock (server_msg.e "Name already taken") ;;; ret tt
        else
          modify (MultiRoomServer.set_client_names <[sock := player_name]>) ;;;
          send_message sock (server_msg.name_set player_name) ;;;
          send_room_list sock
  | client_msg.refresh_rooms => send_room_list sock
  | _ => ret tt
  end.

Definition _broadcast_game_state (room_id : string) : M Rng MultiRoomServer.t unit :=
  room <- on_room room_id get ;;
  match GameRoom.game room with
  | None => ret tt
  | Some g =>
      let current_state := (game_logic.serialize g, GameRoom.player_names room) in
      on_room room_id (modify (GameRoom.set_last_game_state (Some current_state))) ;;;
      broadcast_to_room room_id (server_msg.gs current_state.1 current_state.2) None
  end.

(** [next((p.slot for p in room.players if p and p.sock == sock), -1)]. *)
Definition slot_of (sock : socket) (room : GameRoom.t) : Z :=
  match list_find (λ player, seat_of sock player = true) (GameRoom.players room) with
  | Some (_, Some q) => Player.slot q
  | _ => -1
  end.

Definition handle_room_message (sock : socket) (message : ClientMessage)
  : M Rng MultiRoomServer.t unit :=
  s <- get ;;
  match RoomManager.client_rooms (MultiRoomServer.rooms s) !! sock
        ≫= λ room_id, (room_id,.) <$> RoomManager.rooms (MultiRoomServer.rooms s) !! room_id with
  | None => ret tt
  | Some (room_id, room) =>
      match message, GameRoom.game room with
      | client_msg.leave_room, _ => leave_room sock
      | _, None => ret tt
      | _, Some g =>
          let player_slot := slot_of sock room in
          let my_turn := bool_decide (player_slot = game_logic.current_player g) in
          match message with
          | client_msg.p ci =>
              if my_turn then
                let card_index := default (-1) ci in
                played <- on_room room_id (on_game (game_logic.play_card player_slot card_index)) ;;
                if played : bool then
                  on_room room_id
                    (g <- on_game get ;;
                     hand <- getitem (game_logic.players g) player_slot ;;
                     room <- get ;;
                     if negb (truthy hand)
                        && negb (bool_decide (player_slot ∈ GameRoom.finish_order room))
                     then modify (GameRoom.set_finish_order (λ fo, fo ++ [player_slot]))
                     else ret tt) ;;;
                  _broadcast_game_state room_id
                else send_message sock (server_msg.e "Invalid card play") ;;; ret tt
              else send_message sock (server_msg.e "Invalid action or not your turn") ;;; ret tt
          | client_msg.d =>
              if my_turn then
                drawn <- on_room room_id (on_game (game_logic.draw_card player_slot)) ;;
                if drawn : bool then
                  on_room room_id (on_game game_logic.next_turn) ;;;
                  _broadcast_game_state room_id
                else send_message sock (server_msg.e "Cannot draw card: draw pile empty") ;;; ret tt
              else send_message sock (server_msg.e "Invalid action or not your turn") ;;; ret tt
          | _ => send_message sock (server_msg.e "Invalid action or not your turn") ;;; ret tt
          end
      end
  end.

(** *** MultiRoomServer.start

    The body of the housekeeping loop for one room of
    [list(self.rooms.rooms.keys())]. *)
Definition housekeep (room_id : string) : M Rng MultiRoomServer.t unit :=
  room <- on_room room_id get ;;
  match GameRoom.game room with
  | None => ret tt
  | Some g =>
      let current_player := game_logic.current_player g in
      hand <- getitem (game_logic.players g) current_player ;;
      (if bool_decide (length hand = 0%nat) && negb (game_logic.check_game_over g) then
         on_room room_id (on_game game_logic.next_turn) ;;;
         _broadcast_game_state room_id
       else ret tt) ;;;
      g <- on_room room_id (on_game get) ;;
      (if game_logic.check_game_over g then end_game room_id else ret tt) ;;;
      if is_empty room then
        modify (MultiRoomServer.set_rooms (λ rm,
          RoomManager.mk (delete room_id (RoomManager.rooms rm))
                         (RoomManager.client_rooms rm)))
      else ret tt
  end.

(** *** The rest of GameRoom and RoomManager *)

Definition set_player_names (f : gmap Z string → gmap Z string) (room : GameRoom.t)
  : GameRoom.t :=
  GameRoom.mk (GameRoom.room_id room) (GameRoom.room_name room) (GameRoom.creator room)
    (GameRoom.max_players room) (GameRoom.game room) (GameRoom.game_ended room)
    (GameRoom.players room) (f (GameRoom.player_names room)) (GameRoom.sockets room)
    (GameRoom.finish_order room) (GameRoom.disconnected room)
    (GameRoom.last_game_state room).

(** [next((i for i, p in enumerate(self.players) if p is None), None)]. *)
Definition free_slot (room : GameRoom.t) : option nat :=
  fst <$> list_find (λ player, player = None) (GameRoom.players room).

(** [GameRoom._add_player]; it cannot raise and uses no randomness, so it
    is a function from the room to the result and the room. *)
Definition _add_player (player : Player.t) (room : GameRoom.t) : bool * GameRoom.t :=
  match free_slot room with
  | None => (false, room)
  | Some slot =>
      (true,
       GameRoom.set_sockets (λ ss, {[Player.sock player]} ∪ ss)
         (set_player_names <[Z.of_nat slot := Player.name player]>
            (GameRoom.set_players <[slot := Some player]> room)))
  end.

(** [GameRoom.__init__]: [[None] * max_players] seats, then the creator is
    seated ([created_at] is left out). *)
Definition GameRoom__init__ (room_id room_name : string) (creator : Player.t)
    (max_players : Z) : GameRoom.t :=
  (_add_player creator
     (GameRoom.mk room_id room_name creator max_players None false
        (replicate (Z.to_nat max_players) None) ∅ ∅ [] ∅ None)).2.

Definition is_full (room : GameRoom.t) : bool :=
  forallb (λ pl, bool_decide (pl ≠ None)) (GameRoom.players room).

Definition can_start_game (room : GameRoom.t) : bool :=
  bool_decide (occupied room = GameRoom.max_players room)
  && bool_decide (GameRoom.game room = None)
  && negb (GameRoom.game_ended room).

Definition start_game : M Rng GameRoom.t bool :=
  room <- get ;;
  if can_start_game room then
    modify (GameRoom.set_game
              (λ _, Some (game_logic.__init__ (GameRoom.max_players room)))) ;;;
    on_game game_logic.create_deck ;;;
    on_game game_logic.deal_cards ;;;
    modify (GameRoom.set_finish_order (λ _, [])) ;;;
    modify (GameRoom.set_disconnected (λ _, ∅)) ;;;
    ret true
  else ret false.

(** [RoomManager.create_room]; [room_id] stands for the string
    [str(uuid.uuid4())] returns. *)
Definition create_room (sock : socket) (room_name creator_name : string)
    (max_players : Z) (room_id : string) : M Rng MultiRoomServer.t (option string) :=
  s <- get ;;
  if bool_decide (MAX_ROOMS ≤ Z.of_nat (size (RoomManager.rooms (MultiRoomServer.rooms s))))
  then ret None
  else if negb (bool_decide (2 ≤ max_players ≤ MAX_PLAYERS_PER_ROOM)) then ret None
  else
    let creator := Player.mk sock creator_name 0 in
    let room := GameRoom__init__ room_id room_name creator max_players in
    modify (MultiRoomServer.set_rooms (λ rm,
      RoomManager.mk (<[room_id := room]> (RoomManager.rooms rm))
                     (<[sock := room_id]> (RoomManager.client_rooms rm)))) ;;;
    ret (Some room_id).

(** [RoomManager.join_room]; a [room_id] that is [None] is in no table. *)
Definition join_room (sock : socket) (room_id : option string) (player_name : string)
  : M Rng MultiRoomServer.t (option Z) :=
  s <- get ;;
  match room_id ≫= λ rid, (rid,.) <$> RoomManager.rooms (MultiRoomServer.rooms s) !! rid with
  | None => ret None
  | Some (rid, room) =>
      if is_full room || bool_decide (is_Some (GameRoom.game room))
         || GameRoom.game_ended room
      then ret None
      else
        match free_slot room with
        | None => ret None
        | Some slot =>
            let player := Player.mk sock player_name (Z.of_nat slot) in
            on_room rid
              (modify (GameRoom.set_players <[slot := Some player]>) ;;;
               modify (set_player_names <[Z.of_nat slot := player_name]>) ;;;
               modify (GameRoom.set_sockets (λ ss, {[sock]} ∪ ss))) ;;;
            modify (MultiRoomServer.set_rooms (λ rm,
              RoomManager.mk (RoomManager.rooms rm)
                             (<[sock := rid]> (RoomManager.client_rooms rm)))) ;;;
            ret (Some (Z.of_nat slot))
        end
  end.

(** [LobbyManager.remove_client]. *)
Definition remove_client (sock : socket) : M Rng MultiRoomServer.t unit :=
  modify (MultiRoomServer.set_lobby (λ lb,
    LobbyManager.mk (LobbyManager.clients lb ∖ {[sock]})
                    (LobbyManager.player_room_created lb))).

(** [MultiRoomServer._remove_client]; closing and unregistering the socket
    are I/O and leave no trace in the model. *)
Definition _remove_client (sock : socket) : M Rng MultiRoomServer.t unit :=
  s <- get ;;
  (if bool_decide (is_Some (RoomManager.client_rooms (MultiRoomServer.rooms s) !! sock))
   then leave_room sock else ret tt) ;;;
  remove_client sock ;;;
  modify (MultiRoomServer.set_client_names (delete sock)) ;;;
  s <- get ;;
  broadcast
    (server_msg.room_list_update
       (get_available_rooms_info (RoomManager.rooms (MultiRoomServer.rooms s))))
    None.

End methods.

End server.

(** ** Vocabulary of the specification *)

Import game_logic.

(** The class invariant of [Game]: [__init__] sizes [players] by
    [num_players], at least 2, and no method reassigns either. *)
Definition wf (g : Game) : Prop :=
  Z.of_nat (length (players g)) = num_players g ∧ 2 ≤ num_players g.

(** The hand of seat [i]. *)
Definition hand (g : Game) (i : Z) : list Card :=
  default [] (players g !! Z.to_nat i).

(** All cards of a game, hands first, then stock, then discard. *)
Definition all_cards (g : Game) : list Card :=
  concat (players g) ++ draw_pile g ++ discard_pile g.

(** The seat [k] places after [current_player], circularly. *)
Definition seat_after (g : Game) (k : Z) : Z :=
  (current_player g + 1 + k) `mod` num_players g.

(** [s] is the next active seat of [g]: the first seat after
    [current_player], circularly, whose hand is not empty; when every hand
    is empty, the seat right after [current_player]. *)
Definition next_active (g : Game) (s : Z) : Prop :=
  (∃ k, 0 ≤ k < num_players g ∧ s = seat_after g k ∧ hand g s ≠ [] ∧
        ∀ j, 0 ≤ j < k → hand g (seat_after g j) = [])
  ∨ (Forall (λ h, h = []) (players g) ∧ s = seat_after g 0).

(** The cards a seat can still be dealt: the stock, and the discard pile
    below its active card, which a refill turns into stock. *)
Definition available (g : Game) : nat :=
  length (draw_pile g) + pred (length (discard_pile g)).

(** What the model assumes of [random.shuffle]: the result is a
    reordering of the argument. *)
Definition permutes (Rng : Type) `{!Random Rng} : Prop :=
  ∀ (l : list Card) (r : Rng), (random_shuffle l r).1 ≡ₚ l.

(** The active card: the tail of the discard pile. *)
Definition active_card (g : Game) : option Card := last (discard_pile g).

(** The state of [play_card] once the card has moved from the hand to
    the tail of the discard pile. *)
Definition laid (g : Game) (player_index card_index : Z) (card : Card) : Game :=
  set_discard_pile (λ d, d ++ [card])
    (set_players <[Z.to_nat player_index :=
                     delete (Z.to_nat card_index) (hand g player_index)]> g).

(** The rest of [play_card] once the card is laid: the effect of its
    rank, the refill, and the turn advance. *)
Definition resolve {Rng : Type} `{!Random Rng} (card : Card) : M Rng Game bool :=
  (if bool_decide (card.value card = 7) then
     next_player <- _get_next_active_player ;;
     draw_three 3 next_player 0 ;;;
     modify (set_current_player next_player)
   else if bool_decide (card.value card = 14) then
     next_player <- _get_next_active_player ;;
     modify (set_current_player next_player)
   else ret tt) ;;;
  g <- get ;;
  (if negb (truthy (draw_pile g)) && negb (bool_decide (card.value card = 7))
   then _refresh_draw_pile else ret tt) ;;;
  next_turn ;;;
  ret true.

(** The game of a room after a seat's hand has gone to the head side of
    the discard pile. *)
Definition vacated (g : Game) (i : nat) : Game :=
  set_players <[i := []]>
    (set_discard_pile (λ pile, reverse (hand g (Z.of_nat i)) ++ pile) g).

(** Result entries for the seats and card counts of [l], ranked from
    [k + 1] on, with the disconnected flag read from [ds]. *)
Fixpoint ranked (ds : gset Z) (k : Z) (l : list (Z * Z)) : list server.ResultEntry :=
  match l with
  | [] => []
  | x :: l' =>
      server.mkResult x.1 (k + 1) x.2 (bool_decide (x.1 ∈ ds)) :: ranked ds (k + 1) l'
  end.

(** The seats of a room that are not in its finish order, each with the
    size of its hand. *)
Definition remaining_seats (room : server.GameRoom.t) (g : Game) : list (Z * Z) :=
  (λ i, (i, Z.of_nat (length (hand g i)))) <$>
    filter (λ i, i ∉ server.GameRoom.finish_order room)
           (seqZ 0 (server.GameRoom.max_players room)).

(** The results of a round: the finishers in their order with no cards
    left, then [others]. *)
Definition standings (room : server.GameRoom.t) (others : list (Z * Z))
  : list server.ResultEntry :=
  ranked (server.GameRoom.disconnected room) 0
         ((λ pid, (pid, 0)) <$> server.GameRoom.finish_order room)
  ++ ranked (server.GameRoom.disconnected room)
            (Z.of_nat (length (server.GameRoom.finish_order room))) others.

(** The cards seat [k] of [n] gets in the first [rounds] rounds of a deal
    from [stock]: one card in [n] from its own place on, as far as the stock
    reaches. *)
Definition dealt (n : nat) (stock : list Card) (rounds k : nat) : list Card :=
  omap (λ j, stock !! (j * n + k)%nat) (seq 0 rounds).

(** The 32 cards [create_deck] builds, in the order of the cache. *)
Definition deck : list Card :=
  suit ← suits; value ← values; [mkCard (pretty value +:+ suit) value suit].
Arguments deck : simpl never.

(** The room once [sock] sits at [slot] under [player_name]. *)
Definition seated (sock : server.socket) (player_name : string) (slot : nat)
    (room : server.GameRoom.t) : server.GameRoom.t :=
  server.GameRoom.set_sockets (λ ss, {[sock]} ∪ ss)
    (server.set_player_names <[Z.of_nat slot := player_name]>
       (server.GameRoom.set_players
          <[slot := Some (server.Player.mk sock player_name (Z.of_nat slot))]> room)).

(** The room [create_room] makes: the creator alone, at seat 0. *)
Definition new_room (room_id room_name : string) (sock : server.socket)
    (creator_name : string) (max_players : Z) : server.GameRoom.t :=
  server.GameRoom.mk room_id room_name (server.Player.mk sock creator_name 0)
    max_players None false
    (Some (server.Player.mk sock creator_name 0)
       :: replicate (Z.to_nat max_players - 1) None)
    {[0 := creator_name]} {[sock]} [] ∅ None.

(** The finish order once seat [slot] has played in game [g]: the seat
    joins it when its hand is empty and it is not yet there. *)
Definition finished (g : Game) (slot : Z) (finish_order : list Z) : list Z :=
  if bool_decide (hand g slot = [] ∧ slot ∉ finish_order)
  then finish_order ++ [slot] else finish_order.

(** What [leave_room] sends to the room that is left. *)
Definition farewell (player_name : string) (room1 : server.GameRoom.t)
  : list (server.socket * server.Message) :=
  ((., server.server_msg.player_left player_name (server.occupied room1))
     <$> elements (server.GameRoom.sockets room1)) ++
  match server.GameRoom.game room1 with
  | Some g => (., server.server_msg.gs (serialize g) (server.GameRoom.player_names room1))
                <$> elements (server.GameRoom.sockets room1)
  | None => []
  end.

(** A call of the server on the game of a room during a round. *)
Inductive call :=
  | play (player_index card_index : Z)
  | draw (player_index : Z)
  | turn.

Definition do_call {Rng : Type} `{!Random Rng} (c : call) : M Rng Game unit :=
  match c with
  | play player_index card_index => play_card player_index card_index ;;; ret tt
  | draw player_index => draw_card player_index ;;; ret tt
  | turn => next_turn
  end.

(** What holds of a game between two calls once the cards are dealt: the
    class invariant, a seat in range holds the turn, there is an active
    card, and the cards are those of the deck. *)
Definition sound (g : Game) : Prop :=
  wf g ∧ 0 ≤ current_player g < num_players g ∧ discard_pile g ≠ [] ∧
  all_cards g ≡ₚ deck.

(** What holds of a room between two requests: as many seats as
    [max_players], which is 2 to 4; no seat twice in the finish order; and a
    game, if any, that is sound and has one hand per seat. *)
Definition room_ok (room : server.GameRoom.t) : Prop :=
  Z.of_nat (length (server.GameRoom.players room)) = server.GameRoom.max_players room ∧
  2 ≤ server.GameRoom.max_players room ≤ server.MAX_PLAYERS_PER_ROOM ∧
  NoDup (server.GameRoom.finish_order room) ∧
  ∀ g, server.GameRoom.game room = Some g →
       sound g ∧ num_players g = server.GameRoom.max_players room.

Definition server_ok (s : server.MultiRoomServer.t) : Prop :=
  map_Forall (λ _ room, room_ok room)
             (server.RoomManager.rooms (server.MultiRoomServer.rooms s)).

(** The server as [MultiRoomServer.__init__] leaves it: an empty lobby,
    no room, no name, nothing sent. *)
Definition MultiRoomServer__init__ : server.MultiRoomServer.t :=
  server.MultiRoomServer.mk (server.LobbyManager.mk ∅ ∅) (server.RoomManager.mk ∅ ∅) ∅ [].

(** ** Sample states *)

Module examples.

(** A generator whose shuffle reverses the list; its state counts the
    shuffles. *)
#[global] Instance reversing : Random nat := λ l r, (reverse l, S r).

Definition c (value : Z) (suit : string) : Card :=
  mkCard (pretty value +:+ suit) value suit.

(** A game with the given hands, stock and discard pile; seat 0 holds
    the turn. *)
Definition table (hands : list (list Card)) (stock pile : list Card) : Game :=
  mkGame (Z.of_nat (length hands)) hands stock pile 0 [].

(** A duel in progress: seat 0 to play on the nine of diamonds. *)
Definition duel : Game :=
  table [[c 9 "♥"; c 12 "♠"; c 7 "♦"; c 14 "♦"]; [c 8 "♦"]]
        [c 10 "♣"; c 11 "♣"; c 13 "♣"] [c 9 "♦"].

(** A room of three: Anna (seat 0, connection 10), Boris (seat 1,
    connection 11) and Cyril (seat 2, connection 12).  Cyril has played his
    last card; Anna holds the turn. *)
Definition trio_game : Game :=
  mkGame 3 [[c 9 "♥"; c 12 "♠"]; [c 8 "♦"; c 8 "♣"; c 13 "♥"]; []]
         [c 10 "♣"; c 11 "♣"] [c 7 "♠"; c 9 "♦"] 0 [].

Definition trio : server.GameRoom.t :=
  server.GameRoom.mk "room-1" "Krčma" (server.Player.mk 10 "Anna" 0) 3
    (Some trio_game) false
    [Some (server.Player.mk 10 "Anna" 0); Some (server.Player.mk 11 "Boris" 1);
     Some (server.Player.mk 12 "Cyril" 2)]
    {[0 := "Anna"; 1 := "Boris"; 2 := "Cyril"]}
    {[10%nat; 11%nat; 12%nat]} [2] ∅ None.

(** A server with that room only, everybody named, nobody in the lobby
    and nothing sent yet. *)
Definition tavern : server.MultiRoomServer.t :=
  server.MultiRoomServer.mk
    (server.LobbyManager.mk ∅ {["Anna" := true]})
    (server.RoomManager.mk {["room-1" := trio]}
       {[10%nat := "room-1"; 11%nat := "room-1"; 12%nat := "room-1"]})
    {[10%nat := "Anna"; 11%nat := "Boris"; 12%nat := "Cyril"]}
    [].

(** A room of two whose round is over: Boris has played his last card,
    Anna still holds the nine of hearts and the turn. *)
Definition over_game : Game :=
  table [[c 9 "♥"]; []] [c 10 "♣"] [c 9 "♦"].

Definition duo : server.GameRoom.t :=
  server.GameRoom.mk "room-2" "Salón" (server.Player.mk 10 "Anna" 0) 2
    (Some over_game) false
    [Some (server.Player.mk 10 "Anna" 0); Some (server.Player.mk 11 "Boris" 1)]
    {[0 := "Anna"; 1 := "Boris"]} {[10%nat; 11%nat]} [1] ∅ None.

Definition parlour : server.MultiRoomServer.t :=
  server.MultiRoomServer.mk
    (server.LobbyManager.mk ∅ {["Anna" := true]})
    (server.RoomManager.mk {["room-2" := duo]}
       {[10%nat := "room-2"; 11%nat := "room-2"]})
    {[10%nat := "Anna"; 11%nat := "Boris"]}
    [].

(** The tavern with a new, nameless connection 13 in the lobby; Anna,
    Boris and Cyril are in their room. *)
Definition tavern_with_guest : server.MultiRoomServer.t :=
  server.MultiRoomServer.set_lobby
    (λ lb, server.LobbyManager.mk {[13%nat]} (server.LobbyManager.player_room_created lb))
    tavern.

(** The sample duel after seat 0 has played the nine of hearts. *)
Definition duel_after_nine : Game :=
  mkGame 2 [[c 12 "♠"; c 7 "♦"; c 14 "♦"]; [c 8 "♦"]]
         [c 10 "♣"; c 11 "♣"; c 13 "♣"] [c 9 "♦"; c 9 "♥"] 1 [].

(** The sample room's game after Anna has played the nine of hearts. *)
Definition trio_after_nine : Game :=
  mkGame 3 [[c 12 "♠"]; [c 8 "♦"; c 8 "♣"; c 13 "♥"]; []]
         [c 10 "♣"; c 11 "♣"] [c 7 "♠"; c 9 "♦"; c 9 "♥"] 1 [].

(** The sample room's game with the turn at Cyril's empty seat, and the
    tavern with that game. *)
Definition idle_game : Game :=
  mkGame 3 [[c 9 "♥"; c 12 "♠"]; [c 8 "♦"; c 8 "♣"; c 13 "♥"]; []]
         [c 10 "♣"; c 11 "♣"] [c 7 "♠"; c 9 "♦"] 2 [].

Definition idle_tavern : server.MultiRoomServer.t :=
  server.MultiRoomServer.set_rooms
    (λ rm, server.RoomManager.mk
             (<["room-1" := server.GameRoom.set_game (λ _, Some idle_game) trio]>
                (server.RoomManager.rooms rm))
             (server.RoomManager.client_rooms rm))
    tavern.

(** A table of two with an empty stock and three discard cards. *)
Definition dry : Game :=
  table [[c 9 "♥"]; [c 8 "♦"]] [] [c 10 "♣"; c 11 "♣"; c 9 "♦"].

Lemma over_game_wf : wf over_game.
Proof. split; [reflexivity | vm_compute; discriminate]. Qed.

Lemma trio_game_wf : wf trio_game.
Proof. split; [reflexivity | vm_compute; discriminate]. Qed.

Lemma reversing_permutes : permutes nat.
Proof. intros l r. apply reverse_Permutation. Qed.

Lemma duel_wf : wf duel.
Proof. split; [reflexivity | vm_compute; discriminate]. Qed.

End examples.

(** ** Properties of the Python primitives *)

Section primitives.
Context {Rng Σ : Type}.

Lemma bind_ok {A B} (m : M Rng Σ A) (k : A → M Rng Σ B) s r a s' r' :
  m s r = Ok (a, s', r') → bind m k s r = k a s' r'.
Proof. unfold bind. by intros ->. Qed.

Lemma bind_get {B} (k : Σ → M Rng Σ B) s r : bind get k s r = k s s r.
Proof. reflexivity. Qed.

Lemma bind_ret {A B} (a : A) (k : A → M Rng Σ B) s r : bind (ret a) k s r = k a s r.
Proof. reflexivity. Qed.

Lemma bind_modify {B} (f : Σ → Σ) (k : unit → M Rng Σ B) s r :
  bind (modify f) k s r = k tt (f s) r.
Proof. reflexivity. Qed.

Lemma py_index_in_range {A} (l : list A) (i : Z) :
  0 ≤ i < Z.of_nat (length l) → py_index l i = Some (Z.to_nat i).
Proof. intros Hi. unfold py_index. by rewrite bool_decide_eq_true_2. Qed.

Lemma py_index_lt {A} (l : list A) (i : Z) k :
  py_index l i = Some k → (k < length l)%nat.
Proof.
  unfold py_index. cbv zeta.
  repeat case_bool_decide; (intros [= <-] || intros [=]); lia.
Qed.

Lemma getitem_in_range {A} (l : list A) (i : Z) x (s : Σ) (r : Rng) :
  0 ≤ i → l !! Z.to_nat i = Some x → getitem l i s r = Ok (x, s, r).
Proof.
  intros Hi Hx. unfold getitem. rewrite py_index_in_range.
  - simpl. by rewrite Hx.
  - apply lookup_lt_Some in Hx. lia.
Qed.

Lemma getitem_last {A} (l : list A) x (s : Σ) (r : Rng) :
  getitem (l ++ [x]) (-1) s r = Ok (x, s, r).
Proof.
  unfold getitem, py_index. cbv zeta. rewrite length_app, Nat2Z.inj_add.
  change (Z.of_nat (length [x])) with 1.
  rewrite bool_decide_eq_false_2, bool_decide_eq_true_2 by lia.
  replace (Z.to_nat _) with (length l + 0)%nat by lia.
  cbn [mbind option_bind]. by rewrite lookup_app_r, Nat.add_comm, Nat.add_sub by lia.
Qed.

Lemma py_mod_ok (a b : Z) (s : Σ) (r : Rng) :
  b ≠ 0 → py_mod a b s r = Ok (a `mod` b, s, r).
Proof. intros. unfold py_mod. by rewrite bool_decide_eq_false_2. Qed.

(** *** The stable sort *)

Lemma insert_by_perm {A} (key : A → Z) x l : insert_by key x l ≡ₚ x :: l.
Proof.
  induction l as [|y l IH]; [done|]. simpl. case_bool_decide; [done|].
  by rewrite IH, Permutation_swap.
Qed.

Lemma sort_by_perm {A} (key : A → Z) l : sort_by key l ≡ₚ l.
Proof.
  induction l as [|x l IH]; [done|]. simpl.
  by rewrite insert_by_perm, IH.
Qed.

Lemma insert_by_HdRel {A} (key : A → Z) x y l :
  key y ≤ key x → HdRel (λ a b, key a ≤ key b) y l →
  HdRel (λ a b, key a ≤ key b) y (insert_by key x l).
Proof.
  intros Hyx Hhd. destruct l as [|z l]; simpl; [by constructor|].
  case_bool_decide; constructor; [done|]. by inversion Hhd.
Qed.

Lemma insert_by_sorted {A} (key : A → Z) x l :
  Sorted (λ a b, key a ≤ key b) l → Sorted (λ a b, key a ≤ key b) (insert_by key x l).
Proof.
  induction 1 as [|y l Hs IH Hhd]; simpl; [by repeat constructor|].
  case_bool_decide as Hxy.
  - constructor; [by constructor | by constructor].
  - constructor; [done|]. apply insert_by_HdRel; [lia | done].
Qed.

Lemma sort_by_sorted {A} (key : A → Z) l :
  Sorted (λ a b, key a ≤ key b) (sort_by key l).
Proof.
  induction l as [|x l IH]; simpl; [constructor|]. by apply insert_by_sorted.
Qed.

Lemma mapM_ok {A B} (f : A → M Rng Σ B) (h : A → B) (l : list A) (s : Σ) (r : Rng) :
  (∀ x, x ∈ l → f x s r = Ok (h x, s, r)) →
  mapM f l s r = Ok (h <$> l, s, r).
Proof.
  induction l as [|x l IH]; intros Hf; [done|]. simpl.
  erewrite bind_ok; [|apply Hf; by left].
  erewrite bind_ok; [|apply IH; intros; apply Hf; by right]. done.
Qed.

(** *** Strings *)

(** On a string of one-byte code points [len] counts the bytes. *)
Lemma py_len_ascii (s : string) :
  Forall (λ c, nat_of_ascii c < 128)%nat (String.list_ascii_of_string s) →
  py_len s = String.length s.
Proof.
  unfold py_len. induction s as [|c s IH]; [done|].
  cbn [String.list_ascii_of_string String.length]. intros Hs.
  apply Forall_cons in Hs as [Hc Hs].
  rewrite filter_cons_True by lia. cbn [length]. by rewrite IH.
Qed.

(** Two code points of two bytes each, and a name between a no-break space
    and an ideographic space. *)
Lemma py_len_strip_code_points :
  py_len "čč" = 2%nat ∧ String.length "čč" = 4%nat ∧
  strip " Eva　" = "Eva".
Proof. by vm_compute. Qed.

End primitives.

(** ** Properties of the rules engine *)

Section game_properties.
Context {Rng : Type} `{!Random Rng}.
Implicit Types (g : Game) (r : Rng) (c : Card).

Lemma wf_seat g i : wf g → 0 ≤ i < num_players g → players g !! Z.to_nat i = Some (hand g i).
Proof.
  intros [Hlen _] Hi. unfold hand.
  destruct (lookup_lt_is_Some_2 (players g) (Z.to_nat i)) as [h ->]; [lia | done].
Qed.

Lemma seat_after_range g k : wf g → 0 ≤ seat_after g k < num_players g.
Proof. intros [_ Hn]. apply Z.mod_pos_bound. lia. Qed.

Lemma seat_after_succ g k :
  wf g → (seat_after g k + 1) `mod` num_players g = seat_after g (k + 1).
Proof.
  intros [_ Hn]. unfold seat_after.
  rewrite Zplus_mod_idemp_l. f_equal. lia.
Qed.

Lemma seat_after_cover g i :
  wf g → 0 ≤ i < num_players g →
  ∃ j, 0 ≤ j < num_players g ∧ seat_after g j = i.
Proof.
  intros [_ Hn] Hi. exists ((i - current_player g - 1) `mod` num_players g).
  split; [apply Z.mod_pos_bound; lia|].
  unfold seat_after. rewrite Zplus_mod_idemp_r.
  replace (current_player g + 1 + (i - current_player g - 1)) with i by lia.
  by apply Z.mod_small.
Qed.

Lemma refresh_small g r :
  (length (discard_pile g) ≤ 1)%nat → _refresh_draw_pile g r = Ok (tt, g, r).
Proof.
  intros Hlen. unfold _refresh_draw_pile, bind, get.
  by rewrite bool_decide_eq_true_2 by lia.
Qed.

Lemma refresh_big g r init top :
  discard_pile g = init ++ [top] → init ≠ [] →
  _refresh_draw_pile g r =
    Ok (tt,
        set_discard_pile (λ _, [top])
          (set_draw_pile (λ _, (random_shuffle init r).1) g),
        (random_shuffle init r).2).
Proof.
  intros Hd Hinit. unfold _refresh_draw_pile, bind, get.
  rewrite Hd, length_app, bool_decide_eq_false_2.
  2:{ destruct init; [done | simpl; lia]. }
  rewrite getitem_last, removelast_last. unfold shuffle.
  by destruct (random_shuffle init r).
Qed.

(** [_refresh_draw_pile] never raises and touches the piles only. *)
Lemma refresh_frame g r :
  ∃ g' r', _refresh_draw_pile g r = Ok (tt, g', r') ∧
    players g' = players g ∧ num_players g' = num_players g ∧
    current_player g' = current_player g ∧ active_card g' = active_card g ∧
    (permutes Rng → draw_pile g = [] →
     draw_pile g' ++ discard_pile g' ≡ₚ draw_pile g ++ discard_pile g).
Proof.
  destruct (decide (length (discard_pile g) ≤ 1)%nat) as [Hlen|Hlen].
  { eexists _, _. split; [by apply refresh_small | done]. }
  destruct (exists_last (l := discard_pile g)) as (init & top & Hd).
  { intros Hd. rewrite Hd in Hlen. simpl in Hlen. lia. }
  assert (init ≠ []) as Hinit.
  { intros ->. rewrite Hd in Hlen. simpl in Hlen. lia. }
  eexists _, _. split; [by eapply refresh_big|].
  unfold active_card. rewrite Hd. simpl. rewrite last_snoc.
  split_and!; try done. intros HP ->. by rewrite (HP init r).
Qed.

Lemma scan_active_spec g r (m : nat) k :
  wf g → 0 ≤ k → Z.of_nat m + k = num_players g →
  (∀ j, 0 ≤ j < k → hand g (seat_after g j) = []) →
  ∃ s, scan_active m (seat_after g k) g r = Ok (s, g, r) ∧ next_active g s.
Proof.
  intros Hwf. revert k. induction m as [|m IH]; intros k Hk Hm Hempty.
  - exists (seat_after g k). split; [done|]. right. split.
    + apply Forall_lookup_2. intros i h Hi.
      destruct (seat_after_cover g (Z.of_nat i) Hwf) as (j & Hj & Hji).
      { apply lookup_lt_Some in Hi. destruct Hwf. lia. }
      specialize (Hempty j ltac:(lia)). rewrite Hji in Hempty.
      unfold hand in Hempty. by rewrite Nat2Z.id, Hi in Hempty.
    + unfold seat_after. replace k with (num_players g) by lia.
      replace (current_player g + 1 + num_players g)
        with (current_player g + 1 + 0 + 1 * num_players g) by lia.
      apply Z_mod_plus_full.
  - pose proof (seat_after_range g k Hwf) as Hr.
    cbn [scan_active]. unfold bind at 1, get at 1.
    erewrite bind_ok; [|apply getitem_in_range; [lia | by apply wf_seat]].
    destruct (hand g (seat_after g k)) as [|c h] eqn:Hh.
    + cbn [truthy]. erewrite bind_ok; [|apply py_mod_ok; destruct Hwf; lia].
      rewrite seat_after_succ by done.
      apply IH; [lia..|]. intros j Hj.
      destruct (decide (j = k)) as [->|]; [done | apply Hempty; lia].
    + exists (seat_after g k). split; [done|]. left.
      exists k. split_and!; [lia..|done| |done]. by rewrite Hh.
Qed.

(** [_get_next_active_player] returns the next active seat and changes
    nothing. *)
Lemma next_active_player_spec g r :
  wf g → ∃ s, _get_next_active_player g r = Ok (s, g, r) ∧ next_active g s.
Proof.
  intros Hwf. unfold _get_next_active_player. unfold bind at 1, get at 1.
  erewrite bind_ok; [|apply py_mod_ok; destruct Hwf; lia].
  replace ((current_player g + 1) `mod` num_players g) with (seat_after g 0)
    by (unfold seat_after; f_equal; lia).
  apply scan_active_spec; [done|lia|destruct Hwf; lia|lia].
Qed.

Lemma next_active_range g s : wf g → next_active g s → 0 ≤ s < num_players g.
Proof.
  intros Hwf [(k & _ & -> & _)|[_ ->]]; by apply seat_after_range.
Qed.

(** The next active seat is unique. *)
Lemma next_active_unique g s1 s2 : next_active g s1 → next_active g s2 → s1 = s2.
Proof.
  intros [(k1 & Hk1 & -> & Hne1 & Hlt1)|[Hall1 ->]]
         [(k2 & Hk2 & -> & Hne2 & Hlt2)|[Hall2 ->]]; [|exfalso..|done].
  - destruct (Z.lt_trichotomy k1 k2) as [?|[->|?]]; [|done|].
    + destruct Hne1. apply Hlt2. lia.
    + destruct Hne2. apply Hlt1. lia.
  - apply Hne1. unfold hand. destruct (players g !! _) eqn:Hl; [|done].
    by eapply (Forall_lookup_1 _ _ _ _ Hall2) in Hl.
  - apply Hne2. unfold hand. destruct (players g !! _) eqn:Hl; [|done].
    by eapply (Forall_lookup_1 _ _ _ _ Hall1) in Hl.
Qed.

Lemma next_turn_spec g r :
  wf g →
  ∃ s, next_turn g r = Ok (tt, set_current_player s g, r) ∧ next_active g s.
Proof.
  intros Hwf. destruct (next_active_player_spec g r Hwf) as (s & Hs & Hna).
  exists s. split; [|done]. unfold next_turn. by erewrite bind_ok.
Qed.

Lemma wf_set_players g f :
  (∀ l, length (f l) = length l) → wf g → wf (set_players f g).
Proof. intros Hf [Hlen Hn]. split; [|done]. simpl. by rewrite Hf. Qed.

Lemma hand_insert g i h : wf g → 0 ≤ i < num_players g →
  hand (set_players <[Z.to_nat i := h]> g) i = h.
Proof.
  intros [Hlen _] Hi. unfold hand. simpl.
  by rewrite list_lookup_insert_eq by lia.
Qed.

Lemma hand_append_ok g r i c :
  wf g → 0 ≤ i < num_players g →
  hand_append i c g r = Ok (tt, set_players <[Z.to_nat i := hand g i ++ [c]]> g, r).
Proof.
  intros Hwf Hi. unfold hand_append, bind, get.
  rewrite py_index_in_range by (destruct Hwf; lia).
  by rewrite (wf_seat g i).
Qed.

Lemma hand_pop_ok g r i j c :
  wf g → 0 ≤ i < num_players g → 0 ≤ j → hand g i !! Z.to_nat j = Some c →
  hand_pop i j g r =
    Ok (c, set_players <[Z.to_nat i := delete (Z.to_nat j) (hand g i)]> g, r).
Proof.
  intros Hwf Hi Hj Hc. unfold hand_pop, bind, get.
  rewrite py_index_in_range by (destruct Hwf; lia).
  rewrite (wf_seat g i) by done.
  rewrite py_index_in_range by (apply lookup_lt_Some in Hc; lia).
  by rewrite Hc.
Qed.

Lemma draw_three_cons n g r np acc c rest :
  wf g → 0 ≤ np < num_players g → draw_pile g = c :: rest →
  draw_three (S n) np acc g r =
    draw_three n np (acc + 1)
      (set_players <[Z.to_nat np := hand g np ++ [c]]> (set_draw_pile (λ _, rest) g)) r.
Proof.
  intros Hwf Hnp Hd. cbn [draw_three]. unfold bind at 1, get at 1.
  rewrite Hd. cbn [truthy negb]. unfold bind at 1, ret at 1.
  unfold bind at 1, get at 1. rewrite Hd.
  unfold bind at 1, modify at 1.
  by erewrite bind_ok; [|by apply hand_append_ok].
Qed.

Lemma draw_three_refill n g r np acc g0 r0 :
  draw_pile g = [] → _refresh_draw_pile g r = Ok (tt, g0, r0) →
  draw_three (S n) np acc g r =
    match draw_pile g0 with
    | [] => Ok (acc, g0, r0)
    | _ => draw_three (S n) np acc g0 r0
    end.
Proof.
  intros Hd Hre. cbn [draw_three]. unfold bind at 1, get at 1.
  rewrite Hd. cbn [truthy negb]. erewrite bind_ok; [|done].
  unfold bind at 1, get at 1.
  destruct (draw_pile g0) as [|c rest] eqn:Hd0; [done|].
  unfold bind at 3, get at 1. rewrite Hd0. cbn [truthy negb].
  unfold bind at 3, ret at 1. unfold bind at 3, get at 1. by rewrite Hd0.
Qed.

(** The penalty loop: it never raises, deals [drawn] to seat [np] only,
    and keeps the active card.  With a shuffle that reorders, [drawn] has
    [min n (available g)] cards and no card is lost. *)
Lemma draw_three_spec n g r np acc :
  wf g → 0 ≤ np < num_players g →
  ∃ g' r' drawn,
    draw_three n np acc g r = Ok (acc + Z.of_nat (length drawn), g', r') ∧
    wf g' ∧ num_players g' = num_players g ∧
    current_player g' = current_player g ∧
    players g' = <[Z.to_nat np := hand g np ++ drawn]> (players g) ∧
    active_card g' = active_card g ∧
    (permutes Rng →
       length drawn = (n `min` available g)%nat ∧
       drawn ++ draw_pile g' ++ discard_pile g' ≡ₚ draw_pile g ++ discard_pile g).
Proof.
  revert g r acc. induction n as [|n IH]; intros g r acc Hwf Hnp.
  { exists g, r, []. cbn [draw_three length Z.of_nat app]. unfold ret.
    rewrite Z.add_0_r, app_nil_r, list_insert_id by by apply wf_seat.
    by split_and!. }
  assert (∀ g1 r1 c rest,
    wf g1 → num_players g1 = num_players g → current_player g1 = current_player g →
    players g1 = players g → active_card g1 = active_card g →
    draw_pile g1 = c :: rest →
    (permutes Rng →
      draw_pile g1 ++ discard_pile g1 ≡ₚ draw_pile g ++ discard_pile g ∧
      available g1 = available g) →
    ∃ g' r' drawn,
      draw_three (S n) np acc g1 r1 = Ok (acc + Z.of_nat (length drawn), g', r') ∧
      wf g' ∧ num_players g' = num_players g ∧
      current_player g' = current_player g ∧
      players g' = <[Z.to_nat np := hand g np ++ drawn]> (players g) ∧
      active_card g' = active_card g ∧
      (permutes Rng →
         length drawn = (S n `min` available g)%nat ∧
         drawn ++ draw_pile g' ++ discard_pile g' ≡ₚ draw_pile g ++ discard_pile g))
    as Hstep.
  { intros g1 r1 c rest Hwf1 Hn1 Hc1 Hp1 Ha1 Hd1 Hperm1.
    rewrite (draw_three_cons _ _ _ _ _ c rest) by (done || lia).
    set (g2 := set_players _ _).
    assert (wf g2) as Hwf2.
    { apply wf_set_players; [intros; by rewrite length_insert|apply Hwf1]. }
    destruct (IH g2 r1 (acc + 1) Hwf2 ltac:(simpl; lia))
      as (g' & r' & drawn & Hrun & Hwf' & Hn' & Hc' & Hp' & Ha' & Hperm').
    exists g', r', (c :: drawn). split_and!; try done.
    - rewrite Hrun. do 3 f_equal. simpl length. lia.
    - by rewrite Hn'.
    - by rewrite Hc'.
    - rewrite Hp'. unfold g2 at 2. simpl players.
      rewrite list_insert_insert_eq. f_equal; [|exact Hp1].
      unfold g2. rewrite hand_insert; [|exact Hwf1|simpl; lia].
      unfold hand. rewrite Hp1. by rewrite <-app_assoc.
    - by rewrite Ha'.
    - intros HP. destruct (Hperm' HP) as [Hlen' Hpm'].
      destruct (Hperm1 HP) as [Hpm1 Hav1]. split.
      + simpl length. rewrite Hlen', <-Hav1. unfold available, g2. simpl.
        rewrite Hd1. simpl. lia.
      + rewrite <-Hpm1, Hd1. simpl. f_equiv. rewrite Hpm'. reflexivity. }
  destruct (draw_pile g) as [|c rest] eqn:Hd.
  2:{ apply (Hstep g r c rest); try done. intros _. by rewrite Hd. }
  destruct (decide (length (discard_pile g) ≤ 1)%nat) as [Hlen|Hlen].
  { exists g, r, []. rewrite (draw_three_refill _ _ _ _ _ g r) by (done || by apply refresh_small).
    rewrite Hd. cbn [length Z.of_nat app]. rewrite Z.add_0_r, app_nil_r, list_insert_id by by apply wf_seat.
    split_and!; try done. intros _. unfold available. rewrite Hd.
    split; [cbn [length]; lia | done]. }
  destruct (exists_last (l := discard_pile g)) as (init & top & Hdis).
  { intros Hdis. rewrite Hdis in Hlen. simpl in Hlen. lia. }
  assert (init ≠ []) as Hinit.
  { intros ->. rewrite Hdis in Hlen. simpl in Hlen. lia. }
  erewrite draw_three_refill; [|done|by eapply refresh_big].
  set (g0 := set_discard_pile _ _).
  destruct (draw_pile g0) as [|c rest] eqn:Hd0.
  { exists g0, (random_shuffle init r).2, []. cbn [length Z.of_nat app].
    rewrite Z.add_0_r, app_nil_r, list_insert_id by by apply wf_seat.
    split_and!; try done.
    - unfold active_card. simpl. by rewrite Hdis, last_snoc.
    - intros HP. exfalso. apply Hinit. apply Permutation_nil_r.
      rewrite <-(HP init r). simpl in Hd0. by rewrite Hd0. }
  apply (Hstep g0 _ c rest); try done.
  - unfold active_card. simpl. by rewrite Hdis, last_snoc.
  - intros HP. simpl in Hd0. unfold available. cbn [draw_pile discard_pile g0 set_discard_pile set_draw_pile].
    rewrite Hd, Hdis, length_app, (HP init r). cbn [length app]. split; [done | lia].
Qed.

(** The guard of [play_card]; the conjunction short-circuits. *)
Lemma in_range_ok g r player_index card_index :
  wf g →
  (if bool_decide (0 ≤ player_index < num_players g) then
     hand <- getitem (players g) player_index ;;
     ret (bool_decide (0 ≤ card_index < Z.of_nat (length hand)))
   else ret false) g r =
  Ok (bool_decide (0 ≤ player_index < num_players g ∧
                   0 ≤ card_index < Z.of_nat (length (hand g player_index))), g, r).
Proof.
  intros Hwf. case_bool_decide as Hp.
  - erewrite bind_ok; [|apply getitem_in_range; [lia | by apply wf_seat]].
    unfold ret. do 3 f_equal. apply bool_decide_ext. tauto.
  - unfold ret. by rewrite bool_decide_eq_false_2 by tauto.
Qed.

Lemma play_card_out_of_range g r player_index card_index :
  wf g →
  ¬ (0 ≤ player_index < num_players g ∧
     0 ≤ card_index < Z.of_nat (length (hand g player_index))) →
  play_card player_index card_index g r = Ok (false, g, r).
Proof.
  intros Hwf Hout. unfold play_card. unfold bind at 1, get at 1.
  erewrite bind_ok; [|by apply in_range_ok].
  by rewrite bool_decide_eq_false_2.
Qed.

Lemma play_card_in_range g r player_index card_index card :
  wf g → 0 ≤ player_index < num_players g → 0 ≤ card_index →
  hand g player_index !! Z.to_nat card_index = Some card →
  play_card player_index card_index g r =
    if playable card (active_card g)
    then resolve card (laid g player_index card_index card) r
    else Ok (false, g, r).
Proof.
  intros Hwf Hp Hc Hcard. unfold play_card. unfold bind at 1, get at 1.
  erewrite bind_ok; [|by apply in_range_ok].
  rewrite bool_decide_eq_true_2 by (apply lookup_lt_Some in Hcard; lia).
  cbn [negb].
  erewrite bind_ok; [|apply getitem_in_range; [lia | by apply wf_seat]].
  erewrite bind_ok; [|by apply getitem_in_range].
  fold (active_card g). destruct (playable card (active_card g)); [|done].
  cbn [negb].
  erewrite bind_ok; [|by apply hand_pop_ok].
  unfold bind at 1, modify at 1. reflexivity.
Qed.

Lemma maybe_refresh_frame g r (b : bool) :
  ∃ g' r',
    (if negb (truthy (draw_pile g)) && b then _refresh_draw_pile else ret tt) g r
      = Ok (tt, g', r') ∧
    players g' = players g ∧ num_players g' = num_players g ∧
    current_player g' = current_player g ∧ active_card g' = active_card g ∧
    (permutes Rng →
     draw_pile g' ++ discard_pile g' ≡ₚ draw_pile g ++ discard_pile g).
Proof.
  destruct (draw_pile g) as [|c rest] eqn:Hd; [destruct b|]; cbn [truthy negb andb].
  - destruct (refresh_frame g r) as (g' & r' & -> & ? & ? & ? & ? & HP).
    exists g', r'. split_and!; try done. intros Hperm. rewrite HP by done.
    by rewrite Hd.
  - exists g, r. split_and!; try done. by rewrite Hd.
  - exists g, r. split_and!; try done. by rewrite Hd.
Qed.

(** What a successful play does after the card is laid on [g1]. *)
Lemma resolve_spec g1 r card :
  wf g1 →
  ∃ g2 r2 s,
    resolve card g1 r = Ok (true, set_current_player s g2, r2) ∧
    wf g2 ∧ next_active g2 s ∧ num_players g2 = num_players g1 ∧
    active_card g2 = active_card g1 ∧
    if bool_decide (card.value card = 7) then
      ∃ next_player drawn,
        next_active g1 next_player ∧ current_player g2 = next_player ∧
        players g2 = <[Z.to_nat next_player := hand g1 next_player ++ drawn]> (players g1) ∧
        (permutes Rng →
           length drawn = (3 `min` available g1)%nat ∧
           drawn ++ draw_pile g2 ++ discard_pile g2 ≡ₚ draw_pile g1 ++ discard_pile g1)
    else
      players g2 = players g1 ∧
      (permutes Rng →
         draw_pile g2 ++ discard_pile g2 ≡ₚ draw_pile g1 ++ discard_pile g1) ∧
      if bool_decide (card.value card = 14)
      then next_active g1 (current_player g2)
      else current_player g2 = current_player g1.
Proof.
  intros Hwf. unfold resolve.
  destruct (bool_decide (card.value card = 7)) eqn:H7.
  - destruct (next_active_player_spec g1 r Hwf) as (np & Hnp & Hna).
    pose proof (next_active_range g1 np Hwf Hna) as Hrange.
    destruct (draw_three_spec 3 g1 r np 0 Hwf Hrange)
      as (g' & r' & drawn & Hrun & Hwf' & Hn' & Hc' & Hp' & Ha' & Hperm').
    set (g2 := set_current_player np g').
    assert (wf g2) as Hwf2 by apply Hwf'.
    destruct (next_turn_spec g2 r' Hwf2) as (s & Hs & Hnas).
    exists g2, r', s. split_and!; try done.
    + erewrite bind_ok.
      2:{ erewrite bind_ok; [|done]. erewrite bind_ok; [|done]. reflexivity. }
      unfold bind at 1, get at 1. cbn [negb andb]. rewrite andb_false_r.
      unfold bind at 1, ret at 1. by erewrite bind_ok.
    + exists np, drawn. by split_and!.
  - destruct (bool_decide (card.value card = 14)) eqn:H14.
    + destruct (next_active_player_spec g1 r Hwf) as (np & Hnp & Hna).
      set (g1' := set_current_player np g1).
      destruct (maybe_refresh_frame g1' r true) as (g2 & r2 & Hre & Hp2 & Hn2 & Hc2 & Ha2 & HP2).
      assert (wf g2) as Hwf2.
      { destruct Hwf. split; [by rewrite Hp2, Hn2 | by rewrite Hn2]. }
      destruct (next_turn_spec g2 r2 Hwf2) as (s & Hs & Hnas).
      exists g2, r2, s. split_and!; try done.
      * erewrite bind_ok; [|erewrite bind_ok; [|done]; reflexivity].
        unfold bind at 1, get at 1. cbn [negb]. fold g1'.
        erewrite bind_ok; [|exact Hre]. by erewrite bind_ok.
      * by rewrite Hc2.
    + destruct (maybe_refresh_frame g1 r true) as (g2 & r2 & Hre & Hp2 & Hn2 & Hc2 & Ha2 & HP2).
      assert (wf g2) as Hwf2.
      { destruct Hwf. split; [by rewrite Hp2, Hn2 | by rewrite Hn2]. }
      destruct (next_turn_spec g2 r2 Hwf2) as (s & Hs & Hnas).
      exists g2, r2, s. split_and!; try done.
      unfold bind at 1, ret at 1. unfold bind at 1, get at 1. cbn [negb].
      erewrite bind_ok; [|exact Hre]. by erewrite bind_ok.
Qed.

Lemma wf_laid g player_index card_index card :
  wf g → wf (laid g player_index card_index card).
Proof.
  intros Hwf. unfold laid.
  apply (wf_set_players (set_discard_pile _ g)); [|exact Hwf].
  intros. by rewrite length_insert.
Qed.

Lemma playable_spec card top :
  playable card (Some top) = true ↔
  card.suit card = card.suit top ∨ card.value card = card.value top ∨
  card.value card = 12.
Proof.
  unfold playable. rewrite !orb_true_iff, !bool_decide_eq_true. tauto.
Qed.


(** A seat that is its own next active seat is the only one with cards. *)
Lemma next_active_self g :
  wf g → 0 ≤ current_player g < num_players g →
  next_active g (current_player g) →
  ∀ t, 0 ≤ t < num_players g → t ≠ current_player g → hand g t = [].
Proof.
  intros Hwf Hc Hna t Ht Hne.
  assert (seat_after g (num_players g - 1) = current_player g) as Hlast.
  { unfold seat_after.
    replace (current_player g + 1 + (num_players g - 1))
      with (current_player g + 1 * num_players g) by lia.
    rewrite Z_mod_plus_full. by apply Z.mod_small. }
  destruct (seat_after_cover g t Hwf Ht) as (j & Hj & <-).
  assert (j < num_players g - 1) as Hjlt.
  { destruct (decide (j = num_players g - 1)) as [->|]; [by destruct Hne | lia]. }
  destruct Hna as [(k & Hk & Hkc & _ & Hlt)|[Hall _]].
  - apply Hlt. split; [lia|].
    destruct (decide (k = num_players g - 1)) as [->|Hkne]; [done|].
    exfalso. unfold seat_after in Hkc.
    pose proof (Z.div_mod (current_player g + 1 + k) (num_players g) ltac:(lia)) as Hdm.
    rewrite <-Hkc in Hdm.
    assert ((current_player g + 1 + k) `div` num_players g = 1) as Hq by nia.
    rewrite Hq in Hdm. lia.
  - unfold hand. destruct (players g !! _) eqn:Hl; [|done].
    by eapply (Forall_lookup_1 _ _ _ _ Hall) in Hl.
Qed.

(** *** Conservation of cards *)

Lemma concat_alter_perm (f : list Card → list Card) (ls : list (list Card)) i l :
  ls !! i = Some l → concat (alter f i ls) ++ l ≡ₚ concat ls ++ f l.
Proof.
  revert i. induction ls as [|l0 ls IH]; intros [|i] Hl; simplify_eq/=.
  - rewrite (Permutation_app_comm (f l ++ concat ls) l).
    rewrite (Permutation_app_comm (f l) (concat ls)). by rewrite app_assoc.
  - rewrite <-!app_assoc. f_equiv. by apply IH.
Qed.

Lemma concat_insert_perm (ls : list (list Card)) i l l' :
  ls !! i = Some l → concat (<[i := l']> ls) ++ l ≡ₚ concat ls ++ l'.
Proof.
  intros Hl. rewrite list_insert_alter.
  by apply (concat_alter_perm (λ _, l')).
Qed.

(** Appending [extra] to one hand adds [extra] to the cards in hands. *)
Lemma concat_insert_app (ls : list (list Card)) i l extra :
  ls !! i = Some l → concat (<[i := l ++ extra]> ls) ≡ₚ concat ls ++ extra.
Proof.
  intros Hl. apply (Permutation_app_inv_r l).
  rewrite (concat_insert_perm ls i l) by done.
  rewrite <-!app_assoc. f_equiv. apply Permutation_app_comm.
Qed.

Lemma all_cards_laid g player_index card_index card :
  wf g → 0 ≤ player_index < num_players g →
  hand g player_index !! Z.to_nat card_index = Some card →
  all_cards (laid g player_index card_index card) ≡ₚ all_cards g.
Proof.
  intros Hwf Hp Hcard. unfold all_cards, laid. simpl.
  set (hands' := <[Z.to_nat player_index := _]> (players g)).
  assert (concat (players g) ≡ₚ concat hands' ++ [card]) as ->.
  { apply (Permutation_app_inv_r (delete (Z.to_nat card_index) (hand g player_index))).
    unfold hands'. rewrite <-(concat_insert_perm (players g) _ (hand g player_index))
      by by apply wf_seat.
    rewrite <-app_assoc. f_equiv. by apply delete_Permutation. }
  rewrite <-app_assoc. f_equiv.
  rewrite (app_assoc (draw_pile g)). apply Permutation_app_comm.
Qed.

Lemma resolve_conserves g1 r card :
  permutes Rng → wf g1 →
  ∃ g' r', resolve card g1 r = Ok (true, g', r') ∧ wf g' ∧
           all_cards g' ≡ₚ all_cards g1.
Proof.
  intros HP Hwf.
  destruct (resolve_spec g1 r card) as (g2 & r2 & s & Hrun & Hwf2 & _ & _ & _ & Hrank);
    [done|].
  exists (set_current_player s g2), r2. split_and!; try done.
  change (all_cards (set_current_player s g2)) with (all_cards g2).
  unfold all_cards. destruct (bool_decide (card.value card = 7)).
  - destruct Hrank as (np & drawn & Hna & _ & -> & Hperm).
    destruct (Hperm HP) as [_ Hpm].
    rewrite concat_insert_app by (apply wf_seat; [done | by eapply next_active_range]).
    by rewrite <-app_assoc, Hpm.
  - destruct Hrank as (-> & Hperm & _). by rewrite (Hperm HP).
Qed.

Lemma play_card_conserves g r player_index card_index :
  permutes Rng → wf g →
  ∃ (b : bool) g' r',
    play_card player_index card_index g r = Ok (b, g', r') ∧ wf g' ∧
    all_cards g' ≡ₚ all_cards g.
Proof.
  intros HP Hwf.
  destruct (decide (0 ≤ player_index < num_players g ∧
                    0 ≤ card_index < Z.of_nat (length (hand g player_index))))
    as [[Hp Hc]|Hout].
  2:{ exists false, g, r. by rewrite play_card_out_of_range. }
  destruct (lookup_lt_is_Some_2 (hand g player_index) (Z.to_nat card_index))
    as [card Hcard]; [lia|].
  rewrite (play_card_in_range g r _ _ card) by (done || lia).
  destruct (playable card (active_card g)); [|by exists false, g, r].
  destruct (resolve_conserves (laid g player_index card_index card) r card HP)
    as (g' & r' & -> & Hwf' & Hall); [by apply wf_laid|].
  exists true, g', r'. split_and!; try done.
  by rewrite Hall, all_cards_laid.
Qed.

(** [draw_card] for a seat in range: the refill, then the draw. *)
Lemma draw_card_run g r player_index :
  permutes Rng → wf g → 0 ≤ player_index < num_players g →
  ∃ g0 r0,
    (if truthy (draw_pile g) then Ok (tt, g, r) else _refresh_draw_pile g r)
      = Ok (tt, g0, r0) ∧
    players g0 = players g ∧ current_player g0 = current_player g ∧
    match draw_pile g0 with
    | [] => g0 = g ∧ r0 = r ∧ draw_card player_index g r = Ok (false, g, r)
    | card :: rest =>
        draw_card player_index g r =
          Ok (true,
              set_players <[Z.to_nat player_index := hand g player_index ++ [card]]>
                (set_draw_pile (λ _, rest) g0),
              r0)
    end.
Proof.
  intros HP Hwf Hp.
  assert (∀ g0 r0 card rest,
    wf g0 → players g0 = players g → num_players g0 = num_players g →
    draw_pile g0 = card :: rest →
    ((g' <- get ;;
      match draw_pile g' with
      | c :: rest =>
          modify (set_draw_pile (λ _, rest)) ;;; hand_append player_index c ;;; ret true
      | [] => ret false
      end) : M Rng Game bool) g0 r0 =
    Ok (true,
        set_players <[Z.to_nat player_index := hand g player_index ++ [card]]>
          (set_draw_pile (λ _, rest) g0), r0)) as Hpop.
  { intros g0 r0 card rest Hwf0 Hp0 Hn0 Hd0. rewrite bind_get, Hd0, bind_modify.
    erewrite bind_ok; [|apply hand_append_ok; [exact Hwf0 | simpl; lia]].
    unfold ret, hand. simpl. by rewrite Hp0. }
  unfold draw_card. rewrite bind_get.
  rewrite bool_decide_eq_true_2 by done. cbn [negb].
  destruct (draw_pile g) as [|card rest] eqn:Hd; cbn [truthy negb].
  2:{ exists g, r. rewrite Hd, bind_ret.
      split_and!; try done. by apply Hpop. }
  destruct (decide (length (discard_pile g) ≤ 1)%nat) as [Hlen|Hlen].
  { exists g, r. rewrite refresh_small by done. rewrite Hd.
    split_and!; try done.
    erewrite bind_ok; [|by apply refresh_small].
    by rewrite bind_get, Hd. }
  destruct (exists_last (l := discard_pile g)) as (init & top & Hdis).
  { intros Hdis. rewrite Hdis in Hlen. simpl in Hlen. lia. }
  assert (init ≠ []) as Hinit.
  { intros ->. rewrite Hdis in Hlen. simpl in Hlen. lia. }
  eexists _, _. split; [by eapply refresh_big|].
  cbn [players current_player draw_pile set_discard_pile set_draw_pile].
  split_and!; try done.
  destruct (random_shuffle init r).1 as [|card rest] eqn:Hsh.
  { destruct Hinit. apply Permutation_nil_r. by rewrite <-(HP init r), Hsh. }
  erewrite bind_ok; [|by eapply refresh_big].
  by rewrite Hpop with (card := card) (rest := rest).
Qed.

(** The three cases of [draw_card] for a seat in range. *)
Lemma draw_card_cases g (r : Rng) player_index :
  permutes Rng → wf g → 0 ≤ player_index < num_players g →
  (∀ card rest,
     draw_pile g = card :: rest →
     draw_card player_index g r =
       Ok (true,
           set_players <[Z.to_nat player_index := hand g player_index ++ [card]]>
             (set_draw_pile (λ _, rest) g),
           r)) ∧
  (∀ init top,
     draw_pile g = [] → discard_pile g = init ++ [top] → init ≠ [] →
     ∃ card rest,
       (random_shuffle init r).1 = card :: rest ∧ card :: rest ≡ₚ init ∧
       draw_card player_index g r =
         Ok (true,
             set_players <[Z.to_nat player_index := hand g player_index ++ [card]]>
               (set_draw_pile (λ _, rest) (set_discard_pile (λ _, [top]) g)),
             (random_shuffle init r).2)) ∧
  (draw_pile g = [] → (length (discard_pile g) ≤ 1)%nat →
   draw_card player_index g r = Ok (false, g, r)) ∧
  ∃ (b : bool) g' r',
    draw_card player_index g r = Ok (b, g', r') ∧
    current_player g' = current_player g ∧
    (b = false → g' = g ∧ r' = r).
Proof.
  intros HP Hwf Hp.
  destruct (draw_card_run g r player_index HP Hwf Hp) as (g0 & r0 & Hre & Hpl & Hcur & Hrun).
  split_and!.
  - intros card rest Hstock. rewrite Hstock in Hre. cbn [truthy] in Hre.
    injection Hre as Hg0 Hr0. subst g0 r0. by rewrite Hstock in Hrun.
  - intros init top Hstock Hpile Hinit. rewrite Hstock in Hre. cbn [truthy] in Hre.
    rewrite (refresh_big g r init top Hpile Hinit) in Hre. injection Hre as Hg0 Hr0. subst g0 r0.
    cbn [draw_pile set_discard_pile set_draw_pile] in Hrun.
    destruct (random_shuffle init r).1 as [|card rest] eqn:Hsh.
    { destruct Hinit. apply Permutation_nil_r. by rewrite <- (HP init r), Hsh. }
    exists card, rest. split; [done|]. split; [by rewrite <- Hsh|]. exact Hrun.
  - intros Hstock Hpile. rewrite Hstock in Hre. cbn [truthy] in Hre.
    rewrite (refresh_small g r Hpile) in Hre. injection Hre as Hg0 Hr0. subst g0 r0.
    rewrite Hstock in Hrun. by destruct Hrun as (_ & _ & Hrun).
  - destruct (draw_pile g0) as [|card rest] eqn:Hstock.
    + destruct Hrun as (-> & -> & Hrun). by exists false, g, r.
    + eexists true, _, _. split; [exact Hrun|]. split; [exact Hcur|done].
Qed.

Lemma draw_card_out_of_range g r player_index :
  ¬ 0 ≤ player_index < num_players g → draw_card player_index g r = Ok (false, g, r).
Proof.
  intros Hout. unfold draw_card. rewrite bind_get.
  by rewrite bool_decide_eq_false_2.
Qed.

Lemma refresh_conserves g r :
  permutes Rng → draw_pile g = [] →
  ∃ g' r', _refresh_draw_pile g r = Ok (tt, g', r') ∧ (wf g → wf g') ∧
           all_cards g' ≡ₚ all_cards g.
Proof.
  intros HP Hd.
  destruct (refresh_frame g r) as (g' & r' & Hrun & Hp & Hn & _ & _ & Hperm).
  exists g', r'. split_and!; try done.
  - intros [Hlen Hge]. split; [by rewrite Hp, Hn | by rewrite Hn].
  - unfold all_cards. by rewrite Hp, Hperm.
Qed.

Lemma draw_card_conserves g r player_index :
  permutes Rng → wf g →
  ∃ (b : bool) g' r',
    draw_card player_index g r = Ok (b, g', r') ∧ wf g' ∧
    all_cards g' ≡ₚ all_cards g.
Proof.
  intros HP Hwf.
  destruct (decide (0 ≤ player_index < num_players g)) as [Hp|Hout].
  2:{ exists false, g, r. by rewrite draw_card_out_of_range. }
  destruct (draw_card_run g r player_index HP Hwf Hp)
    as (g0 & r0 & Hre & Hp0 & Hc0 & Hrun).
  assert (wf g0 ∧ all_cards g0 ≡ₚ all_cards g) as [Hwf0 Hall0].
  { destruct (draw_pile g) as [|c0 rest0] eqn:Hd; cbn [truthy] in Hre.
    - destruct (refresh_conserves g r HP Hd) as (g1 & r1 & Hre1 & Hwf1 & Hall1).
      rewrite Hre1 in Hre. injection Hre as <- <-. auto.
    - by injection Hre as <- <-. }
  destruct (draw_pile g0) as [|card rest] eqn:Hd0.
  { destruct Hrun as (-> & -> & ->). by exists false, g, r. }
  eexists true, _, r0. split_and!; [exact Hrun| |].
  - apply wf_set_players; [intros; by rewrite length_insert | exact Hwf0].
  - rewrite <-Hall0. unfold all_cards. simpl.
    unfold hand. rewrite <-Hp0.
    rewrite concat_insert_app.
    2:{ rewrite Hp0. by apply wf_seat. }
    rewrite Hd0, <-app_assoc. f_equiv. simpl. done.
Qed.

(** *** Dealing *)

Lemma deal_one_conserves g k :
  (k < length (players g))%nat →
  all_cards (deal_one g k) ≡ₚ all_cards g ∧
  length (players (deal_one g k)) = length (players g) ∧
  num_players (deal_one g k) = num_players g.
Proof.
  intros Hk. unfold deal_one.
  destruct (draw_pile g) as [|c rest] eqn:Hd; [done|].
  simpl. rewrite length_alter. split_and!; try done.
  destruct (lookup_lt_is_Some_2 (players g) k Hk) as [h Hh].
  unfold all_cards. simpl. rewrite Hd.
  assert (concat (alter (λ player, player ++ [c]) k (players g))
            ≡ₚ concat (players g) ++ [c]) as ->.
  { apply (Permutation_app_inv_r h).
    rewrite (concat_alter_perm _ _ _ _ Hh), <-!app_assoc. f_equiv.
    apply Permutation_app_comm. }
  by rewrite <-app_assoc.
Qed.

Lemma deal_seats_conserves g ks :
  Forall (λ k, k < length (players g))%nat ks →
  all_cards (foldl deal_one g ks) ≡ₚ all_cards g ∧
  length (players (foldl deal_one g ks)) = length (players g) ∧
  num_players (foldl deal_one g ks) = num_players g.
Proof.
  revert g. induction ks as [|k ks IH]; intros g Hks; [done|].
  apply Forall_cons in Hks as [Hk Hks].
  destruct (deal_one_conserves g k Hk) as (Hall & Hlen & Hn).
  destruct (IH (deal_one g k)) as (Hall' & Hlen' & Hn').
  { by rewrite Hlen. }
  simpl. split_and!; congruence || by rewrite Hall'.
Qed.

Lemma deal_round_conserves g :
  all_cards (deal_round g) ≡ₚ all_cards g ∧
  length (players (deal_round g)) = length (players g) ∧
  num_players (deal_round g) = num_players g.
Proof.
  apply deal_seats_conserves. apply Forall_seq. lia.
Qed.

Lemma deal_cards_conserves g r :
  ∃ g', deal_cards g r = Ok (tt, g', r) ∧ (wf g → wf g') ∧
        all_cards g' ≡ₚ all_cards g.
Proof.
  unfold deal_cards. rewrite bind_modify, bind_get.
  set (g5 := foldl _ g _).
  assert (all_cards g5 ≡ₚ all_cards g ∧
          length (players g5) = length (players g) ∧
          num_players g5 = num_players g) as (Hall & Hlen & Hn).
  { unfold g5. clear g5. generalize (seq 0 5). intros rounds. revert g.
    induction rounds as [|? rounds IH]; intros g; [done|]. simpl.
    destruct (deal_round_conserves g) as (Hall & Hlen & Hn).
    destruct (IH (deal_round g)) as (Hall' & Hlen' & Hn').
    split_and!; congruence || by rewrite Hall'. }
  assert (wf g → wf g5) as Hwf5.
  { intros [??]. split; congruence. }
  clearbody g5.
  destruct (draw_pile g5) as [|c rest] eqn:Hd.
  { exists g5. by split_and!. }
  eexists. rewrite bind_modify. split_and!; [reflexivity|exact Hwf5|].
  rewrite <-Hall. unfold all_cards. simpl. rewrite Hd.
  f_equiv. by rewrite app_assoc, <-Permutation_cons_append.
Qed.

Lemma create_deck_fresh g r :
  _card_cache g = [] →
  ∃ g', create_deck g r = Ok (tt, g', (random_shuffle deck r).2) ∧
        players g' = players g ∧ num_players g' = num_players g ∧
        discard_pile g' = discard_pile g ∧ current_player g' = current_player g ∧
        draw_pile g' = (random_shuffle deck r).1.
Proof.
  intros Hcache. unfold create_deck. rewrite bind_get, Hcache, bind_modify.
  unfold bind, shuffle.
  change ((foldl _ [] suits).*2) with deck.
  destruct (random_shuffle deck r) as [pile r'].
  by eexists.
Qed.

Lemma start_conserves (n : Z) r :
  permutes Rng →
  ∃ g r', (create_deck ;;; deal_cards) (__init__ n) r = Ok (tt, g, r') ∧ wf g ∧
          all_cards g ≡ₚ deck.
Proof.
  intros HP.
  destruct (create_deck_fresh (__init__ n) r) as (g1 & Hrun & Hp & Hn & Hx & Hc & Hd);
    [done|].
  destruct (deal_cards_conserves g1 (random_shuffle deck r).2) as (g & Hdeal & Hwf & Hall).
  exists g, (random_shuffle deck r).2. split_and!.
  - erewrite bind_ok; [exact Hdeal | exact Hrun].
  - apply Hwf. split; rewrite ?Hp, ?Hn; cbn [__init__ players num_players];
      rewrite ?length_replicate; lia.
  - rewrite Hall. unfold all_cards. rewrite Hp, Hx, Hd.
    cbn [__init__ players discard_pile].
    rewrite app_nil_r, (HP deck r).
    assert (∀ k, concat (replicate k (@nil Card)) = []) as ->; [|done].
    intros k. by induction k.
Qed.

(** Two seats: five cards each, one card turned up, 21 left in stock. *)
Lemma start_of_two r :
  permutes Rng →
  ∃ g r' h0 h1 top,
    (create_deck ;;; deal_cards) (__init__ 2) r = Ok (tt, g, r') ∧
    players g = [h0; h1] ∧ length h0 = 5%nat ∧ length h1 = 5%nat ∧
    discard_pile g = [top] ∧ length (draw_pile g) = 21%nat.
Proof.
  intros HP.
  destruct (create_deck_fresh (__init__ 2) r) as (g1 & Hrun & Hp & Hn & Hx & Hc & Hd);
    [done|].
  pose proof (Permutation_length (HP deck r)) as Hlen.
  rewrite <-Hd in Hlen. change (length deck) with 32%nat in Hlen.
  destruct g1 as [n1 ps dp dc cp cache].
  cbn [__init__ players num_players draw_pile discard_pile current_player] in *.
  subst ps dc.
  do 32 (destruct dp as [|? dp]; [discriminate Hlen|]).
  destruct dp; [|discriminate Hlen].
  erewrite bind_ok; [|exact Hrun].
  unfold deal_cards. rewrite bind_modify, bind_get. cbn.
  eexists _, _, _, _, _. split; [reflexivity|]. by split_and!.
Qed.

(** While some seat holds a card, the next active seat holds one. *)
Lemma next_active_nonempty g s :
  next_active g s → Exists (λ h, h ≠ []) (players g) → hand g s ≠ [].
Proof.
  intros [(k & _ & _ & Hne & _)|[Hall _]] Hex; [done|].
  apply Exists_exists in Hex as (h & Hin & Hh).
  destruct Hh. by apply (proj1 (Forall_forall _ _) Hall h Hin).
Qed.

End game_properties.

(** ** The claims about the rules engine *)

(** C1. A card addressed in a seat's hand is played if and only if it
    matches the active card in suit or in rank or has rank 12; with an
    empty discard pile every card in hand is played; [play_card] never
    raises, fails on an index out of range, and a failed call leaves the
    whole game, and the random generator, as they were. *)
Theorem play_card_legality {Rng : Type} `{!Random Rng} (g : Game) (r : Rng)
    (player_index card_index : Z) :
  wf g →
  (∀ card top,
     0 ≤ player_index < num_players g → 0 ≤ card_index →
     hand g player_index !! Z.to_nat card_index = Some card →
     active_card g = Some top →
     (∃ g' r', play_card player_index card_index g r = Ok (true, g', r')) ↔
     (card.suit card = card.suit top ∨ card.value card = card.value top ∨
      card.value card = 12)) ∧
  (∀ card,
     0 ≤ player_index < num_players g → 0 ≤ card_index →
     hand g player_index !! Z.to_nat card_index = Some card →
     discard_pile g = [] →
     ∃ g' r', play_card player_index card_index g r = Ok (true, g', r')) ∧
  (¬ (0 ≤ player_index < num_players g ∧
      0 ≤ card_index < Z.of_nat (length (hand g player_index))) →
   play_card player_index card_index g r = Ok (false, g, r)) ∧
  (∃ (b : bool) g' r',
     play_card player_index card_index g r = Ok (b, g', r') ∧
     (b = false → g' = g ∧ r' = r)).
Proof.
  intros Hwf.
  assert (∀ card, 0 ≤ player_index < num_players g → 0 ≤ card_index →
            hand g player_index !! Z.to_nat card_index = Some card →
            playable card (active_card g) = true →
            ∃ g' r', play_card player_index card_index g r = Ok (true, g', r'))
    as Hplay.
  { intros card Hp Hc Hcard Hok.
    rewrite (play_card_in_range g r _ _ card), Hok by done.
    destruct (resolve_spec (laid g player_index card_index card) r card)
      as (g2 & r2 & s & -> & _); [by apply wf_laid | by eauto]. }
  split_and!.
  - intros card top Hp Hc Hcard Htop. rewrite <-playable_spec, <-Htop. split.
    + intros (g' & r' & Hrun).
      rewrite (play_card_in_range g r _ _ card) in Hrun by done.
      by destruct (playable card (active_card g)).
    + by apply Hplay.
  - intros card Hp Hc Hcard Hnil. apply (Hplay card); try done.
    unfold active_card. by rewrite Hnil.
  - by apply play_card_out_of_range.
  - destruct (decide (0 ≤ player_index < num_players g ∧
                      0 ≤ card_index < Z.of_nat (length (hand g player_index))))
      as [[Hp Hc]|Hout].
    2:{ exists false, g, r. by rewrite play_card_out_of_range. }
    destruct (lookup_lt_is_Some_2 (hand g player_index) (Z.to_nat card_index))
      as [card Hcard]; [lia|].
    rewrite (play_card_in_range g r _ _ card) by (done || lia).
    destruct (playable card (active_card g)).
    + destruct (resolve_spec (laid g player_index card_index card) r card)
        as (g2 & r2 & s & -> & _); [by apply wf_laid|].
      by exists true, (set_current_player s g2), r2.
    + by exists false, g, r.
Qed.

(** The nine of hearts goes on the nine of diamonds in the sample duel. *)
Lemma play_card_legality_witness :
  wf examples.duel ∧
  ∃ (b : bool) g' r',
    play_card 0 0 examples.duel 0%nat = Ok (b, g', r') ∧
    (b = false → g' = examples.duel ∧ r' = 0%nat).
Proof.
  split; [exact examples.duel_wf|].
  exact (proj2 (proj2 (proj2
           (play_card_legality examples.duel 0%nat 0 0 examples.duel_wf)))).
Defined.

(** C10. [Game(n)] has [max(2, n)] seats, so two when fewer are asked
    for; every hand and both piles are empty, and seat 0 holds the turn. *)
Theorem init_state (n : Z) :
  num_players (__init__ n) = Z.max 2 n ∧
  (n < 2 → num_players (__init__ n) = 2) ∧
  Z.of_nat (length (players (__init__ n))) = num_players (__init__ n) ∧
  Forall (λ h, h = []) (players (__init__ n)) ∧
  draw_pile (__init__ n) = [] ∧
  discard_pile (__init__ n) = [] ∧
  current_player (__init__ n) = 0 ∧
  wf (__init__ n).
Proof.
  unfold wf, __init__. simpl. rewrite length_replicate.
  split_and!; try done; try lia.
  apply Forall_replicate. done.
Qed.

(** C5. For a seat in range: with cards in stock [draw_card] gives the
    seat the head of the stock and touches nothing else.  With an empty
    stock it first refills: the discard pile below its top card, shuffled,
    becomes the stock, the top card stays alone on the discard pile, and
    the seat gets the head of the new stock.  With an empty stock and at
    most one discard card there is nothing to refill from: the call fails
    and nothing has changed.  The call never raises, never changes
    [current_player], and a failure never changes the game. *)
Theorem draw_card_contract {Rng : Type} `{!Random Rng} (g : Game) (r : Rng)
    (player_index : Z) :
  permutes Rng → wf g → 0 ≤ player_index < num_players g →
  (∀ card rest,
     draw_pile g = card :: rest →
     draw_card player_index g r =
       Ok (true,
           set_players <[Z.to_nat player_index := hand g player_index ++ [card]]>
             (set_draw_pile (λ _, rest) g),
           r)) ∧
  (∀ init top,
     draw_pile g = [] → discard_pile g = init ++ [top] → init ≠ [] →
     ∃ card rest,
       (random_shuffle init r).1 = card :: rest ∧ card :: rest ≡ₚ init ∧
       draw_card player_index g r =
         Ok (true,
             set_players <[Z.to_nat player_index := hand g player_index ++ [card]]>
               (set_draw_pile (λ _, rest) (set_discard_pile (λ _, [top]) g)),
             (random_shuffle init r).2)) ∧
  (draw_pile g = [] → (length (discard_pile g) ≤ 1)%nat →
   draw_card player_index g r = Ok (false, g, r)) ∧
  ∃ (b : bool) g' r',
    draw_card player_index g r = Ok (b, g', r') ∧
    current_player g' = current_player g ∧
    (b = false → g' = g ∧ r' = r).
Proof.
  exact (draw_card_cases g r player_index).
Qed.

(** With an empty stock and three discard cards, seat 1 draws after the
    refill: the two cards below the nine of diamonds are shuffled (here
    reversed) into the stock and the seat gets the first of them. *)
Lemma draw_card_contract_witness :
  draw_card 1 examples.dry 0%nat =
    Ok (true,
        set_players <[1%nat := [examples.c 8 "♦"; examples.c 11 "♣"]]>
          (set_draw_pile (λ _, [examples.c 10 "♣"])
             (set_discard_pile (λ _, [examples.c 9 "♦"]) examples.dry)),
        1%nat).
Proof.
  destruct (draw_card_contract examples.dry 0%nat 1 examples.reversing_permutes)
    as (_ & Hrefill & _).
  - split; [reflexivity | vm_compute; discriminate].
  - vm_compute. split; [discriminate | reflexivity].
  - destruct (Hrefill [examples.c 10 "♣"; examples.c 11 "♣"] (examples.c 9 "♦")
                eq_refl eq_refl ltac:(discriminate)) as (card & rest & Hsh & _ & Hrun).
    injection Hsh as <- <-. exact Hrun.
Defined.






(** C6, as the code has it. [create_deck] then [deal_cards] on a new game
    leaves exactly the 32 distinct cards of the deck in hands, stock and
    discard pile; with two seats that is five cards each, one on the discard
    pile and 21 in stock.  Every [play_card] and [draw_card], failed or not,
    and every [_refresh_draw_pile] on an empty stock keeps the same cards. *)
Theorem cards_conserved {Rng : Type} `{!Random Rng} :
  permutes Rng →
  (length deck = 32%nat ∧ NoDup deck) ∧
  (∀ n r, ∃ g r', (create_deck ;;; deal_cards) (__init__ n) r = Ok (tt, g, r') ∧
                  wf g ∧ all_cards g ≡ₚ deck) ∧
  (∀ r, ∃ g r' h0 h1 top,
     (create_deck ;;; deal_cards) (__init__ 2) r = Ok (tt, g, r') ∧
     players g = [h0; h1] ∧ length h0 = 5%nat ∧ length h1 = 5%nat ∧
     discard_pile g = [top] ∧ length (draw_pile g) = 21%nat) ∧
  (∀ g r player_index card_index,
     wf g →
     ∃ (b : bool) g' r',
       play_card player_index card_index g r = Ok (b, g', r') ∧ wf g' ∧
       all_cards g' ≡ₚ all_cards g) ∧
  (∀ g r player_index,
     wf g →
     ∃ (b : bool) g' r',
       draw_card player_index g r = Ok (b, g', r') ∧ wf g' ∧
       all_cards g' ≡ₚ all_cards g) ∧
  (∀ g r,
     draw_pile g = [] →
     ∃ g' r', _refresh_draw_pile g r = Ok (tt, g', r') ∧ (wf g → wf g') ∧
              all_cards g' ≡ₚ all_cards g).
Proof.
  intros HP. split_and!.
  - reflexivity.
  - apply (bool_decide_eq_true_1 (NoDup deck)). by vm_compute.
  - intros n r. by apply start_conserves.
  - intros r. by apply start_of_two.
  - intros g r ? ? Hwf. by apply play_card_conserves.
  - intros g r ? Hwf. by apply draw_card_conserves.
  - intros g r Hd. by apply refresh_conserves.
Qed.

(** With the reversing shuffle, the game dealt to two seats from a new
    deck holds the 32 cards of the deck. *)
Lemma cards_conserved_witness :
  ∃ g r', (create_deck ;;; deal_cards) (__init__ 2) 0%nat = Ok (tt, g, r') ∧
          wf g ∧ all_cards g ≡ₚ deck.
Proof.
  exact (proj1 (proj2 (cards_conserved (Rng := nat) examples.reversing_permutes)) 2 0%nat).
Defined.

(** C6 fails as stated, twice: a deal to two seats leaves 21 cards in
    stock, not 20; and [_refresh_draw_pile] on a stock that is not empty
    replaces it, so the ten of clubs below is lost. *)
Lemma stock_counterexample :
  match (create_deck ;;; deal_cards) (__init__ 2) 0%nat with
  | Ok (_, g, _) =>
      (length <$> players g, length (draw_pile g), length (discard_pile g))
  | Raise _ => ([], 0, 0)%nat
  end = ([5; 5], 21, 1)%nat ∧
  _refresh_draw_pile
    (examples.table [[]; []] [examples.c 10 "♣"] [examples.c 9 "♦"; examples.c 8 "♦"])
    0%nat =
  Ok (tt, examples.table [[]; []] [examples.c 9 "♦"] [examples.c 8 "♦"], 1%nat).
Proof. split; by vm_compute. Qed.

(** ** Properties of the room server *)

Import server.

Section server_properties.
Context {Rng : Type} `{!Random Rng}.
Implicit Types (g : Game) (r : Rng) (room : GameRoom.t) (s : MultiRoomServer.t).

Lemma on_game_ok {A} (m : M Rng Game A) room r g a g' r' :
  GameRoom.game room = Some g → m g r = Ok (a, g', r') →
  on_game m room r = Ok (a, GameRoom.set_game (λ _, Some g') room, r').
Proof. intros Hg Hm. unfold on_game. by rewrite Hg, Hm. Qed.

Lemma on_room_ok {A} (m : M Rng GameRoom.t A) s r room_id room a room' r' :
  RoomManager.rooms (MultiRoomServer.rooms s) !! room_id = Some room →
  m room r = Ok (a, room', r') →
  on_room room_id m s r =
    Ok (a,
        MultiRoomServer.set_rooms
          (λ rm, RoomManager.mk (<[room_id := room']> (RoomManager.rooms rm))
                                (RoomManager.client_rooms rm)) s,
        r').
Proof. intros Hroom Hm. unfold on_room. by rewrite Hroom, Hm. Qed.

Lemma wf_vacated g i : wf g → wf (vacated g i).
Proof.
  intros Hwf. apply wf_set_players; [intros; by rewrite length_insert | exact Hwf].
Qed.

Lemma discard_hand_empty room r g i :
  GameRoom.game room = Some g → wf g → Z.of_nat i < num_players g →
  hand g (Z.of_nat i) = [] →
  discard_hand i room r = Ok (tt, room, r).
Proof.
  intros Hg Hwf Hi Hh. unfold discard_hand. rewrite bind_get, Hg.
  erewrite bind_ok; [|apply getitem_in_range; [lia | apply wf_seat; [done | lia]]].
  by rewrite Hh.
Qed.

Lemma discard_hand_cards room r g i :
  GameRoom.game room = Some g → wf g → Z.of_nat i < num_players g →
  hand g (Z.of_nat i) ≠ [] →
  ∃ g',
    discard_hand i room r =
      Ok (tt,
          GameRoom.set_game (λ _, Some g')
            (GameRoom.set_disconnected (λ ds, {[Z.of_nat i]} ∪ ds) room),
          r) ∧
    players g' = players (vacated g i) ∧
    draw_pile g' = draw_pile g ∧
    discard_pile g' = reverse (hand g (Z.of_nat i)) ++ discard_pile g ∧
    num_players g' = num_players g ∧
    (current_player g = Z.of_nat i → next_active (vacated g i) (current_player g')) ∧
    (current_player g ≠ Z.of_nat i → g' = vacated g i).
Proof.
  intros Hg Hwf Hi Hh. unfold discard_hand. rewrite bind_get, Hg.
  erewrite bind_ok; [|apply getitem_in_range; [lia | apply wf_seat; [done | lia]]].
  destruct (hand g (Z.of_nat i)) as [|c0 h0] eqn:Hhand; [done|]. cbn [truthy].
  destruct room as [rid rname cr mx gm ended seats names socks fo ds lgs].
  simpl in Hg. subst gm.
  erewrite bind_ok; [|by eapply on_game_ok].
  erewrite bind_ok; [|by eapply on_game_ok].
  rewrite bind_modify. erewrite bind_ok; [|by eapply on_game_ok].
  fold (vacated g i). unfold vacated at 1. rewrite Hhand. simpl.
  case_bool_decide as Hcur.
  - destruct (next_turn_spec (vacated g i) r (wf_vacated g i Hwf)) as (nxt & Hnt & Hna).
    unfold vacated in Hnt at 1. rewrite Hhand in Hnt.
    erewrite on_game_ok; [|reflexivity|exact Hnt].
    eexists. split; [reflexivity|].
    split_and!; try done; try (unfold vacated; by rewrite Hhand).
  - eexists. split; [reflexivity|].
    split_and!; try done; try (unfold vacated; by rewrite Hhand).
Qed.

Lemma remove_player_from_first sock room r (i : nat) pre pl post :
  Forall (λ player, seat_of sock player = false) pre →
  Player.sock pl = sock →
  remove_player_from sock i (pre ++ Some pl :: post) room r =
    (discard_hand (i + length pre) ;;;
     modify (GameRoom.set_players <[(i + length pre)%nat := None]>) ;;;
     modify (GameRoom.set_sockets (λ ss, ss ∖ {[sock]})) ;;;
     ret true) room r.
Proof.
  intros Hpre Hsock. revert i. induction pre as [|player pre IH]; intros i.
  - simpl. rewrite Nat.add_0_r. unfold seat_of.
    by rewrite bool_decide_eq_true_2.
  - apply Forall_cons in Hpre as [Hno Hpre]. cbn [app remove_player_from].
    rewrite Hno, IH by done. simpl. by rewrite Nat.add_succ_r.
Qed.

Lemma remove_player_absent sock room r (i : nat) seats :
  Forall (λ player, seat_of sock player = false) seats →
  remove_player_from sock i seats room r = Ok (false, room, r).
Proof.
  intros Hno. revert i. induction seats as [|player seats IH]; intros i; [done|].
  apply Forall_cons in Hno as [Hp Hno]. simpl. rewrite Hp. by apply IH.
Qed.

Lemma remove_player_run sock room r (i : nat) pl g :
  GameRoom.game room = Some g → wf g →
  GameRoom.players room !! i = Some (Some pl) → Player.sock pl = sock →
  Forall (λ player, seat_of sock player = false) (take i (GameRoom.players room)) →
  Z.of_nat i < num_players g →
  (hand g (Z.of_nat i) = [] →
   remove_player sock room r =
     Ok (true,
         GameRoom.set_sockets (λ ss, ss ∖ {[sock]})
           (GameRoom.set_players <[i := None]> room),
         r)) ∧
  (hand g (Z.of_nat i) ≠ [] →
   ∃ g',
     remove_player sock room r =
       Ok (true,
           GameRoom.set_sockets (λ ss, ss ∖ {[sock]})
             (GameRoom.set_players <[i := None]>
                (GameRoom.set_game (λ _, Some g')
                   (GameRoom.set_disconnected (λ ds, {[Z.of_nat i]} ∪ ds) room))),
           r) ∧
     players g' = <[i := []]> (players g) ∧
     draw_pile g' = draw_pile g ∧
     discard_pile g' = reverse (hand g (Z.of_nat i)) ++ discard_pile g ∧
     (∀ top, active_card g = Some top → active_card g' = Some top) ∧
     (current_player g = Z.of_nat i →
      next_active (vacated g i) (current_player g')) ∧
     (current_player g ≠ Z.of_nat i → current_player g' = current_player g)).
Proof.
  intros Hg Hwf Hpl Hsock Hfirst Hi.
  assert (remove_player sock room r =
            (discard_hand i ;;;
             modify (GameRoom.set_players <[i := None]>) ;;;
             modify (GameRoom.set_sockets (λ ss, ss ∖ {[sock]})) ;;;
             ret true) room r) as Hrun.
  { unfold remove_player. rewrite bind_get.
    rewrite <-(take_drop_middle _ _ _ Hpl) at 1.
    rewrite (remove_player_from_first sock room r 0) by done.
    rewrite length_take_le; [done|]. apply lookup_lt_Some in Hpl. lia. }
  rewrite Hrun. split.
  - intros Hempty. by erewrite bind_ok; [|by eapply discard_hand_empty].
  - intros Hcards.
    destruct (discard_hand_cards room r g i Hg Hwf Hi Hcards)
      as (g' & Hdis & Hp' & Hd' & Hx' & Hn' & Hturn & Hkeep).
    exists g'. erewrite bind_ok; [|exact Hdis]. split_and!; try done.
    + intros top Htop. unfold active_card in *. rewrite Hx', last_app.
      by rewrite Htop.
    + intros Hne. by rewrite (Hkeep Hne).
Qed.

(** *** Sending *)

Lemma send_all_ok s r (l : list socket) (message : Message) :
  forM_ l (λ sock, if bool_decide (Some sock ≠ None)
                   then send_message sock message ;;; ret tt
                   else ret tt) s r =
  Ok (tt, MultiRoomServer.set_sent (λ log, log ++ ((., message) <$> l)) s, r).
Proof.
  revert s. induction l as [|sock l IH]; intros s.
  - destruct s. unfold MultiRoomServer.set_sent. simpl. by rewrite app_nil_r.
  - cbn [forM_]. rewrite bool_decide_eq_true_2 by done.
    erewrite bind_ok; [|reflexivity]. cbv beta. rewrite IH. destruct s. unfold MultiRoomServer.set_sent. simpl.
    by rewrite <-app_assoc.
Qed.

Lemma broadcast_to_room_ok s r room_id room (message : Message) :
  RoomManager.rooms (MultiRoomServer.rooms s) !! room_id = Some room →
  broadcast_to_room room_id message None s r =
    Ok (tt,
        MultiRoomServer.set_sent
          (λ log, log ++ ((., message) <$> elements (GameRoom.sockets room))) s,
        r).
Proof.
  intros Hroom. unfold broadcast_to_room. rewrite bind_get, Hroom.
  apply send_all_ok.
Qed.

Lemma broadcast_to_room_absent s r room_id (message : Message) :
  RoomManager.rooms (MultiRoomServer.rooms s) !! room_id = None →
  broadcast_to_room room_id message None s r = Ok (tt, s, r).
Proof. intros Hroom. unfold broadcast_to_room. by rewrite bind_get, Hroom. Qed.

(** *** Results *)

Lemma ranked_length ds k l : length (ranked ds k l) = length l.
Proof. revert k. induction l as [|x l IH]; intros k; simpl; [done | by rewrite IH]. Qed.

Lemma ranked_lookup ds k l (i : nat) e :
  ranked ds k l !! i = Some e ↔
  ∃ x, l !! i = Some x ∧
       e = mkResult x.1 (k + Z.of_nat i + 1) x.2 (bool_decide (x.1 ∈ ds)).
Proof.
  revert k i. induction l as [|x l IH]; intros k i; simpl.
  - split; [done | by intros (? & ? & _)].
  - destruct i as [|i]; simpl.
    + rewrite Z.add_0_r. split; [intros [= <-]; eauto | by intros (? & [= <-] & ->)].
    + rewrite IH. by replace (k + 1 + Z.of_nat i + 1) with (k + Z.of_nat (S i) + 1) by lia.
Qed.

Lemma foldl_append_result {A} ds (pidf cl : A → Z) (l : list A) init :
  foldl (λ results x, append_result ds results (pidf x) (cl x)) init l =
  init ++ ranked ds (Z.of_nat (length init)) ((λ x, (pidf x, cl x)) <$> l).
Proof.
  revert init. induction l as [|x l IH]; intros init; simpl.
  - by rewrite app_nil_r.
  - rewrite IH. unfold append_result. rewrite length_app, <-app_assoc. simpl.
    by replace (Z.of_nat (length init + 1)) with (Z.of_nat (length init) + 1) by lia.
Qed.

Lemma winner_some g w :
  winner g = Some w ↔
  ∃ i : nat, w = Z.of_nat i ∧ players g !! i = Some [] ∧
             ∀ j h, players g !! j = Some h → (j < i)%nat → h ≠ [].
Proof.
  unfold winner. split.
  - destruct (list_find _ _) as [[i h]|] eqn:Hfind; [|done]. intros [= <-].
    apply list_find_Some in Hfind as (Hi & Hh & Hbefore).
    exists i. destruct h; [|done]. split_and!; try done.
    intros j h Hj Hlt ->. by apply (Hbefore j [] Hj Hlt).
  - intros (i & -> & Hi & Hbefore).
    assert (list_find (λ hand, truthy hand = false) (players g) = Some (i, [])) as ->; [|done].
    apply list_find_Some. split_and!; try done.
    intros j h Hj Hlt Hh. apply (Hbefore j h Hj Hlt). by destruct h.
Qed.

Lemma winner_none g :
  winner g = None ↔ Forall (λ h, h ≠ []) (players g).
Proof.
  unfold winner. rewrite fmap_None, list_find_None.
  apply Forall_iff. intros [|??]; simpl; split; done.
Qed.

Lemma end_game_run s r room_id room g :
  RoomManager.rooms (MultiRoomServer.rooms s) !! room_id = Some room →
  GameRoom.game room = Some g →
  GameRoom.max_players room ≤ Z.of_nat (length (players g)) →
  end_game room_id s r =
    Ok (tt,
        MultiRoomServer.set_rooms
          (λ rm, RoomManager.mk
                   (<[room_id :=
                        GameRoom.set_finish_order (λ _, [])
                          (GameRoom.set_last_game_state None
                             (GameRoom.set_game_ended true
                                (GameRoom.set_game (λ _, None) room)))]>
                      (RoomManager.rooms rm))
                   (RoomManager.client_rooms rm))
          (MultiRoomServer.set_sent
             (λ log, log ++
                ((., server_msg.go ((λ w, w + 1) <$> winner g)
                       (standings room (sort_by snd (remaining_seats room g)))
                       (GameRoom.player_names room))
                   <$> elements (GameRoom.sockets room))) s),
        r).
Proof.
  intros Hroom Hg Hmax. unfold end_game. rewrite bind_get, Hroom, Hg.
  erewrite bind_ok.
  2:{ apply (mapM_ok _ (λ i, (i, Z.of_nat (length (hand g i))))).
      intros i [_ Hi%elem_of_seqZ]%list_elem_of_filter.
      erewrite bind_ok; [done|].
      apply getitem_in_range; [lia|]. unfold hand.
      destruct (lookup_lt_is_Some_2 (players g) (Z.to_nat i)) as [h ->]; [lia | done]. }
  fold (remaining_seats room g).
  rewrite (foldl_append_result _ (λ pid, pid) (λ _, 0)).
  rewrite (foldl_append_result _ fst snd).
  rewrite !app_nil_l, ranked_length, length_fmap.
  change (Z.of_nat (@length ResultEntry [])) with 0.
  assert ((λ x : Z * Z, (x.1, x.2)) <$> sort_by snd (remaining_seats room g)
          = sort_by snd (remaining_seats room g)) as ->.
  { rewrite <-(list_fmap_id (sort_by _ _)) at 2. apply list_fmap_ext. by intros ? []. }
  fold (standings room (sort_by snd (remaining_seats room g))).
  erewrite bind_ok; [|by apply broadcast_to_room_ok].
  erewrite on_room_ok; [reflexivity|exact Hroom|reflexivity].
Qed.

Lemma standings_spec room others :
  let results := standings room others in
  let fo := GameRoom.finish_order room in
  let ds := GameRoom.disconnected room in
  (∀ (i : nat) pid, fo !! i = Some pid →
     results !! i = Some (mkResult pid (Z.of_nat i + 1) 0 (bool_decide (pid ∈ ds)))) ∧
  (∀ (j : nat) x, others !! j = Some x →
     results !! (length fo + j)%nat =
       Some (mkResult x.1 (Z.of_nat (length fo + j) + 1) x.2 (bool_decide (x.1 ∈ ds)))) ∧
  length results = (length fo + length others)%nat ∧
  (∀ (i : nat) e, results !! i = Some e →
     rank e = Z.of_nat i + 1 ∧ disconnected e = bool_decide (pid e ∈ ds)).
Proof.
  intros results fo ds. unfold results, standings. fold fo ds.
  assert (length (ranked ds 0 ((λ pid, (pid, 0)) <$> fo)) = length fo) as Hlen
    by by rewrite ranked_length, length_fmap.
  split_and!.
  - intros i pid Hi. rewrite lookup_app_l by (rewrite Hlen; by eapply lookup_lt_Some).
    apply ranked_lookup. exists (pid, 0). by rewrite list_lookup_fmap, Hi.
  - intros j x Hj. rewrite lookup_app_r by (rewrite Hlen; lia).
    rewrite Hlen, Nat.add_comm, Nat.add_sub. apply ranked_lookup.
    exists x. split; [done|]. f_equal. lia.
  - by rewrite length_app, Hlen, ranked_length.
  - intros i e He. apply lookup_app_Some in He as [He|[Hge He]].
    + apply ranked_lookup in He as (x & _ & ->). simpl. split; [lia | done].
    + apply ranked_lookup in He as (x & _ & ->). simpl. rewrite Hlen in *.
      split; [lia | done].
Qed.

(** *** Reading through the room table *)

Lemma set_rooms_id s room_id room :
  RoomManager.rooms (MultiRoomServer.rooms s) !! room_id = Some room →
  MultiRoomServer.set_rooms
    (λ rm, RoomManager.mk (<[room_id := room]> (RoomManager.rooms rm))
                          (RoomManager.client_rooms rm)) s = s.
Proof.
  intros Hroom. destruct s as [lb [rooms crs] names log].
  unfold MultiRoomServer.set_rooms. simpl in *. by rewrite insert_id.
Qed.

Lemma on_room_get s r room_id room :
  RoomManager.rooms (MultiRoomServer.rooms s) !! room_id = Some room →
  on_room room_id get s r = Ok (room, s, r).
Proof.
  intros Hroom. erewrite on_room_ok; [|done|reflexivity].
  by rewrite set_rooms_id.
Qed.

Lemma on_room_game_get s r room_id room g :
  RoomManager.rooms (MultiRoomServer.rooms s) !! room_id = Some room →
  GameRoom.game room = Some g →
  on_room room_id (on_game get) s r = Ok (g, s, r).
Proof.
  intros Hroom Hg. erewrite on_room_ok; [|done|by eapply on_game_ok].
  rewrite set_rooms_id; [done|]. rewrite Hroom. f_equal.
  destruct room. simpl in *. by subst.
Qed.

(** *** Messages to a room without a game *)

Lemma handle_room_message_no_game s r sock (message : ClientMessage) :
  message ≠ client_msg.leave_room →
  (∀ room_id room,
     RoomManager.client_rooms (MultiRoomServer.rooms s) !! sock = Some room_id →
     RoomManager.rooms (MultiRoomServer.rooms s) !! room_id = Some room →
     GameRoom.game room = None) →
  handle_room_message sock message s r = Ok (tt, s, r).
Proof.
  intros Hmsg Hnone. unfold handle_room_message. rewrite bind_get.
  destruct (RoomManager.client_rooms (MultiRoomServer.rooms s) !! sock)
    as [room_id|] eqn:Hsock; [|done]. simpl.
  destruct (RoomManager.rooms (MultiRoomServer.rooms s) !! room_id)
    as [room|] eqn:Hroom; [|done]. simpl.
  rewrite (Hnone room_id room) by done. by destruct message.
Qed.

(** *** Housekeeping of a finished round *)

Lemma housekeep_game_over s r room_id room g :
  RoomManager.rooms (MultiRoomServer.rooms s) !! room_id = Some room →
  GameRoom.game room = Some g → wf g →
  0 ≤ current_player g < num_players g →
  GameRoom.max_players room ≤ num_players g →
  check_game_over g = true →
  ∃ s1,
    end_game room_id s r = Ok (tt, s1, r) ∧
    housekeep room_id s r =
      Ok (tt,
          if is_empty room then
            MultiRoomServer.set_rooms
              (λ rm, RoomManager.mk (delete room_id (RoomManager.rooms rm))
                                    (RoomManager.client_rooms rm)) s1
          else s1,
          r) ∧
    RoomManager.client_rooms (MultiRoomServer.rooms s1) =
      RoomManager.client_rooms (MultiRoomServer.rooms s) ∧
    ∃ room1, RoomManager.rooms (MultiRoomServer.rooms s1) !! room_id = Some room1 ∧
             GameRoom.game room1 = None ∧ GameRoom.game_ended room1 = true.
Proof.
  intros Hroom Hg Hwf Hcur Hmax Hover.
  pose proof (end_game_run s r room_id room g Hroom Hg) as Hend.
  eexists. split; [apply Hend; destruct Hwf; lia|]. split_and!.
  - unfold housekeep. erewrite bind_ok; [|by apply on_room_get]. rewrite Hg.
    erewrite bind_ok; [|apply getitem_in_range; [lia | by apply wf_seat]].
    rewrite Hover, andb_false_r, bind_ret.
    erewrite bind_ok; [|by eapply on_room_game_get]. rewrite Hover.
    erewrite bind_ok; [|apply Hend; destruct Hwf; lia].
    by destruct (is_empty room).
  - done.
  - eexists. split; [apply lookup_insert_eq|done].
Qed.

(** *** Display names *)

Lemma name_taken_iff (names : gmap socket string) (player_name : string) :
  player_name ∈ (map_to_list names).*2 ↔ ∃ sock, names !! sock = Some player_name.
Proof.
  rewrite list_elem_of_fmap. split.
  - intros ([sock n] & -> & Hin%elem_of_map_to_list). by exists sock.
  - intros (sock & Hsock). exists (sock, player_name). split; [done|].
    by apply elem_of_map_to_list.
Qed.

Lemma set_name_run s r sock (name : option string) :
  handle_lobby_message sock (client_msg.set_name name) s r =
    let player_name := strip (default "" name) in
    if negb (bool_decide (3 ≤ py_len player_name ≤ 20)%nat) then
      Ok (tt,
          MultiRoomServer.set_sent
            (λ log, log ++ [(sock, server_msg.e "Name must be 3-20 characters long")]) s,
          r)
    else if bool_decide (player_name ∈ (map_to_list (MultiRoomServer.client_names s)).*2) then
      Ok (tt,
          MultiRoomServer.set_sent
            (λ log, log ++ [(sock, server_msg.e "Name already taken")]) s,
          r)
    else
      Ok (tt,
          MultiRoomServer.set_sent
            (λ log, log ++
               [(sock, server_msg.name_set player_name);
                (sock, server_msg.room_list
                         (get_available_rooms_info
                            (RoomManager.rooms (MultiRoomServer.rooms s)))
                         MAX_ROOMS
                         (Z.of_nat (size (RoomManager.rooms (MultiRoomServer.rooms s)))))])
            (MultiRoomServer.set_client_names <[sock := player_name]> s),
          r).
Proof.
  cbv zeta. unfold handle_lobby_message.
  destruct (negb _); [done|]. rewrite bind_get.
  destruct (bool_decide _); [done|].
  destruct s as [lb rm names log].
  unfold send_room_list, send_message, bind, modify, get, ret,
    MultiRoomServer.set_sent, MultiRoomServer.set_client_names.
  cbn [MultiRoomServer.lobby MultiRoomServer.rooms MultiRoomServer.client_names
       MultiRoomServer.sent].
  by rewrite <-app_assoc.
Qed.

End server_properties.

(** ** The claims about the room server *)

(** C7, as the code has it. Removing the occupant of a seat while a round
    is on vacates the seat and forgets the connection.  If the seat holds
    cards they go, reversed, to the head side of the discard pile, so the
    active card stays; the hand is emptied; the seat joins the disconnected
    set; and the turn advances to the next active seat if and only if that
    seat held it.  If the seat holds no card, the game and the disconnected
    set stay as they are. *)
Theorem remove_player_effect {Rng : Type} `{!Random Rng} (sock : socket)
    (room : GameRoom.t) (r : Rng) (i : nat) (pl : Player.t) (g : Game) :
  GameRoom.game room = Some g → wf g →
  GameRoom.players room !! i = Some (Some pl) → Player.sock pl = sock →
  Forall (λ player, seat_of sock player = false) (take i (GameRoom.players room)) →
  Z.of_nat i < num_players g →
  (hand g (Z.of_nat i) = [] →
   remove_player sock room r =
     Ok (true,
         GameRoom.set_sockets (λ ss, ss ∖ {[sock]})
           (GameRoom.set_players <[i := None]> room),
         r)) ∧
  (hand g (Z.of_nat i) ≠ [] →
   ∃ g',
     remove_player sock room r =
       Ok (true,
           GameRoom.set_sockets (λ ss, ss ∖ {[sock]})
             (GameRoom.set_players <[i := None]>
                (GameRoom.set_game (λ _, Some g')
                   (GameRoom.set_disconnected (λ ds, {[Z.of_nat i]} ∪ ds) room))),
           r) ∧
     players g' = <[i := []]> (players g) ∧
     draw_pile g' = draw_pile g ∧
     discard_pile g' = reverse (hand g (Z.of_nat i)) ++ discard_pile g ∧
     (∀ top, active_card g = Some top → active_card g' = Some top) ∧
     (current_player g = Z.of_nat i →
      next_active (vacated g i) (current_player g')) ∧
     (current_player g ≠ Z.of_nat i → current_player g' = current_player g)).
Proof. exact (remove_player_run sock room r i pl g). Qed.

(** Boris leaves the sample room: his three cards go under the nine of
    diamonds and Anna keeps the turn. *)
Lemma remove_player_effect_witness :
  ∃ g',
    remove_player 11%nat examples.trio 0%nat =
      Ok (true,
          GameRoom.set_sockets (λ ss, ss ∖ {[11%nat]})
            (GameRoom.set_players <[1%nat := None]>
               (GameRoom.set_game (λ _, Some g')
                  (GameRoom.set_disconnected (λ ds, {[1]} ∪ ds) examples.trio))),
          0%nat) ∧
    players g' = <[1%nat := []]> (players examples.trio_game) ∧
    draw_pile g' = draw_pile examples.trio_game ∧
    discard_pile g' =
      reverse (hand examples.trio_game 1) ++ discard_pile examples.trio_game.
Proof.
  destruct (proj2 (remove_player_effect 11%nat examples.trio 0%nat 1
                     (Player.mk 11 "Boris" 1) examples.trio_game
                     eq_refl examples.trio_game_wf eq_refl eq_refl
                     ltac:(by repeat constructor) ltac:(by vm_compute))
                  ltac:(by vm_compute))
    as (g' & Hrun & Hp & Hd & Hx & _).
  by exists g'.
Defined.

(** C7 fails as stated: Cyril, who has played his last card, leaves the
    sample room; his seat is vacated but does not join the disconnected
    set. *)
Lemma remove_player_counterexample :
  remove_player 12%nat examples.trio 0%nat =
    Ok (true,
        GameRoom.set_sockets (λ ss, ss ∖ {[12%nat]})
          (GameRoom.set_players <[2%nat := None]> examples.trio),
        0%nat) ∧
  GameRoom.disconnected
    (GameRoom.set_sockets (λ ss, ss ∖ {[12%nat]})
       (GameRoom.set_players <[2%nat := None]> examples.trio)) = ∅.
Proof. split; by vm_compute. Qed.

(** C4. [end_game] sends every connection of the room the results of the
    round: first the finishers, in the order of [finish_order], ranked from
    1 with no cards left; after them the other seats, ordered by ascending
    hand size, each with its hand size; ranks run 1, 2, 3, ... down the
    list and every entry carries the seat's disconnected flag.  The winner
    is the first seat whose hand is empty, reported as seat + 1, and none
    when no hand is empty.  The room then has no game and is ended. *)
Theorem end_game_results {Rng : Type} `{!Random Rng} (s : MultiRoomServer.t)
    (r : Rng) (room_id : string) (room : GameRoom.t) (g : Game) :
  RoomManager.rooms (MultiRoomServer.rooms s) !! room_id = Some room →
  GameRoom.game room = Some g →
  GameRoom.max_players room ≤ Z.of_nat (length (players g)) →
  ∃ others results,
    results = standings room others ∧
    others ≡ₚ remaining_seats room g ∧
    Sorted (λ a b, a.2 ≤ b.2) others ∧
    end_game room_id s r =
      Ok (tt,
          MultiRoomServer.set_rooms
            (λ rm, RoomManager.mk
                     (<[room_id :=
                          GameRoom.set_finish_order (λ _, [])
                            (GameRoom.set_last_game_state None
                               (GameRoom.set_game_ended true
                                  (GameRoom.set_game (λ _, None) room)))]>
                        (RoomManager.rooms rm))
                     (RoomManager.client_rooms rm))
            (MultiRoomServer.set_sent
               (λ log, log ++
                  ((., server_msg.go ((λ w, w + 1) <$> winner g) results
                                     (GameRoom.player_names room))
                     <$> elements (GameRoom.sockets room))) s),
          r) ∧
    (∀ (i : nat) pid,
       GameRoom.finish_order room !! i = Some pid →
       results !! i =
         Some (mkResult pid (Z.of_nat i + 1) 0
                        (bool_decide (pid ∈ GameRoom.disconnected room)))) ∧
    (∀ (j : nat) x,
       others !! j = Some x →
       results !! (length (GameRoom.finish_order room) + j)%nat =
         Some (mkResult x.1 (Z.of_nat (length (GameRoom.finish_order room) + j) + 1) x.2
                        (bool_decide (x.1 ∈ GameRoom.disconnected room)))) ∧
    length results = (length (GameRoom.finish_order room) + length others)%nat ∧
    (∀ (i : nat) e,
       results !! i = Some e →
       rank e = Z.of_nat i + 1 ∧
       disconnected e = bool_decide (pid e ∈ GameRoom.disconnected room)) ∧
    (∀ w, winner g = Some w ↔
          ∃ i : nat, w = Z.of_nat i ∧ players g !! i = Some [] ∧
                     ∀ j h, players g !! j = Some h → (j < i)%nat → h ≠ []) ∧
    (winner g = None ↔ Forall (λ h, h ≠ []) (players g)).
Proof.
  intros Hroom Hg Hmax.
  exists (sort_by snd (remaining_seats room g)), (standings room (sort_by snd (remaining_seats room g))).
  destruct (standings_spec room (sort_by snd (remaining_seats room g)))
    as (Hfin & Hoth & Hlen & Hrank).
  split_and!; try done.
  - apply sort_by_perm.
  - apply (sort_by_sorted snd).
  - by apply end_game_run.
  - apply winner_some.
  - apply winner_none.
Qed.

(** The round of the sample room ends: Cyril, who finished, is first;
    Anna with two cards and Boris with three follow. *)
Lemma end_game_results_witness :
  ∃ others results,
    results = standings examples.trio others ∧
    others ≡ₚ remaining_seats examples.trio examples.trio_game ∧
    Sorted (λ a b, a.2 ≤ b.2) others ∧
    length results = (1 + length others)%nat.
Proof.
  destruct (end_game_results examples.tavern 0%nat "room-1" examples.trio
              examples.trio_game eq_refl eq_refl ltac:(by vm_compute))
    as (others & results & Hres & Hperm & Hsorted & _ & _ & _ & Hlen & _).
  by exists others, results.
Defined.

(** C3, as the code has it. Once [check_game_over()] is true and the
    housekeeping pass of the reactor has run for the room, the round is
    finalised: the room has no game and is ended (or is gone, being empty),
    and every later message of its connections other than [leave_room], a
    play or a draw among them, changes nothing and reaches no [play_card]
    or [draw_card].  The [Game] object itself refuses nothing. *)
Theorem finished_round_takes_no_move {Rng : Type} `{!Random Rng}
    (s : MultiRoomServer.t) (r : Rng) (room_id : string) (room : GameRoom.t)
    (g : Game) :
  RoomManager.rooms (MultiRoomServer.rooms s) !! room_id = Some room →
  GameRoom.game room = Some g → wf g →
  0 ≤ current_player g < num_players g →
  GameRoom.max_players room ≤ num_players g →
  check_game_over g = true →
  ∃ s',
    housekeep room_id s r = Ok (tt, s', r) ∧
    (∀ room', RoomManager.rooms (MultiRoomServer.rooms s') !! room_id = Some room' →
              GameRoom.game room' = None ∧ GameRoom.game_ended room' = true) ∧
    ∀ sock (message : ClientMessage) r',
      RoomManager.client_rooms (MultiRoomServer.rooms s) !! sock = Some room_id →
      message ≠ client_msg.leave_room →
      handle_room_message sock message s' r' = Ok (tt, s', r').
Proof.
  intros Hroom Hg Hwf Hcur Hmax Hover.
  destruct (housekeep_game_over s r room_id room g Hroom Hg Hwf Hcur Hmax Hover)
    as (s1 & _ & Hrun & Hcrs & room1 & Hroom1 & Hg1 & Hended1).
  eexists. split; [exact Hrun|].
  assert (∀ room',
    RoomManager.rooms
      (MultiRoomServer.rooms
         (if is_empty room then
            MultiRoomServer.set_rooms
              (λ rm, RoomManager.mk (delete room_id (RoomManager.rooms rm))
                                    (RoomManager.client_rooms rm)) s1
          else s1)) !! room_id = Some room' →
    GameRoom.game room' = None ∧ GameRoom.game_ended room' = true) as Hgone.
  { intros room'. destruct (is_empty room); simpl.
    - by rewrite lookup_delete_eq.
    - rewrite Hroom1. by intros [= <-]. }
  split; [exact Hgone|].
  intros sock message r' Hsock Hmsg. apply handle_room_message_no_game; [done|].
  intros room_id' room' Hsock' Hroom'.
  assert (room_id' = room_id) as ->.
  { destruct (is_empty room); simpl in Hsock'; rewrite Hcrs, Hsock in Hsock';
      by injection Hsock'. }
  by apply Hgone.
Qed.

(** In the sample room of two the round is over; after housekeeping a play
    by Anna changes nothing. *)
Lemma finished_round_takes_no_move_witness :
  ∃ s',
    housekeep "room-2" examples.parlour 0%nat = Ok (tt, s', 0%nat) ∧
    handle_room_message 10%nat (client_msg.p (Some 0)) s' 0%nat = Ok (tt, s', 0%nat).
Proof.
  destruct (finished_round_takes_no_move examples.parlour 0%nat "room-2" examples.duo
              examples.over_game eq_refl eq_refl examples.over_game_wf
              ltac:(by vm_compute) ltac:(by vm_compute) ltac:(by vm_compute))
    as (s' & Hrun & _ & Hquiet).
  exists s'. split; [exact Hrun|]. by apply Hquiet.
Defined.

(** C3 fails as stated: in a game that is over, Anna plays the nine of
    hearts, and Boris can draw, each with success. *)
Lemma game_over_counterexample :
  check_game_over examples.over_game = true ∧
  play_card 0 0 examples.over_game 0%nat =
    Ok (true,
        mkGame 2 [[]; []] [examples.c 10 "♣"]
               [examples.c 9 "♦"; examples.c 9 "♥"] 1 [],
        0%nat) ∧
  draw_card 1 examples.over_game 0%nat =
    Ok (true,
        mkGame 2 [[examples.c 9 "♥"]; [examples.c 10 "♣"]] []
               [examples.c 9 "♦"] 0 [],
        0%nat).
Proof. split_and!; by vm_compute. Qed.

(** C8, as the code has it. A [set_name] request is answered by an error,
    and changes nothing else, exactly when the stripped name is shorter
    than 3 or longer than 20 characters (code points, as [len] counts
    them) or some connection, in the lobby or in a room, already has that
    name; otherwise the name is recorded for
    the connection and [name_set] and the room list are sent.  So of two
    connections that claim one name in turn, the second gets the name-taken
    error and the names are as the first left them. *)
Theorem set_name_contract {Rng : Type} `{!Random Rng} (s : MultiRoomServer.t)
    (r : Rng) (sock : socket) (name : option string) :
  let player_name := strip (default "" name) in
  let in_range := (3 ≤ py_len player_name ≤ 20)%nat in
  let taken := ∃ other, MultiRoomServer.client_names s !! other = Some player_name in
  let accepted :=
    MultiRoomServer.set_sent
      (λ log, log ++
         [(sock, server_msg.name_set player_name);
          (sock, server_msg.room_list
                   (get_available_rooms_info
                      (RoomManager.rooms (MultiRoomServer.rooms s)))
                   MAX_ROOMS
                   (Z.of_nat (size (RoomManager.rooms (MultiRoomServer.rooms s)))))])
      (MultiRoomServer.set_client_names <[sock := player_name]> s) in
  (¬ in_range →
   handle_lobby_message sock (client_msg.set_name name) s r =
     Ok (tt,
         MultiRoomServer.set_sent
           (λ log, log ++ [(sock, server_msg.e "Name must be 3-20 characters long")]) s,
         r)) ∧
  (in_range → taken →
   handle_lobby_message sock (client_msg.set_name name) s r =
     Ok (tt,
         MultiRoomServer.set_sent
           (λ log, log ++ [(sock, server_msg.e "Name already taken")]) s,
         r)) ∧
  (in_range → ¬ taken →
   handle_lobby_message sock (client_msg.set_name name) s r = Ok (tt, accepted, r) ∧
   MultiRoomServer.client_names accepted !! sock = Some player_name ∧
   ∀ sock' name' (r' : Rng),
     strip (default "" name') = player_name →
     handle_lobby_message sock' (client_msg.set_name name') accepted r' =
       Ok (tt,
           MultiRoomServer.set_sent
             (λ log, log ++ [(sock', server_msg.e "Name already taken")]) accepted,
           r')).
Proof.
  cbv zeta. rewrite set_name_run. cbv zeta. split_and!.
  - intros Hlen. by rewrite bool_decide_eq_false_2.
  - intros Hlen Htaken. rewrite bool_decide_eq_true_2 by done. cbn [negb].
    by rewrite bool_decide_eq_true_2 by by apply name_taken_iff.
  - intros Hlen Hfree. rewrite bool_decide_eq_true_2 by done. cbn [negb].
    rewrite bool_decide_eq_false_2 by by rewrite name_taken_iff.
    split_and!; [done|apply lookup_insert_eq|].
    intros sock' name' r' Hname. rewrite set_name_run. cbv zeta. rewrite Hname.
    rewrite bool_decide_eq_true_2 by done. cbn [negb].
    rewrite bool_decide_eq_true_2; [done|].
    apply name_taken_iff. exists sock. apply lookup_insert_eq.
Qed.

(** C8 fails as stated: the only connection in the lobby is the nameless
    guest 13, so no named connection in the lobby holds "Anna"; yet the
    guest's claim of that name is refused, Anna being in a room. *)
Lemma set_name_counterexample :
  LobbyManager.clients (MultiRoomServer.lobby examples.tavern_with_guest) = {[13%nat]} ∧
  MultiRoomServer.client_names examples.tavern_with_guest !! 13%nat = None ∧
  py_len (strip "Anna") = 4%nat ∧
  handle_lobby_message 13%nat (client_msg.set_name (Some "Anna"))
                       examples.tavern_with_guest 0%nat =
    Ok (tt,
        MultiRoomServer.set_sent
          (λ log, log ++ [(13%nat, server_msg.e "Name already taken")])
          examples.tavern_with_guest,
        0%nat).
Proof. split_and!; by vm_compute. Qed.

(** Dana takes her name; a second connection that claims it is refused. *)
Lemma set_name_contract_witness :
  handle_lobby_message 13%nat (client_msg.set_name (Some " Dana "))
                       examples.tavern_with_guest 0%nat =
    Ok (tt,
        MultiRoomServer.set_sent
          (λ log, log ++
             [(13%nat, server_msg.name_set "Dana");
              (13%nat, server_msg.room_list [] MAX_ROOMS 1)])
          (MultiRoomServer.set_client_names <[13%nat := "Dana"]>
             examples.tavern_with_guest),
        0%nat) ∧
  handle_lobby_message 14%nat (client_msg.set_name (Some "Dana"))
    (MultiRoomServer.set_sent
       (λ log, log ++
          [(13%nat, server_msg.name_set "Dana");
           (13%nat, server_msg.room_list [] MAX_ROOMS 1)])
       (MultiRoomServer.set_client_names <[13%nat := "Dana"]>
          examples.tavern_with_guest))
    0%nat =
    Ok (tt,
        MultiRoomServer.set_sent
          (λ log, log ++ [(14%nat, server_msg.e "Name already taken")])
          (MultiRoomServer.set_sent
             (λ log, log ++
                [(13%nat, server_msg.name_set "Dana");
                 (13%nat, server_msg.room_list [] MAX_ROOMS 1)])
             (MultiRoomServer.set_client_names <[13%nat := "Dana"]>
                examples.tavern_with_guest)),
        0%nat).
Proof.
  destruct (proj2 (proj2 (set_name_contract examples.tavern_with_guest 0%nat 13%nat
                            (Some " Dana "))))
    as (Hrun & _ & Hsecond).
  - vm_compute. lia.
  - rewrite <-name_taken_iff.
    apply (bool_decide_eq_false_1
             (strip (default "" (Some " Dana ")) ∈
                (map_to_list (MultiRoomServer.client_names examples.tavern_with_guest)).*2)).
    by vm_compute.
  - split; [exact Hrun|]. exact (Hsecond 14%nat (Some "Dana") 0%nat eq_refl).
Defined.

(** ** Further properties of the rules engine *)

(** X1. [_refresh_draw_pile] never raises and never changes the active
    card; with at most one discard card it changes nothing, otherwise it
    leaves the active card alone on the discard pile; and a second call
    right after the first changes nothing. *)
Theorem refresh_once_is_enough {Rng : Type} `{!Random Rng} (g : Game) (r : Rng) :
  ∃ g' r',
    _refresh_draw_pile g r = Ok (tt, g', r') ∧
    _refresh_draw_pile g' r' = Ok (tt, g', r') ∧
    active_card g' = active_card g ∧
    players g' = players g ∧ current_player g' = current_player g ∧
    ((length (discard_pile g) ≤ 1)%nat → g' = g ∧ r' = r) ∧
    ((1 < length (discard_pile g))%nat →
     ∃ top, discard_pile g' = [top] ∧ active_card g = Some top).
Proof.
  destruct (decide (length (discard_pile g) ≤ 1)%nat) as [Hlen|Hlen].
  { exists g, r. rewrite refresh_small by done. split_and!; try done. lia. }
  destruct (exists_last (l := discard_pile g)) as (init & top & Hd).
  { intros Hd. rewrite Hd in Hlen. simpl in Hlen. lia. }
  assert (init ≠ []) as Hinit.
  { intros ->. rewrite Hd in Hlen. simpl in Hlen. lia. }
  eexists _, _. split; [by eapply refresh_big|].
  assert (active_card g = Some top) as Htop
    by (unfold active_card; by rewrite Hd, last_snoc).
  split_and!; try done. intros _. by exists top.
Qed.

(** X2. For a well-formed game [_get_next_active_player] changes nothing
    and returns a seat in range: the first seat after [current_player],
    circularly, with a non-empty hand, and so a seat that holds cards
    whenever any seat does; only one seat fits that description. *)
Theorem next_active_player_contract {Rng : Type} `{!Random Rng} (g : Game) (r : Rng) :
  wf g →
  ∃ s,
    _get_next_active_player g r = Ok (s, g, r) ∧
    0 ≤ s < num_players g ∧
    next_active g s ∧
    (∀ s', next_active g s' → s' = s) ∧
    (Exists (λ h, h ≠ []) (players g) → hand g s ≠ []).
Proof.
  intros Hwf. destruct (next_active_player_spec g r Hwf) as (s & Hrun & Hna).
  exists s.
  split_and!; eauto using next_active_range, next_active_unique, next_active_nonempty.
  all: by eapply next_active_range.
Qed.

(** In the sample room of three, with the turn at Boris, Cyril's empty
    seat is passed over. *)
Lemma next_active_player_contract_witness :
  ∃ s,
    _get_next_active_player (set_current_player 1 examples.trio_game) 0%nat
      = Ok (s, set_current_player 1 examples.trio_game, 0%nat) ∧
    0 ≤ s < 3 ∧
    next_active (set_current_player 1 examples.trio_game) s.
Proof.
  destruct (next_active_player_contract (set_current_player 1 examples.trio_game) 0%nat
              examples.trio_game_wf) as (s & Hrun & Hrange & Hna & _).
  by exists s.
Defined.

Section more_game_properties.
Context {Rng : Type} `{!Random Rng}.
Implicit Types (g : Game) (r : Rng) (c : Card).

(** A successful [play_card] has passed the guard and the legality test. *)
Lemma play_card_true_inv g r player_index card_index g' r' :
  wf g → play_card player_index card_index g r = Ok (true, g', r') →
  ∃ card,
    0 ≤ player_index < num_players g ∧ 0 ≤ card_index ∧
    hand g player_index !! Z.to_nat card_index = Some card ∧
    playable card (active_card g) = true ∧
    resolve card (laid g player_index card_index card) r = Ok (true, g', r').
Proof.
  intros Hwf Hrun.
  destruct (decide (0 ≤ player_index < num_players g ∧
                    0 ≤ card_index < Z.of_nat (length (hand g player_index))))
    as [[Hp Hc]|Hout].
  2:{ by rewrite play_card_out_of_range in Hrun. }
  destruct (lookup_lt_is_Some_2 (hand g player_index) (Z.to_nat card_index))
    as [card Hcard]; [lia|].
  rewrite (play_card_in_range g r _ _ card) in Hrun by (done || lia).
  exists card. destruct (playable card (active_card g)); [|done].
  split_and!; try done; lia.
Qed.

(** With cards in stock, a card that is no seven leaves stock and
    generator alone and only moves the turn. *)
Lemma resolve_plain g1 r card :
  wf g1 → card.value card ≠ 7 → draw_pile g1 ≠ [] →
  ∃ s, resolve card g1 r = Ok (true, set_current_player s g1, r).
Proof.
  intros Hwf H7 Hd. unfold resolve. rewrite bool_decide_eq_false_2 by done.
  assert (∀ g r, draw_pile g ≠ [] → wf g →
    ∃ s, ((g0 <- get ;;
           (if negb (truthy (draw_pile g0)) && negb false
            then _refresh_draw_pile else ret tt) ;;;
           next_turn ;;; ret true) : M Rng Game bool) g r
         = Ok (true, set_current_player s g, r)) as Hrest.
  { intros g r0 Hdg Hwfg. rewrite bind_get.
    destruct (draw_pile g) eqn:Hdd; [done|]. cbn [truthy negb andb]. rewrite bind_ret.
    destruct (next_turn_spec g r0 Hwfg) as (s & Hs & _).
    exists s. by erewrite bind_ok. }
  case_bool_decide as H14.
  - destruct (next_active_player_spec g1 r Hwf) as (np & Hnp & _).
    erewrite bind_ok; [|erewrite bind_ok; [|exact Hnp]; reflexivity].
    destruct (Hrest (set_current_player np g1) r Hd Hwf) as (s & Hs).
    exists s. cbn [negb] in *. by rewrite Hs.
  - rewrite bind_ret. cbn [negb] in *. by apply Hrest.
Qed.

End more_game_properties.

(** X3. After every successful [play_card] on a well-formed game the game
    is still well-formed with the same number of seats, and the seat that
    holds the turn is in range and holds a card whenever any seat does. *)
Theorem play_card_turn_invariant {Rng : Type} `{!Random Rng} (g : Game) (r : Rng)
    (player_index card_index : Z) (g' : Game) (r' : Rng) :
  wf g →
  play_card player_index card_index g r = Ok (true, g', r') →
  wf g' ∧ num_players g' = num_players g ∧
  0 ≤ current_player g' < num_players g' ∧
  (Exists (λ h, h ≠ []) (players g') → hand g' (current_player g') ≠ []).
Proof.
  intros Hwf Hrun.
  destruct (play_card_true_inv g r _ _ g' r' Hwf Hrun) as (card & _ & _ & _ & _ & Hres).
  destruct (resolve_spec (laid g player_index card_index card) r card)
    as (g2 & r2 & s & Hres' & Hwf2 & Hna & Hn2 & _); [by apply wf_laid|].
  rewrite Hres' in Hres. injection Hres as <- <-.
  split_and!; try done.
  - apply (next_active_range g2 s Hwf2 Hna).
  - apply (next_active_range g2 s Hwf2 Hna).
  - intros Hex. by apply (next_active_nonempty g2).
Qed.

(** In the sample duel, after the nine of hearts the turn is at seat 1,
    which holds a card. *)
Lemma play_card_turn_invariant_witness :
  0 ≤ current_player examples.duel_after_nine < num_players examples.duel_after_nine ∧
  (Exists (λ h, h ≠ []) (players examples.duel_after_nine) →
   hand examples.duel_after_nine (current_player examples.duel_after_nine) ≠ []).
Proof.
  apply (proj2 (proj2 (play_card_turn_invariant examples.duel 0%nat 0 0
                         examples.duel_after_nine 0%nat examples.duel_wf
                         ltac:(by vm_compute)))).
Defined.

(** X4. A legal play puts the card on top of the discard pile, where it is
    the new active card.  Unless the card is a seven, no hand changes but
    for the loss of that card; and if the stock is not empty, stock and
    generator are as before and the discard pile has just gained the
    card. *)
Theorem play_card_lays_the_card {Rng : Type} `{!Random Rng} (g : Game) (r : Rng)
    (player_index card_index : Z) (card : Card) :
  wf g → 0 ≤ player_index < num_players g → 0 ≤ card_index →
  hand g player_index !! Z.to_nat card_index = Some card →
  playable card (active_card g) = true →
  ∃ g' r',
    play_card player_index card_index g r = Ok (true, g', r') ∧
    active_card g' = Some card ∧
    (card.value card ≠ 7 →
     players g' =
       <[Z.to_nat player_index := delete (Z.to_nat card_index) (hand g player_index)]>
         (players g)) ∧
    (card.value card ≠ 7 → draw_pile g ≠ [] →
     draw_pile g' = draw_pile g ∧ discard_pile g' = discard_pile g ++ [card] ∧ r' = r).
Proof.
  intros Hwf Hp Hc Hcard Hok.
  rewrite (play_card_in_range g r _ _ card), Hok by done.
  set (g1 := laid g player_index card_index card).
  assert (wf g1) as Hwf1 by by apply wf_laid.
  destruct (resolve_spec g1 r card Hwf1)
    as (g2 & r2 & s & Hres & Hwf2 & Hna & Hn2 & Ha2 & Hrank).
  exists (set_current_player s g2), r2. split_and!; try done.
  - change (active_card g2 = Some card). rewrite Ha2.
    unfold active_card, g1, laid. simpl. by rewrite last_snoc.
  - intros H7. rewrite bool_decide_eq_false_2 in Hrank by done.
    destruct Hrank as (Hp2 & _). exact Hp2.
  - intros H7 Hd. destruct (resolve_plain g1 r card Hwf1 H7 Hd) as (s' & Hplain).
    rewrite Hplain in Hres.
    pose proof (f_equal (λ x, match x with
                              | Ok (_, g0, r0) => Some (draw_pile g0, discard_pile g0, r0)
                              | Raise _ => None
                              end) Hres) as Hproj.
    simpl in Hproj. injection Hproj as Hd' Hx' Hr'.
    change (draw_pile g2 = draw_pile g ∧ discard_pile g2 = discard_pile g ++ [card] ∧ r2 = r).
    by rewrite <-Hd', <-Hx', <-Hr'.
Qed.

(** The queen of spades of the sample duel goes on the nine of diamonds. *)
Lemma play_card_lays_the_card_witness :
  ∃ g' r',
    play_card 0 1 examples.duel 0%nat = Ok (true, g', r') ∧
    active_card g' = Some (examples.c 12 "♠").
Proof.
  destruct (play_card_lays_the_card examples.duel 0%nat 0 1 (examples.c 12 "♠")
              examples.duel_wf) as (g' & r' & Hrun & Hactive & _); try by vm_compute.
  by exists g', r'.
Defined.

Section dealing.
Implicit Types (g : Game) (c : Card).

Lemma deal_seats_prefix g (m : nat) :
  foldl deal_one g (seq 0 m) =
    mkGame (num_players g)
      (imap (λ k h, if bool_decide (k < m)%nat
                    then h ++ option_list (draw_pile g !! k) else h) (players g))
      (drop m (draw_pile g)) (discard_pile g) (current_player g) (_card_cache g).
Proof.
  induction m as [|m IH].
  - simpl. destruct g. simpl. f_equal.
    apply list_eq. intros i. rewrite list_lookup_imap. by destruct (_ !! i).
  - rewrite seq_S, foldl_app, IH. simpl. unfold deal_one. simpl.
    destruct (draw_pile g !! m) as [c|] eqn:Hm.
    + rewrite (drop_S _ _ _ Hm). unfold set_players, set_draw_pile. simpl. f_equal.
      apply list_eq. intros i. rewrite list_lookup_alter, !list_lookup_imap.
      destruct (decide (m = i)) as [<-|Hne].
      * rewrite bool_decide_eq_false_2, bool_decide_eq_true_2 by lia. rewrite Hm.
        by destruct (players g !! m).
      * destruct (players g !! i); [|done]. simpl. f_equal.
        repeat case_bool_decide; try done; lia.
    + rewrite (drop_ge _ m), (drop_ge _ (S m))
        by (apply lookup_ge_None in Hm; lia).
      f_equal. apply list_eq. intros i. rewrite !list_lookup_imap.
      destruct (players g !! i); [|done]. simpl. f_equal.
      repeat case_bool_decide; try done; try lia.
      assert (i = m) as -> by lia. by rewrite Hm, app_nil_r.
Qed.

Lemma deal_round_spec g :
  deal_round g =
    mkGame (num_players g)
      (imap (λ k h, h ++ option_list (draw_pile g !! k)) (players g))
      (drop (length (players g)) (draw_pile g))
      (discard_pile g) (current_player g) (_card_cache g).
Proof.
  unfold deal_round. rewrite deal_seats_prefix. f_equal.
  apply list_eq. intros i. rewrite !list_lookup_imap.
  destruct (players g !! i) eqn:Hi; [|done]. simpl.
  by rewrite bool_decide_eq_true_2 by by eapply lookup_lt_Some.
Qed.

Lemma deal_rounds_spec g (rounds : nat) :
  foldl (λ g _, deal_round g) g (seq 0 rounds) =
    mkGame (num_players g)
      (imap (λ k h, h ++ dealt (length (players g)) (draw_pile g) rounds k) (players g))
      (drop (rounds * length (players g)) (draw_pile g))
      (discard_pile g) (current_player g) (_card_cache g).
Proof.
  induction rounds as [|j IH].
  - simpl. destruct g. simpl. f_equal.
    apply list_eq. intros i. rewrite list_lookup_imap.
    destruct (_ !! i); [|done]. simpl. by rewrite app_nil_r.
  - rewrite seq_S, foldl_app, IH. simpl. rewrite deal_round_spec. simpl.
    rewrite length_imap, drop_drop. f_equal.
    + apply list_eq. intros i. rewrite !list_lookup_imap.
      destruct (players g !! i); [|done]. simpl. f_equal.
      unfold dealt. rewrite seq_S, omap_app, <-app_assoc. f_equal. simpl.
      rewrite lookup_drop. by destruct (draw_pile g !! _).
    + f_equal. lia.
Qed.

Lemma deal_cards_spec {Rng : Type} g (r : Rng) :
  deal_cards g r =
    Ok (tt,
        mkGame (num_players g)
          (imap (λ k h, h ++ dealt (length (players g)) (draw_pile g) 5 k) (players g))
          (drop (5 * length (players g) + 1) (draw_pile g))
          (discard_pile g ++ option_list (draw_pile g !! (5 * length (players g))%nat))
          (current_player g) (_card_cache g),
        r).
Proof.
  unfold deal_cards. rewrite bind_modify, bind_get, deal_rounds_spec.
  cbn [draw_pile].
  destruct (draw_pile g !! (5 * length (players g))%nat) as [c|] eqn:Hc.
  - rewrite (drop_S _ _ _ Hc). rewrite bind_modify. unfold modify. simpl.
    do 3 f_equal. by rewrite Nat.add_1_r.
  - rewrite (drop_ge _ (5 * _)) by (apply lookup_ge_None in Hc; lia).
    unfold ret. simpl. rewrite app_nil_r.
    by rewrite drop_ge by (apply lookup_ge_None in Hc; lia).
Qed.

End dealing.

(** X5. [deal_cards] deals round robin and never raises: in each of five
    rounds every seat in turn takes the head of the stock while there is
    one, so seat [k] of [n] gets the cards at places [k], [n + k], ...,
    [4n + k] of the stock that exist; the card at place [5n], if any, opens
    the discard pile and the stock keeps what follows. *)
Theorem deal_cards_round_robin {Rng : Type} (g : Game) (r : Rng) :
  ∃ g',
    deal_cards g r = Ok (tt, g', r) ∧
    length (players g') = length (players g) ∧
    (∀ (k : nat) h,
       players g !! k = Some h →
       players g' !! k =
         Some (h ++ dealt (length (players g)) (draw_pile g) 5 k)) ∧
    discard_pile g' =
      discard_pile g ++ option_list (draw_pile g !! (5 * length (players g))%nat) ∧
    draw_pile g' = drop (5 * length (players g) + 1) (draw_pile g) ∧
    (∀ (k : nat),
       (5 * length (players g) < length (draw_pile g))%nat →
       (k < length (players g))%nat →
       length (dealt (length (players g)) (draw_pile g) 5 k) = 5%nat).
Proof.
  eexists. split; [apply deal_cards_spec|]. simpl. split_and!; try done.
  - by rewrite length_imap.
  - intros k h Hk. by rewrite list_lookup_imap, Hk.
  - intros k Hstock Hk. unfold dealt.
    assert (∀ l, Forall (λ j, j < 5)%nat l →
              length (omap (λ j, draw_pile g !! (j * length (players g) + k)%nat) l)
              = length l) as Hall.
    { induction 1 as [|j l Hj _ IH]; [done|]. simpl.
      destruct (lookup_lt_is_Some_2 (draw_pile g) (j * length (players g) + k))
        as [c Hc]; [nia|]. rewrite Hc. simpl. f_equal. exact IH. }
    rewrite Hall; [done|]. apply Forall_seq. lia.
Qed.

(** X6. [create_deck] builds each card once: after the first call on a new
    cache the cache holds the 32 cards of the deck, a later call leaves the
    cache as it is, and every call makes the stock a shuffle of the whole
    deck without looking at hands or discard pile. *)
Theorem create_deck_repeatable {Rng : Type} `{!Random Rng} (g : Game) (r : Rng) :
  _card_cache g = [] →
  ∃ g1 r1 g2 r2,
    create_deck g r = Ok (tt, g1, r1) ∧
    create_deck g1 r1 = Ok (tt, g2, r2) ∧
    (_card_cache g1).*2 = deck ∧
    _card_cache g2 = _card_cache g1 ∧
    draw_pile g1 = (random_shuffle deck r).1 ∧
    draw_pile g2 = (random_shuffle deck r1).1 ∧
    players g2 = players g ∧ discard_pile g2 = discard_pile g ∧
    current_player g2 = current_player g.
Proof.
  intros Hcache. unfold create_deck. rewrite bind_get, Hcache, bind_modify.
  set (cache := foldl _ [] suits).
  assert (cache.*2 = deck) as Hdeck by (by vm_compute).
  assert (foldl (λ cache suit, foldl (cache_card suit) cache values) cache suits = cache)
    as Hagain by (by vm_compute).
  clearbody cache.
  unfold bind at 1, shuffle at 1. rewrite Hdeck.
  destruct (random_shuffle deck r) as [pile r1] eqn:Hsh.
  destruct (random_shuffle deck r1) as [pile2 r2] eqn:Hsh2.
  eexists _, r1, _, r2. split; [reflexivity|].
  rewrite bind_get. cbn [_card_cache set_card_cache set_draw_pile]. rewrite Hagain, bind_modify.
  unfold bind, shuffle. cbn [_card_cache set_card_cache set_draw_pile]. rewrite Hdeck, Hsh2.
  split; [reflexivity|].
  cbn [_card_cache draw_pile players discard_pile current_player
       set_card_cache set_draw_pile].
  split_and!; solve [exact Hdeck | reflexivity].
Qed.

(** A new game of two, with the reversing shuffle. *)
Lemma create_deck_repeatable_witness :
  ∃ g1 r1 g2 r2,
    create_deck (__init__ 2) 0%nat = Ok (tt, g1, r1) ∧
    create_deck g1 r1 = Ok (tt, g2, r2) ∧
    (_card_cache g1).*2 = deck ∧
    _card_cache g2 = _card_cache g1.
Proof.
  destruct (create_deck_repeatable (__init__ 2) 0%nat eq_refl)
    as (g1 & r1 & g2 & r2 & H1 & H2 & H3 & H4 & _).
  exists g1, r1, g2, r2. split_and!; assumption.
Defined.

(** ** The turn while the round is on *)

Section turn_properties.
Context {Rng : Type} `{!Random Rng}.

Lemma truthy_filter_nil (l : list (list Card)) :
  Forall (λ h, h = []) l → filter (λ player, truthy player = true) l = [].
Proof.
  induction 1 as [|h l -> _ IH]; [done|].
  rewrite filter_cons_False; [done | by simpl].
Qed.

(** When every seat but [c] is empty, at most one hand counts. *)
Lemma lone_seat_game_over g c :
  (∀ (t : nat) h, t ≠ c → players g !! t = Some h → h = []) →
  check_game_over g = true.
Proof.
  intros Hempty. unfold check_game_over. apply bool_decide_eq_true_2.
  rewrite <- (take_drop c (players g)), filter_app, length_app.
  rewrite truthy_filter_nil.
  2:{ apply Forall_forall. intros h Hh. apply list_elem_of_lookup in Hh as [t Ht].
      pose proof (lookup_lt_Some _ _ _ Ht) as Hlt. rewrite length_take in Hlt.
      rewrite lookup_take_lt in Ht by lia. apply (Hempty t); [lia | done]. }
  destruct (drop c (players g)) as [|x rest] eqn:Hdrop; [simpl; lia|].
  assert (filter (λ player, truthy player = true) rest = []) as Hrest.
  { apply truthy_filter_nil, Forall_forall. intros h Hh.
    apply list_elem_of_lookup in Hh as [t Ht].
    apply (Hempty (c + S t)%nat); [lia|].
    rewrite <- lookup_drop, Hdrop. done. }
  destruct (decide (truthy x = true)).
  - rewrite filter_cons_True, Hrest by done. simpl. lia.
  - rewrite filter_cons_False, Hrest by done. simpl. lia.
Qed.

Lemma round_on_some_hand g :
  check_game_over g = false → Exists (λ h, h ≠ []) (players g).
Proof.
  intros Hon. apply not_Forall_Exists; [apply _|]. intros Hall.
  unfold check_game_over in Hon. apply bool_decide_eq_false_1 in Hon.
  apply Hon. rewrite truthy_filter_nil; [simpl; lia|].
  eapply Forall_impl; [exact Hall|]. intros h Hh. by destruct (decide (h = [])).
Qed.

Lemma next_turn_round_on g (r : Rng) :
  wf g → 0 ≤ current_player g < num_players g → check_game_over g = false →
  ∃ s, next_turn g r = Ok (tt, set_current_player s g, r) ∧ next_active g s ∧
       0 ≤ s < num_players g ∧ s ≠ current_player g ∧ hand g s ≠ [].
Proof.
  intros Hwf Hc Hon. destruct (next_turn_spec g r Hwf) as (s & Hrun & Hs).
  exists s. split_and!; try done; try (by eapply next_active_range).
  - intros ->. pose proof (next_active_self g Hwf Hc Hs) as Hothers.
    rewrite (lone_seat_game_over g (Z.to_nat (current_player g))) in Hon; [done|].
    intros t h Ht Hh. specialize (Hothers (Z.of_nat t)).
    unfold hand in Hothers. rewrite Nat2Z.id, Hh in Hothers. apply Hothers; [|lia].
    apply lookup_lt_Some in Hh. destruct Hwf. lia.
  - by apply next_active_nonempty, round_on_some_hand.
Qed.

Lemma next_turn_round_over g (r : Rng) :
  wf g → 0 ≤ current_player g < num_players g → check_game_over g = true →
  hand g (current_player g) ≠ [] →
  next_turn g r = Ok (tt, g, r).
Proof.
  intros Hwf Hc Hover Hhand. destruct (next_turn_spec g r Hwf) as (s & Hrun & Hs).
  assert (s = current_player g) as ->.
  { destruct (decide (s = current_player g)) as [|Hne]; [done|]. exfalso.
    assert (hand g s ≠ []) as Hs'.
    { apply next_active_nonempty; [done|]. apply Exists_exists.
      exists (hand g (current_player g)). split; [|done].
      apply list_elem_of_lookup. exists (Z.to_nat (current_player g)).
      by apply wf_seat. }
    pose proof (next_active_range g s Hwf Hs) as Hr.
    unfold check_game_over in Hover. apply bool_decide_eq_true_1 in Hover.
    (* two different seats hold cards *)
    assert (∀ (l : list (list Card)) (i j : nat) hi hj,
              (i < j)%nat → l !! i = Some hi → l !! j = Some hj → hi ≠ [] → hj ≠ [] →
              (2 ≤ length (filter (λ player, truthy player = true) l))%nat) as Htwo.
    { clear. intros l i j hi hj Hij Hi Hj Hni Hnj.
      rewrite <- (take_drop j l), filter_app, length_app.
      assert (hi ∈ filter (λ player, truthy player = true) (take j l)) as H1.
      { apply list_elem_of_filter. split; [by destruct hi|].
        apply list_elem_of_lookup. exists i. by rewrite lookup_take_lt. }
      assert (hj ∈ filter (λ player, truthy player = true) (drop j l)) as H2.
      { apply list_elem_of_filter. split; [by destruct hj|].
        apply list_elem_of_lookup. exists 0%nat. by rewrite lookup_drop, Nat.add_0_r. }
      destruct (filter _ (take j l)); [by apply elem_of_nil in H1|].
      destruct (filter _ (drop j l)); [by apply elem_of_nil in H2|]. simpl. lia. }
    pose proof (wf_seat g s Hwf Hr) as Hsl.
    pose proof (wf_seat g (current_player g) Hwf Hc) as Hcl.
    destruct (Z.lt_total s (current_player g)) as [Hlt|[?|Hlt]]; [|done|].
    - assert (Z.to_nat s < Z.to_nat (current_player g))%nat as Hij by lia.
      specialize (Htwo _ _ _ _ _ Hij Hsl Hcl Hs' Hhand). lia.
    - assert (Z.to_nat (current_player g) < Z.to_nat s)%nat as Hij by lia.
      specialize (Htwo _ _ _ _ _ Hij Hcl Hsl Hhand Hs'). lia. }
  rewrite Hrun. by destruct g.
Qed.

End turn_properties.

(** X7. While the round is on (two seats or more hold cards),
    [next_turn] always hands the turn to another seat, and that seat holds
    cards; once it is over and the seat holding the turn has the last
    cards, [next_turn] changes nothing. *)
Theorem next_turn_moves_on {Rng : Type} `{!Random Rng} (g : Game) (r : Rng) :
  wf g → 0 ≤ current_player g < num_players g →
  (check_game_over g = false →
   ∃ s, next_turn g r = Ok (tt, set_current_player s g, r) ∧ next_active g s ∧
        0 ≤ s < num_players g ∧ s ≠ current_player g ∧ hand g s ≠ []) ∧
  (check_game_over g = true → hand g (current_player g) ≠ [] →
   next_turn g r = Ok (tt, g, r)).
Proof.
  intros Hwf Hc. split.
  - by apply next_turn_round_on.
  - by apply next_turn_round_over.
Qed.

(** In the sample duel the turn passes from seat 0 to seat 1. *)
Lemma next_turn_moves_on_witness :
  ∃ s, next_turn examples.duel 0%nat = Ok (tt, set_current_player s examples.duel, 0%nat) ∧
       s ≠ current_player examples.duel ∧ hand examples.duel s ≠ [].
Proof.
  destruct (next_turn_moves_on examples.duel 0%nat examples.duel_wf) as [Hon _].
  { vm_compute. split; [discriminate | reflexivity]. }
  destruct (Hon eq_refl) as (s & H1 & _ & _ & H2 & H3).
  exists s. split_and!; assumption.
Defined.

(** ** Rooms: creating, joining, starting *)

Section room_properties.
Context {Rng : Type}.

(** [free_slot] finds the lowest empty seat. *)
Lemma free_slot_some room (slot : nat) :
  free_slot room = Some slot ↔
  GameRoom.players room !! slot = Some None ∧
  ∀ (j : nat), (j < slot)%nat → ∃ pl, GameRoom.players room !! j = Some (Some pl).
Proof.
  unfold free_slot. split.
  - intros Hfind. apply fmap_Some in Hfind as ([k x] & Hfind & ->).
    apply list_find_Some in Hfind as (Hk & -> & Hbefore). split; [done|].
    intros j Hj. destruct (lookup_lt_is_Some_2 (GameRoom.players room) j) as [y Hy].
    { apply lookup_lt_Some in Hk. simpl in *. lia. }
    destruct y as [pl|]; [by exists pl|]. by destruct (Hbefore j None Hy Hj).
  - intros [Hslot Hbefore]. apply fmap_Some. exists (slot, None). split; [|done].
    apply list_find_Some. split_and!; [done..|].
    intros j y Hy Hj. destruct (Hbefore j Hj) as [pl Hpl]. congruence.
Qed.

Lemma free_slot_none room : free_slot room = None ↔ is_full room = true.
Proof.
  unfold free_slot, is_full. rewrite fmap_None, list_find_None, <- Is_true_true, forallb_True, !Forall_forall.
  split; intros Hall x Hx; specialize (Hall x Hx).
  - by apply bool_decide_pack.
  - by apply bool_decide_unpack in Hall.
Qed.

Lemma join_room_refused s (r : Rng) sock room_id player_name :
  (∀ rid room,
     room_id = Some rid →
     RoomManager.rooms (MultiRoomServer.rooms s) !! rid = Some room →
     is_full room = true ∨ is_Some (GameRoom.game room) ∨ GameRoom.game_ended room = true) →
  join_room sock room_id player_name s r = Ok (None, s, r).
Proof.
  intros Hclosed. unfold join_room. rewrite bind_get.
  destruct room_id as [rid|]; [|done]. simpl.
  destruct (RoomManager.rooms (MultiRoomServer.rooms s) !! rid) as [room|] eqn:Hroom; [|done].
  simpl. destruct (Hclosed rid room eq_refl Hroom) as [->|[Hgame| ->]]; [done| |].
  - rewrite (bool_decide_eq_true_2 _ Hgame). by rewrite orb_true_r.
  - by rewrite orb_true_r.
Qed.

Lemma join_room_open s (r : Rng) sock rid room player_name :
  RoomManager.rooms (MultiRoomServer.rooms s) !! rid = Some room →
  is_full room = false → GameRoom.game room = None → GameRoom.game_ended room = false →
  ∃ slot : nat,
    free_slot room = Some slot ∧
    join_room sock (Some rid) player_name s r =
      Ok (Some (Z.of_nat slot),
          MultiRoomServer.set_rooms
            (λ rm, RoomManager.mk
                     (<[rid := seated sock player_name slot room]> (RoomManager.rooms rm))
                     (<[sock := rid]> (RoomManager.client_rooms rm))) s,
          r).
Proof.
  intros Hroom Hfull Hgame Hended.
  destruct (free_slot room) as [slot|] eqn:Hslot.
  2:{ apply free_slot_none in Hslot. congruence. }
  exists slot. split; [done|].
  unfold join_room. rewrite bind_get. simpl. rewrite Hroom. simpl.
  rewrite Hfull, Hgame, Hended, Hslot.
  rewrite bool_decide_eq_false_2 by (by intros [? ?]). simpl.
  erewrite bind_ok; [|by eapply on_room_ok].
  rewrite bind_modify. unfold ret. destruct s as [lb [rooms crooms] names log].
  unfold MultiRoomServer.set_rooms. simpl. reflexivity.
Qed.

End room_properties.

(** X8. [join_room] seats a connection exactly in a room that is known,
    has an empty seat, no game and no ended game: it then takes the lowest
    empty seat, records the name under that seat and maps the connection to
    the room.  In every other case it returns [None] and changes
    nothing. *)
Theorem join_room_contract {Rng : Type} (s : MultiRoomServer.t) (r : Rng)
    (sock : socket) (room_id : option string) (player_name : string) :
  (∀ rid room,
     room_id = Some rid →
     RoomManager.rooms (MultiRoomServer.rooms s) !! rid = Some room →
     is_full room = false → GameRoom.game room = None → GameRoom.game_ended room = false →
     ∃ slot : nat,
       GameRoom.players room !! slot = Some None ∧
       (∀ j : nat, (j < slot)%nat → ∃ pl, GameRoom.players room !! j = Some (Some pl)) ∧
       join_room sock room_id player_name s r =
         Ok (Some (Z.of_nat slot),
             MultiRoomServer.set_rooms
               (λ rm, RoomManager.mk
                        (<[rid := seated sock player_name slot room]> (RoomManager.rooms rm))
                        (<[sock := rid]> (RoomManager.client_rooms rm))) s,
             r) ∧
       occupied (seated sock player_name slot room) = occupied room + 1) ∧
  ((∀ rid room,
      room_id = Some rid →
      RoomManager.rooms (MultiRoomServer.rooms s) !! rid = Some room →
      is_full room = true ∨ is_Some (GameRoom.game room) ∨ GameRoom.game_ended room = true) →
   join_room sock room_id player_name s r = Ok (None, s, r)).
Proof.
  split; [|apply join_room_refused].
  intros rid room -> Hroom Hfull Hgame Hended.
  destruct (join_room_open s r sock rid room player_name Hroom Hfull Hgame Hended)
    as (slot & Hslot & Hrun).
  apply free_slot_some in Hslot as [Hslot Hbefore].
  exists slot. split_and!; try done.
  unfold occupied, seated. simpl.
  rewrite <- (take_drop_middle _ _ _ Hslot) at 2.
  rewrite insert_take_drop by (by eapply lookup_lt_Some).
  rewrite !filter_app, !length_app. rewrite filter_cons_True by (by eexists).
  rewrite (filter_cons_False _ None) by (by intros [? ?]). simpl. lia.
Qed.

Section room_creation.
Context {Rng : Type}.

Lemma GameRoom__init__seats room_id room_name sock creator_name max_players :
  1 ≤ max_players →
  GameRoom__init__ room_id room_name (Player.mk sock creator_name 0) max_players =
    new_room room_id room_name sock creator_name max_players.
Proof.
  intros Hmax. unfold GameRoom__init__, _add_player, free_slot, new_room.
  destruct (Z.to_nat max_players) as [|n] eqn:Hn; [lia|]. simpl.
  unfold GameRoom.set_sockets, set_player_names, GameRoom.set_players. simpl.
  rewrite Nat.sub_0_r. f_equal. apply union_empty_r_L.
Qed.

Lemma create_room_refused s (r : Rng) sock room_name creator_name max_players room_id :
  MAX_ROOMS ≤ Z.of_nat (size (RoomManager.rooms (MultiRoomServer.rooms s)))
  ∨ ¬ 2 ≤ max_players ≤ MAX_PLAYERS_PER_ROOM →
  create_room sock room_name creator_name max_players room_id s r = Ok (None, s, r).
Proof.
  intros Hno. unfold create_room. rewrite bind_get.
  case_bool_decide; [done|]. destruct Hno as [?|Hno]; [done|].
  by rewrite (bool_decide_eq_false_2 _ Hno).
Qed.

Lemma create_room_made s (r : Rng) sock room_name creator_name max_players room_id :
  Z.of_nat (size (RoomManager.rooms (MultiRoomServer.rooms s))) < MAX_ROOMS →
  2 ≤ max_players ≤ MAX_PLAYERS_PER_ROOM →
  create_room sock room_name creator_name max_players room_id s r =
    Ok (Some room_id,
        MultiRoomServer.set_rooms
          (λ rm, RoomManager.mk
                   (<[room_id := new_room room_id room_name sock creator_name max_players]>
                      (RoomManager.rooms rm))
                   (<[sock := room_id]> (RoomManager.client_rooms rm))) s,
        r).
Proof.
  intros Hrooms Hmax. unfold create_room. rewrite bind_get.
  rewrite bool_decide_eq_false_2 by lia. rewrite (bool_decide_eq_true_2 _ Hmax).
  cbn [negb]. cbv zeta. rewrite bind_modify.
  by rewrite GameRoom__init__seats by lia.
Qed.

Lemma new_room_waits room_id room_name sock creator_name max_players :
  2 ≤ max_players →
  occupied (new_room room_id room_name sock creator_name max_players) = 1 ∧
  is_full (new_room room_id room_name sock creator_name max_players) = false ∧
  is_empty (new_room room_id room_name sock creator_name max_players) = false ∧
  can_start_game (new_room room_id room_name sock creator_name max_players) = false ∧
  Z.of_nat (length (GameRoom.players
                      (new_room room_id room_name sock creator_name max_players)))
    = max_players.
Proof.
  intros Hmax.
  assert (occupied (new_room room_id room_name sock creator_name max_players) = 1) as Hocc.
  { unfold occupied, new_room. cbn [GameRoom.players].
    rewrite filter_cons_True by (by eexists).
    assert (∀ m, filter is_Some (replicate m (@None Player.t)) = []) as Hnone.
    { intros m. induction m as [|m IH]; [done|]. simpl.
      rewrite filter_cons_False; [done | by intros [? ?]]. }
    by rewrite Hnone. }
  split_and!.
  - done.
  - unfold is_full, new_room. cbn [GameRoom.players].
    destruct (Z.to_nat max_players - 1)%nat as [|n] eqn:Hn; [lia|]. done.
  - done.
  - unfold can_start_game. rewrite Hocc.
    by rewrite bool_decide_eq_false_2 by (cbn [new_room GameRoom.max_players]; lia).
  - unfold new_room. cbn [GameRoom.players length]. rewrite length_replicate. lia.
Qed.

End room_creation.

(** X9. [create_room] refuses (returns [None], nothing changes) when the
    table already has [MAX_ROOMS] rooms or the size is outside 2..4;
    otherwise it stores a room of that size with the creator alone at
    seat 0, no game, and maps the creator's connection to it.  Such a room
    is never full and cannot start, and the table never grows beyond
    [MAX_ROOMS]. *)
Theorem create_room_contract {Rng : Type} (s : MultiRoomServer.t) (r : Rng)
    (sock : socket) (room_name creator_name : string) (max_players : Z)
    (room_id : string) :
  (MAX_ROOMS ≤ Z.of_nat (size (RoomManager.rooms (MultiRoomServer.rooms s)))
   ∨ ¬ 2 ≤ max_players ≤ MAX_PLAYERS_PER_ROOM →
   create_room sock room_name creator_name max_players room_id s r = Ok (None, s, r)) ∧
  (Z.of_nat (size (RoomManager.rooms (MultiRoomServer.rooms s))) < MAX_ROOMS →
   2 ≤ max_players ≤ MAX_PLAYERS_PER_ROOM →
   create_room sock room_name creator_name max_players room_id s r =
     Ok (Some room_id,
         MultiRoomServer.set_rooms
           (λ rm, RoomManager.mk
                    (<[room_id := new_room room_id room_name sock creator_name max_players]>
                       (RoomManager.rooms rm))
                    (<[sock := room_id]> (RoomManager.client_rooms rm))) s,
         r) ∧
   occupied (new_room room_id room_name sock creator_name max_players) = 1 ∧
   is_full (new_room room_id room_name sock creator_name max_players) = false ∧
   can_start_game (new_room room_id room_name sock creator_name max_players) = false ∧
   Z.of_nat (length (GameRoom.players
                       (new_room room_id room_name sock creator_name max_players)))
     = max_players ∧
   Z.of_nat (size (<[room_id := new_room room_id room_name sock creator_name max_players]>
                     (RoomManager.rooms (MultiRoomServer.rooms s)))) ≤ MAX_ROOMS).
Proof.
  split; [apply create_room_refused|]. intros Hrooms Hmax.
  destruct (new_room_waits room_id room_name sock creator_name max_players)
    as (Hocc & Hfull & _ & Hstart & Hlen); [lia|].
  split_and!; try done; [by apply create_room_made|].
  destruct (RoomManager.rooms (MultiRoomServer.rooms s) !! room_id) eqn:Hid.
  - rewrite map_size_insert_Some by done. lia.
  - rewrite map_size_insert_None by done. lia.
Qed.

Section room_start.
Context {Rng : Type} `{!Random Rng}.

Lemma on_game_seq {A B} (m1 : M Rng Game A) (m2 : M Rng Game B) room (r : Rng) g :
  GameRoom.game room = Some g →
  (on_game m1 ;;; on_game m2) room r = on_game (m1 ;;; m2) room r.
Proof.
  intros Hg. unfold bind, on_game. rewrite Hg.
  destruct (m1 g r) as [[[a g1] r1]|ex]; [|done]. simpl.
  destruct (m2 g1 r1) as [[[b g2] r2]|ex]; done.
Qed.

Lemma dealt_length (n : nat) (stock : list Card) (rounds k : nat) :
  (rounds * n ≤ length stock)%nat → (k < n)%nat →
  length (dealt n stock rounds k) = rounds.
Proof.
  intros Hstock Hk. unfold dealt.
  assert (∀ l, Forall (λ j, j < rounds)%nat l →
               length (omap (λ j, stock !! (j * n + k)%nat) l) = length l) as Hall.
  { induction 1 as [|j l Hj _ IH]; [done|]. simpl.
    destruct (lookup_lt_is_Some_2 stock (j * n + k)) as [c Hc]; [nia|].
    rewrite Hc. simpl. f_equal. exact IH. }
  rewrite Hall; [by rewrite length_seq|]. apply Forall_seq. lia.
Qed.

Lemma full_hands_round_on g :
  wf g → Forall (λ h, length h = 5%nat) (players g) → check_game_over g = false.
Proof.
  intros [Hlen Hn] Hfive. unfold check_game_over. apply bool_decide_eq_false_2.
  assert (filter (λ player, truthy player = true) (players g) = players g) as ->; [|lia].
  clear Hlen. induction Hfive as [|h l Hh _ IH]; [done|].
  rewrite filter_cons_True by (by destruct h). by rewrite IH.
Qed.

Lemma start_deal (n : Z) (r : Rng) :
  permutes Rng → 2 ≤ n ≤ MAX_PLAYERS_PER_ROOM →
  ∃ g r', (create_deck ;;; deal_cards) (__init__ n) r = Ok (tt, g, r') ∧ wf g ∧
          num_players g = n ∧ current_player g = 0 ∧ all_cards g ≡ₚ deck ∧
          Forall (λ h, length h = 5%nat) (players g) ∧
          length (discard_pile g) = 1%nat ∧
          Z.of_nat (length (draw_pile g)) = 31 - 5 * n.
Proof.
  intros Hperm Hn. destruct (start_conserves n r Hperm) as (g & r' & Hrun & Hwf & Hall).
  exists g, r'. split; [done|]. split; [done|].
  destruct (create_deck_fresh (__init__ n) r eq_refl)
    as (g1 & Hdeck & Hpl & Hnum & Hdisc & Hcur & Hpile).
  pose proof (deal_cards_spec g1 (random_shuffle deck r).2) as Hdeal.
  remember (5 * length (players g1))%nat as five eqn:Hfive in Hdeal.
  unfold bind in Hrun. rewrite Hdeck, Hdeal in Hrun.
  injection Hrun as <- _. subst five.
  assert (length (draw_pile g1) = 32%nat) as Hlen.
  { rewrite Hpile, (Permutation_length (Hperm deck r)). by vm_compute. }
  assert (length (players g1) = Z.to_nat n) as Hseats.
  { rewrite Hpl. unfold __init__. cbn [players]. rewrite length_replicate. lia. }
  unfold MAX_PLAYERS_PER_ROOM in Hn.
  cbn [num_players current_player players discard_pile draw_pile].
  split_and!.
  - rewrite Hnum. unfold __init__. cbn [num_players]. lia.
  - by rewrite Hcur.
  - done.
  - apply Forall_forall. intros h Hh. apply list_elem_of_lookup in Hh as [k Hk].
    rewrite list_lookup_imap in Hk.
    destruct (players g1 !! k) as [h0|] eqn:Hk0; [|done]. simpl in Hk.
    injection Hk as <-.
    assert (h0 = []) as ->.
    { rewrite Hpl in Hk0. unfold __init__ in Hk0. cbn [players] in Hk0.
      by apply lookup_replicate in Hk0 as [-> _]. }
    rewrite app_nil_l. apply dealt_length; [lia|]. by eapply lookup_lt_Some.
  - rewrite Hdisc. unfold __init__. cbn [discard_pile]. rewrite app_nil_l.
    destruct (lookup_lt_is_Some_2 (draw_pile g1) (5 * length (players g1))) as [c Hc]; [lia|].
    by rewrite Hc.
  - rewrite length_drop. lia.
Qed.

Lemma start_game_run room (r : Rng) :
  can_start_game room = true →
  ∃ g r',
    (create_deck ;;; deal_cards) (__init__ (GameRoom.max_players room)) r = Ok (tt, g, r') ∧
    start_game room r =
      Ok (true,
          GameRoom.set_disconnected (λ _, ∅)
            (GameRoom.set_finish_order (λ _, [])
               (GameRoom.set_game (λ _, Some g) room)),
          r').
Proof.
  intros Hcan. unfold start_game. rewrite bind_get, Hcan, bind_modify.
  destruct (create_deck_fresh (__init__ (GameRoom.max_players room)) r eq_refl)
    as (g1 & Hdeck & _).
  pose proof (deal_cards_spec g1 (random_shuffle deck r).2) as Hdeal.
  erewrite (bind_ok (on_game create_deck)); [|eapply on_game_ok; [reflexivity|exact Hdeck]].
  erewrite (bind_ok (on_game deal_cards)); [|eapply on_game_ok; [reflexivity|exact Hdeal]].
  rewrite !bind_modify. unfold ret.
  eexists _, _. split; [unfold bind; by rewrite Hdeck, Hdeal|]. reflexivity.
Qed.

End room_start.

(** X10. [start_game] starts a round exactly when every seat is taken,
    the room has no game and no round has ended in it.  It then deals a new
    game with one hand per seat: five cards each, one card on the discard
    pile, the rest in stock, all 32 cards of the deck, seat 0 to play and a
    round that is not over; finish order and disconnected set are
    cleared.  Otherwise it returns [False] and changes nothing, so a room
    whose round has ended never starts again. *)
Theorem start_game_deals {Rng : Type} `{!Random Rng} (room : GameRoom.t) (r : Rng) :
  permutes Rng →
  2 ≤ GameRoom.max_players room ≤ MAX_PLAYERS_PER_ROOM →
  (can_start_game room = true →
   ∃ g r',
     start_game room r =
       Ok (true,
           GameRoom.set_disconnected (λ _, ∅)
             (GameRoom.set_finish_order (λ _, [])
                (GameRoom.set_game (λ _, Some g) room)),
           r') ∧
     wf g ∧ num_players g = GameRoom.max_players room ∧ current_player g = 0 ∧
     all_cards g ≡ₚ deck ∧
     Forall (λ h, length h = 5%nat) (players g) ∧
     length (discard_pile g) = 1%nat ∧
     Z.of_nat (length (draw_pile g)) = 31 - 5 * GameRoom.max_players room ∧
     check_game_over g = false) ∧
  (can_start_game room = false → start_game room r = Ok (false, room, r)) ∧
  (GameRoom.game_ended room = true → start_game room r = Ok (false, room, r)).
Proof.
  intros Hperm Hmax. split_and!.
  - intros Hcan. destruct (start_game_run room r Hcan) as (g & r' & Hdeal & Hrun).
    destruct (start_deal (GameRoom.max_players room) r Hperm Hmax)
      as (g0 & r0 & Hdeal0 & Hwf & Hnum & Hcur & Hall & Hfive & Hdisc & Hstock).
    rewrite Hdeal in Hdeal0. injection Hdeal0 as <- <-.
    exists g, r'. split_and!; try done. by apply full_hands_round_on.
  - intros Hcan. unfold start_game. by rewrite bind_get, Hcan.
  - intros Hended. unfold start_game, can_start_game.
    by rewrite bind_get, Hended, andb_false_r.
Qed.

(** A room of two with both seats taken, as [join_room] leaves it. *)
Lemma start_game_deals_witness :
  ∃ g r',
    start_game
      (seated 11 "Boris" 1 (new_room "room-3" "Pivnica" 10 "Anna" 2)) 0%nat =
      Ok (true,
          GameRoom.set_disconnected (λ _, ∅)
            (GameRoom.set_finish_order (λ _, [])
               (GameRoom.set_game (λ _, Some g)
                  (seated 11 "Boris" 1 (new_room "room-3" "Pivnica" 10 "Anna" 2)))),
          r') ∧
    wf g ∧ all_cards g ≡ₚ deck ∧ Forall (λ h, length h = 5%nat) (players g) ∧
    Z.of_nat (length (draw_pile g)) = 21.
Proof.
  destruct (start_game_deals
              (seated 11 "Boris" 1 (new_room "room-3" "Pivnica" 10 "Anna" 2)) 0%nat
              examples.reversing_permutes) as [Hstart _].
  { vm_compute. split; discriminate. }
  destruct (Hstart eq_refl) as (g & r' & H1 & H2 & _ & _ & H3 & H4 & _ & H5 & _).
  exists g, r'. split_and!; assumption.
Defined.

(** ** The end of a round, and the listing of rooms *)

Section round_end.
Context {Rng : Type}.

Lemma end_game_nothing s (r : Rng) room_id :
  (RoomManager.rooms (MultiRoomServer.rooms s) !! room_id = None
   ∨ ∃ room, RoomManager.rooms (MultiRoomServer.rooms s) !! room_id = Some room ∧
             GameRoom.game room = None) →
  end_game room_id s r = Ok (tt, s, r).
Proof.
  intros Hno. unfold end_game. rewrite bind_get.
  destruct Hno as [->|(room & -> & ->)]; done.
Qed.

Lemma available_rooms_spec (rooms : gmap string GameRoom.t) info :
  info ∈ get_available_rooms_info rooms ↔
  ∃ rid room, rooms !! rid = Some room ∧ GameRoom.game room = None ∧
              GameRoom.game_ended room = false ∧ info = get_room_info room.
Proof.
  unfold get_available_rooms_info. rewrite list_elem_of_fmap. split.
  - intros (room & -> & Hin). apply list_elem_of_filter in Hin as [[Hg He] Hin].
    apply list_elem_of_fmap in Hin as ([rid room'] & -> & Hin).
    apply elem_of_map_to_list in Hin. by exists rid, room'.
  - intros (rid & room & Hroom & Hg & He & ->). exists room. split; [done|].
    apply list_elem_of_filter. split; [done|].
    apply list_elem_of_fmap. exists (rid, room). split; [done|].
    by apply elem_of_map_to_list.
Qed.

Lemma available_rooms_length (rooms : gmap string GameRoom.t) :
  (length (get_available_rooms_info rooms) ≤ size rooms)%nat.
Proof.
  unfold get_available_rooms_info. rewrite length_fmap.
  etransitivity; [apply length_filter|].
  by rewrite length_fmap, length_map_to_list.
Qed.

End round_end.

(** X11. [end_game] ends a round once.  On a room with a game it sends one
    [go] message to each socket of the room, drops the game, marks the room
    as ended and clears the finish order, leaving seats, sockets and the
    connection table alone; a second call then changes nothing and sends
    nothing, and so does a call for an unknown room or a room without a
    game. *)
Theorem end_game_once {Rng : Type} (s : MultiRoomServer.t) (r : Rng) (room_id : string) :
  (∀ room g,
     RoomManager.rooms (MultiRoomServer.rooms s) !! room_id = Some room →
     GameRoom.game room = Some g →
     GameRoom.max_players room ≤ Z.of_nat (length (players g)) →
     ∃ s1 room1 w results,
       end_game room_id s r = Ok (tt, s1, r) ∧
       RoomManager.rooms (MultiRoomServer.rooms s1) !! room_id = Some room1 ∧
       GameRoom.game room1 = None ∧ GameRoom.game_ended room1 = true ∧
       GameRoom.finish_order room1 = [] ∧
       GameRoom.players room1 = GameRoom.players room ∧
       GameRoom.sockets room1 = GameRoom.sockets room ∧
       RoomManager.client_rooms (MultiRoomServer.rooms s1)
         = RoomManager.client_rooms (MultiRoomServer.rooms s) ∧
       MultiRoomServer.sent s1 =
         MultiRoomServer.sent s ++
           ((., server_msg.go w results (GameRoom.player_names room))
              <$> elements (GameRoom.sockets room)) ∧
       (get_room_info room1 ∉
          get_available_rooms_info (RoomManager.rooms (MultiRoomServer.rooms s1))) ∧
       ∀ r' : Rng, end_game room_id s1 r' = Ok (tt, s1, r')) ∧
  (RoomManager.rooms (MultiRoomServer.rooms s) !! room_id = None
   ∨ (∃ room, RoomManager.rooms (MultiRoomServer.rooms s) !! room_id = Some room ∧
              GameRoom.game room = None) →
   end_game room_id s r = Ok (tt, s, r)).
Proof.
  split; [|apply end_game_nothing].
  intros room g Hroom Hgame Hseats.
  pose proof (end_game_run s r room_id room g Hroom Hgame Hseats) as Hrun.
  eexists _, _, _, _. split; [exact Hrun|].
  cbn [MultiRoomServer.rooms MultiRoomServer.set_rooms MultiRoomServer.set_sent
       RoomManager.rooms RoomManager.client_rooms MultiRoomServer.sent].
  rewrite lookup_insert_eq. split_and!; try reflexivity.
  - intros Hin. apply available_rooms_spec in Hin as (rid & room' & _ & Hg & He & Hinfo).
    apply (f_equal info_in_game) in Hinfo. unfold get_room_info in Hinfo.
    cbn [info_in_game GameRoom.game GameRoom.game_ended GameRoom.set_game
         GameRoom.set_game_ended GameRoom.set_last_game_state
         GameRoom.set_finish_order] in Hinfo.
    rewrite Hg, He in Hinfo. by rewrite orb_true_r in Hinfo.
  - intros r'. apply end_game_nothing. right. eexists. split; [apply lookup_insert_eq|done].
Qed.

(** X12. A [refresh_rooms] request changes nothing and is answered by one
    [room_list] message to the sender: it lists exactly the rooms of the
    table that have no game and no ended round, each with [in_game] false,
    and counts all rooms of the table, listed or not. *)
Theorem refresh_rooms_reply {Rng : Type} (s : MultiRoomServer.t) (r : Rng) (sock : socket) :
  ∃ infos,
    handle_lobby_message sock client_msg.refresh_rooms s r =
      Ok (tt,
          MultiRoomServer.set_sent
            (λ log, log ++
               [(sock, server_msg.room_list infos MAX_ROOMS
                         (Z.of_nat (size (RoomManager.rooms (MultiRoomServer.rooms s)))))])
            s,
          r) ∧
    (∀ info, info ∈ infos ↔
       ∃ rid room,
         RoomManager.rooms (MultiRoomServer.rooms s) !! rid = Some room ∧
         GameRoom.game room = None ∧ GameRoom.game_ended room = false ∧
         info = get_room_info room) ∧
    Forall (λ info, info_in_game info = false) infos ∧
    (length infos ≤ size (RoomManager.rooms (MultiRoomServer.rooms s)))%nat.
Proof.
  exists (get_available_rooms_info (RoomManager.rooms (MultiRoomServer.rooms s))).
  split_and!.
  - reflexivity.
  - apply available_rooms_spec.
  - apply Forall_forall. intros info Hin.
    apply available_rooms_spec in Hin as (rid & room & _ & Hg & He & ->).
    unfold get_room_info. cbn. by rewrite Hg, He.
  - apply available_rooms_length.
Qed.

(** ** Requests of a seated connection *)

Section room_requests.
Context {Rng : Type} `{!Random Rng}.

Lemma set_game_id room g :
  GameRoom.game room = Some g → GameRoom.set_game (λ _, Some g) room = room.
Proof. destruct room. simpl. by intros ->. Qed.

(** A method of the game that fails without a trace leaves the server as
    it is. *)
Lemma on_room_game_kept {A} (m : M Rng Game A) s (r : Rng) room_id room g a :
  RoomManager.rooms (MultiRoomServer.rooms s) !! room_id = Some room →
  GameRoom.game room = Some g →
  m g r = Ok (a, g, r) →
  on_room room_id (on_game m) s r = Ok (a, s, r).
Proof.
  intros Hroom Hgame Hrun.
  erewrite on_room_ok; [|exact Hroom|eapply on_game_ok; [exact Hgame|exact Hrun]].
  by rewrite (set_game_id _ _ Hgame), (set_rooms_id _ _ _ Hroom).
Qed.

(** The dispatch of [handle_room_message] for a connection in a room with
    a game. *)
Lemma handle_room_message_game s (r : Rng) sock (message : ClientMessage) room_id room g :
  RoomManager.client_rooms (MultiRoomServer.rooms s) !! sock = Some room_id →
  RoomManager.rooms (MultiRoomServer.rooms s) !! room_id = Some room →
  GameRoom.game room = Some g →
  message ≠ client_msg.leave_room →
  handle_room_message sock message s r =
    (let player_slot := slot_of sock room in
     let my_turn := bool_decide (player_slot = current_player g) in
     match message with
     | client_msg.p ci =>
         if my_turn then
           let card_index := default (-1) ci in
           played <- on_room room_id (on_game (play_card player_slot card_index)) ;;
           if played : bool then
             on_room room_id
               (g <- on_game get ;;
                hand <- getitem (players g) player_slot ;;
                room <- get ;;
                if negb (truthy hand)
                   && negb (bool_decide (player_slot ∈ GameRoom.finish_order room))
                then modify (GameRoom.set_finish_order (λ fo, fo ++ [player_slot]))
                else ret tt) ;;;
             _broadcast_game_state room_id
           else send_message sock (server_msg.e "Invalid card play") ;;; ret tt
         else send_message sock (server_msg.e "Invalid action or not your turn") ;;; ret tt
     | client_msg.d =>
         if my_turn then
           drawn <- on_room room_id (on_game (draw_card player_slot)) ;;
           if drawn : bool then
             on_room room_id (on_game next_turn) ;;;
             _broadcast_game_state room_id
           else send_message sock (server_msg.e "Cannot draw card: draw pile empty") ;;; ret tt
         else send_message sock (server_msg.e "Invalid action or not your turn") ;;; ret tt
     | _ => send_message sock (server_msg.e "Invalid action or not your turn") ;;; ret tt
     end) s r.
Proof.
  intros Hsock Hroom Hgame Hmsg. unfold handle_room_message.
  rewrite bind_get, Hsock. cbn [mbind option_bind]. rewrite Hroom.
  cbn [fmap option_fmap option_map]. rewrite Hgame.
  by destruct message.
Qed.

Lemma play_card_refused g (r : Rng) player_index card_index :
  wf g →
  ¬ (0 ≤ player_index < num_players g ∧
     0 ≤ card_index < Z.of_nat (length (hand g player_index)))
  ∨ (∃ card, 0 ≤ player_index < num_players g ∧ 0 ≤ card_index ∧
             hand g player_index !! Z.to_nat card_index = Some card ∧
             playable card (active_card g) = false) →
  play_card player_index card_index g r = Ok (false, g, r).
Proof.
  intros Hwf [Hout|(card & Hp & Hc & Hcard & Hno)].
  - by apply play_card_out_of_range.
  - by rewrite (play_card_in_range g r _ _ card), Hno.
Qed.

Lemma draw_card_nothing_left g (r : Rng) player_index :
  draw_pile g = [] → (length (discard_pile g) ≤ 1)%nat →
  draw_card player_index g r = Ok (false, g, r).
Proof.
  intros Hstock Hpile. unfold draw_card. rewrite bind_get.
  case_bool_decide; [|done]. cbn [negb]. rewrite Hstock. cbn [truthy negb].
  erewrite bind_ok; [|by apply refresh_small].
  by rewrite bind_get, Hstock.
Qed.

End room_requests.

(** X13. A request that a room with a game refuses leaves the server as it
    is but for one error message to the sender: a request out of turn or
    of a type that is no move gets [Invalid action or not your turn]; a
    play in turn whose card index is missing, out of range or names a card
    that does not fit the active card gets [Invalid card play]; a draw in
    turn with an empty stock and nothing to refill it from gets
    [Cannot draw card: draw pile empty]. *)
Theorem room_request_refused {Rng : Type} `{!Random Rng} (s : MultiRoomServer.t) (r : Rng)
    (sock : socket) (message : ClientMessage) (room_id : string)
    (room : GameRoom.t) (g : Game) :
  RoomManager.client_rooms (MultiRoomServer.rooms s) !! sock = Some room_id →
  RoomManager.rooms (MultiRoomServer.rooms s) !! room_id = Some room →
  GameRoom.game room = Some g → wf g →
  (message ≠ client_msg.leave_room →
   slot_of sock room ≠ current_player g
   ∨ (message ≠ client_msg.d ∧ ∀ ci, message ≠ client_msg.p ci) →
   handle_room_message sock message s r =
     Ok (tt,
         MultiRoomServer.set_sent
           (λ log, log ++ [(sock, server_msg.e "Invalid action or not your turn")]) s,
         r)) ∧
  (∀ ci,
     message = client_msg.p ci → slot_of sock room = current_player g →
     ¬ (0 ≤ current_player g < num_players g ∧
        0 ≤ default (-1) ci < Z.of_nat (length (hand g (current_player g))))
     ∨ (∃ card, 0 ≤ current_player g < num_players g ∧ 0 ≤ default (-1) ci ∧
                hand g (current_player g) !! Z.to_nat (default (-1) ci) = Some card ∧
                playable card (active_card g) = false) →
     handle_room_message sock message s r =
       Ok (tt,
           MultiRoomServer.set_sent
             (λ log, log ++ [(sock, server_msg.e "Invalid card play")]) s,
           r)) ∧
  (message = client_msg.d → slot_of sock room = current_player g →
   draw_pile g = [] → (length (discard_pile g) ≤ 1)%nat →
   handle_room_message sock message s r =
     Ok (tt,
         MultiRoomServer.set_sent
           (λ log, log ++ [(sock, server_msg.e "Cannot draw card: draw pile empty")]) s,
         r)).
Proof.
  intros Hsock Hroom Hgame Hwf. split_and!.
  - intros Hmsg Hno.
    rewrite (handle_room_message_game s r sock message room_id room g) by done.
    cbv zeta. destruct Hno as [Hturn|[Hd Hp]].
    + rewrite (bool_decide_eq_false_2 _ Hturn). by destruct message.
    + destruct message as [| |ci| | |]; try done. by destruct (Hp ci).
  - intros ci -> Hturn Hbad.
    rewrite (handle_room_message_game s r sock _ room_id room g) by done.
    cbv zeta. rewrite (bool_decide_eq_true_2 _ Hturn), Hturn.
    erewrite bind_ok; [|eapply on_room_game_kept; [done..|by apply play_card_refused]].
    reflexivity.
  - intros -> Hturn Hstock Hpile.
    rewrite (handle_room_message_game s r sock _ room_id room g) by done.
    cbv zeta. rewrite (bool_decide_eq_true_2 _ Hturn), Hturn.
    erewrite bind_ok; [|eapply on_room_game_kept; [done..|by apply draw_card_nothing_left]].
    reflexivity.
Qed.

(** Boris, at seat 1 of the sample room, plays while Anna holds the
    turn. *)
Lemma room_request_refused_witness :
  handle_room_message 11%nat (client_msg.p (Some 0)) examples.tavern 0%nat =
    Ok (tt,
        MultiRoomServer.set_sent
          (λ log, log ++ [(11%nat, server_msg.e "Invalid action or not your turn")])
          examples.tavern,
        0%nat).
Proof.
  refine (proj1 (room_request_refused examples.tavern 0%nat 11%nat (client_msg.p (Some 0))
                   "room-1" examples.trio examples.trio_game
                   eq_refl eq_refl eq_refl examples.trio_game_wf) _ _).
  - discriminate.
  - left. vm_compute. discriminate.
Defined.

Section room_moves.
Context {Rng : Type} `{!Random Rng}.

Lemma put_room_twice s room_id room1 room2 :
  MultiRoomServer.set_rooms
    (λ rm, RoomManager.mk (<[room_id := room2]> (RoomManager.rooms rm))
                          (RoomManager.client_rooms rm))
    (MultiRoomServer.set_rooms
       (λ rm, RoomManager.mk (<[room_id := room1]> (RoomManager.rooms rm))
                             (RoomManager.client_rooms rm)) s) =
  MultiRoomServer.set_rooms
    (λ rm, RoomManager.mk (<[room_id := room2]> (RoomManager.rooms rm))
                          (RoomManager.client_rooms rm)) s.
Proof.
  destruct s as [lb [rooms crooms] names log]. unfold MultiRoomServer.set_rooms.
  simpl. by rewrite insert_insert_eq.
Qed.

Lemma put_room_lookup s room_id room1 :
  RoomManager.rooms
    (MultiRoomServer.rooms
       (MultiRoomServer.set_rooms
          (λ rm, RoomManager.mk (<[room_id := room1]> (RoomManager.rooms rm))
                                (RoomManager.client_rooms rm)) s)) !! room_id = Some room1.
Proof. simpl. apply lookup_insert_eq. Qed.

(** [_broadcast_game_state] on a room with a game: the state is stored in
    the room and sent to each of its sockets. *)
Lemma broadcast_game_state_run s (r : Rng) room_id room g :
  RoomManager.rooms (MultiRoomServer.rooms s) !! room_id = Some room →
  GameRoom.game room = Some g →
  _broadcast_game_state room_id s r =
    Ok (tt,
        MultiRoomServer.set_sent
          (λ log, log ++ ((., server_msg.gs (serialize g) (GameRoom.player_names room))
                            <$> elements (GameRoom.sockets room)))
          (MultiRoomServer.set_rooms
             (λ rm, RoomManager.mk
                      (<[room_id :=
                           GameRoom.set_last_game_state
                             (Some (serialize g, GameRoom.player_names room)) room]>
                         (RoomManager.rooms rm))
                      (RoomManager.client_rooms rm)) s),
        r).
Proof.
  intros Hroom Hgame. unfold _broadcast_game_state.
  erewrite bind_ok; [|by apply on_room_get]. rewrite Hgame. cbv zeta.
  erewrite bind_ok; [|eapply on_room_ok; [exact Hroom|reflexivity]].
  cbn [fst snd].
  erewrite broadcast_to_room_ok; [|apply put_room_lookup]. reflexivity.
Qed.

Lemma set_finish_order_id room :
  GameRoom.set_finish_order (λ _, GameRoom.finish_order room) room = room.
Proof. by destruct room. Qed.

(** The block of [handle_room_message] that records a seat that has
    played its last card. *)
Lemma record_finish room (r : Rng) g (slot : Z) :
  GameRoom.game room = Some g → wf g → 0 ≤ slot < num_players g →
  (g <- on_game get ;;
   hand <- getitem (players g) slot ;;
   room <- get ;;
   if negb (truthy hand) && negb (bool_decide (slot ∈ GameRoom.finish_order room))
   then modify (GameRoom.set_finish_order (λ fo, fo ++ [slot]))
   else ret tt) room r =
  Ok (tt,
      GameRoom.set_finish_order (λ _, finished g slot (GameRoom.finish_order room)) room,
      r).
Proof.
  intros Hgame Hwf Hslot.
  erewrite bind_ok; [|eapply on_game_ok; [exact Hgame|reflexivity]].
  rewrite (set_game_id _ _ Hgame).
  erewrite bind_ok; [|apply getitem_in_range; [lia|by apply wf_seat]].
  rewrite bind_get. unfold finished.
  destruct (hand g slot) as [|c hand'] eqn:Hhand; cbn [truthy negb andb].
  - case_bool_decide as Hin.
    + rewrite bool_decide_eq_false_2 by (by intros [_ ?]). cbn [negb].
      by rewrite set_finish_order_id.
    + by rewrite bool_decide_eq_true_2.
  - rewrite bool_decide_eq_false_2 by (by intros [? _]).
    by rewrite set_finish_order_id.
Qed.

Lemma finished_NoDup g slot fo : NoDup fo → NoDup (finished g slot fo).
Proof.
  intros Hfo. unfold finished. case_bool_decide as Hc; [|done].
  destruct Hc as [_ Hnew]. apply NoDup_app. split_and!; [done| |apply NoDup_singleton].
  intros x Hx Hx'. apply list_elem_of_singleton in Hx' as ->. done.
Qed.

Lemma resolve_wf g1 (r : Rng) card g' r' :
  wf g1 → resolve card g1 r = Ok (true, g', r') →
  wf g' ∧ num_players g' = num_players g1.
Proof.
  intros Hwf Hrun. destruct (resolve_spec g1 r card Hwf)
    as (g2 & r2 & t & Hres & Hwf2 & _ & Hn & _).
  rewrite Hres in Hrun. injection Hrun as <- <-. split; [|done].
  destruct Hwf2. by split.
Qed.

Lemma draw_card_true_inv g (r : Rng) player_index g1 r1 :
  wf g → draw_card player_index g r = Ok (true, g1, r1) →
  0 ≤ player_index < num_players g ∧ wf g1 ∧ num_players g1 = num_players g ∧
  current_player g1 = current_player g ∧
  ∃ card, players g1 = <[Z.to_nat player_index := hand g player_index ++ [card]]> (players g).
Proof.
  intros Hwf Hrun. unfold draw_card in Hrun. rewrite bind_get in Hrun.
  case_bool_decide as Hp; [|done]. cbn [negb] in Hrun. split; [done|].
  destruct (maybe_refresh_frame g r true) as (g0 & r0 & Hre & Hpl & Hn & Hc & _).
  rewrite andb_true_r in Hre. erewrite bind_ok in Hrun; [|exact Hre].
  rewrite bind_get in Hrun.
  destruct (draw_pile g0) as [|card rest] eqn:Hstock; [done|].
  rewrite bind_modify in Hrun.
  assert (wf (set_draw_pile (λ _, rest) g0)) as Hwf0.
  { destruct Hwf. split; cbn [set_draw_pile players num_players]; congruence. }
  erewrite bind_ok in Hrun; [|apply hand_append_ok; [exact Hwf0|]].
  2:{ cbn [set_draw_pile num_players]. by rewrite Hn. }
  injection Hrun as <- <-.
  split_and!.
  - apply wf_set_players; [|done]. intros l. apply length_insert.
  - done.
  - done.
  - exists card. unfold hand. cbn [set_players set_draw_pile players]. by rewrite Hpl.
Qed.

End room_moves.

(** X14. A play in turn that [play_card] accepts updates the room's game,
    adds the seat to the finish order exactly when its hand is now empty and
    it is not listed yet (so the finish order never repeats a seat), stores
    the new state as the room's last state and sends it to every socket of
    the room.  With every send succeeding, as the model has it, nothing else
    on the server changes; in the code a socket whose send fails is taken
    out of the room by [broadcast_to_room]. *)
Theorem play_request_accepted {Rng : Type} `{!Random Rng} (s : MultiRoomServer.t) (r : Rng)
    (sock : socket) (ci : option Z) (room_id : string) (room : GameRoom.t)
    (g g' : Game) (r' : Rng) :
  RoomManager.client_rooms (MultiRoomServer.rooms s) !! sock = Some room_id →
  RoomManager.rooms (MultiRoomServer.rooms s) !! room_id = Some room →
  GameRoom.game room = Some g → wf g →
  slot_of sock room = current_player g →
  play_card (current_player g) (default (-1) ci) g r = Ok (true, g', r') →
  handle_room_message sock (client_msg.p ci) s r =
    Ok (tt,
        MultiRoomServer.set_sent
          (λ log, log ++ ((., server_msg.gs (serialize g') (GameRoom.player_names room))
                            <$> elements (GameRoom.sockets room)))
          (MultiRoomServer.set_rooms
             (λ rm, RoomManager.mk
                      (<[room_id :=
                           GameRoom.set_last_game_state
                             (Some (serialize g', GameRoom.player_names room))
                             (GameRoom.set_finish_order
                                (λ _, finished g' (current_player g)
                                               (GameRoom.finish_order room))
                                (GameRoom.set_game (λ _, Some g') room))]>
                         (RoomManager.rooms rm))
                      (RoomManager.client_rooms rm)) s),
        r') ∧
  (NoDup (GameRoom.finish_order room) →
   NoDup (finished g' (current_player g) (GameRoom.finish_order room))) ∧
  (hand g' (current_player g) ≠ [] →
   finished g' (current_player g) (GameRoom.finish_order room) = GameRoom.finish_order room).
Proof.
  intros Hsock Hroom Hgame Hwf Hturn Hplay. split_and!.
  - rewrite (handle_room_message_game s r sock _ room_id room g) by done.
    cbv zeta. rewrite (bool_decide_eq_true_2 _ Hturn), Hturn.
    destruct (play_card_true_inv g r _ _ g' r' Hwf Hplay)
      as (card & Hp & _ & _ & _ & Hres).
    destruct (resolve_wf _ r card g' r' (wf_laid g _ _ card Hwf) Hres) as [Hwf' Hn'].
    erewrite bind_ok; [|eapply on_room_ok; [exact Hroom|]; eapply on_game_ok; [exact Hgame|exact Hplay]].
    cbv beta iota. erewrite bind_ok.
    2:{ eapply on_room_ok; [apply put_room_lookup|].
        apply (record_finish _ _ g'); [done|done|].
        rewrite Hn'. cbn [laid set_discard_pile set_players num_players]. done. }
    rewrite put_room_twice.
    erewrite broadcast_game_state_run; [|apply put_room_lookup|reflexivity].
    by rewrite put_room_twice.
  - apply finished_NoDup.
  - intros Hhand. unfold finished. by rewrite bool_decide_eq_false_2 by (by intros [? _]).
Qed.

(** Anna, at seat 0 of the sample room, plays the nine of hearts on the
    nine of diamonds. *)
Lemma play_request_accepted_witness :
  handle_room_message 10%nat (client_msg.p (Some 0)) examples.tavern 0%nat =
    Ok (tt,
        MultiRoomServer.set_sent
          (λ log, log ++ ((., server_msg.gs (serialize examples.trio_after_nine)
                                (GameRoom.player_names examples.trio))
                            <$> elements (GameRoom.sockets examples.trio)))
          (MultiRoomServer.set_rooms
             (λ rm, RoomManager.mk
                      (<["room-1" :=
                           GameRoom.set_last_game_state
                             (Some (serialize examples.trio_after_nine,
                                    GameRoom.player_names examples.trio))
                             (GameRoom.set_finish_order
                                (λ _, finished examples.trio_after_nine 0
                                               (GameRoom.finish_order examples.trio))
                                (GameRoom.set_game (λ _, Some examples.trio_after_nine)
                                   examples.trio))]>
                         (RoomManager.rooms rm))
                      (RoomManager.client_rooms rm)) examples.tavern),
        0%nat).
Proof.
  refine (proj1 (play_request_accepted examples.tavern 0%nat 10%nat (Some 0)
                   "room-1" examples.trio examples.trio_game examples.trio_after_nine
                   0%nat eq_refl eq_refl eq_refl examples.trio_game_wf _ _)).
  - reflexivity.
  - vm_compute. reflexivity.
Defined.

(** X15. A draw in turn that [draw_card] accepts gives the seat one card
    and then passes the turn to the next active seat; the new state is
    stored as the room's last state and sent to every socket of the room.
    With every send succeeding, as the model has it, nothing else on the
    server changes; in the code a socket whose send fails is taken out of
    the room by [broadcast_to_room]. *)
Theorem draw_request_accepted {Rng : Type} `{!Random Rng} (s : MultiRoomServer.t) (r : Rng)
    (sock : socket) (room_id : string) (room : GameRoom.t) (g g1 : Game) (r1 : Rng) :
  RoomManager.client_rooms (MultiRoomServer.rooms s) !! sock = Some room_id →
  RoomManager.rooms (MultiRoomServer.rooms s) !! room_id = Some room →
  GameRoom.game room = Some g → wf g →
  slot_of sock room = current_player g →
  draw_card (current_player g) g r = Ok (true, g1, r1) →
  ∃ t card,
    next_active g1 t ∧
    players g1 =
      <[Z.to_nat (current_player g) := hand g (current_player g) ++ [card]]> (players g) ∧
    hand g1 t ≠ [] ∧
    handle_room_message sock client_msg.d s r =
      Ok (tt,
          MultiRoomServer.set_sent
            (λ log, log ++ ((., server_msg.gs (serialize (set_current_player t g1))
                                  (GameRoom.player_names room))
                              <$> elements (GameRoom.sockets room)))
            (MultiRoomServer.set_rooms
               (λ rm, RoomManager.mk
                        (<[room_id :=
                             GameRoom.set_last_game_state
                               (Some (serialize (set_current_player t g1),
                                      GameRoom.player_names room))
                               (GameRoom.set_game (λ _, Some (set_current_player t g1)) room)]>
                           (RoomManager.rooms rm))
                        (RoomManager.client_rooms rm)) s),
          r1).
Proof.
  intros Hsock Hroom Hgame Hwf Hturn Hdraw.
  destruct (draw_card_true_inv g r _ g1 r1 Hwf Hdraw)
    as (Hp & Hwf1 & Hn1 & Hc1 & card & Hpl).
  destruct (next_turn_spec g1 r1 Hwf1) as (t & Hnext & Ht).
  exists t, card. split_and!; [done|done| |].
  - apply next_active_nonempty; [done|]. rewrite Hpl. apply Exists_exists.
    exists (hand g (current_player g) ++ [card]). split; [|by destruct (hand g _)].
    apply list_elem_of_lookup. exists (Z.to_nat (current_player g)).
    apply list_lookup_insert_eq. destruct Hwf. lia.
  - rewrite (handle_room_message_game s r sock _ room_id room g) by done.
    cbv zeta. rewrite (bool_decide_eq_true_2 _ Hturn), Hturn.
    erewrite bind_ok; [|eapply on_room_ok; [exact Hroom|]; eapply on_game_ok; [exact Hgame|exact Hdraw]].
    cbv beta iota. erewrite bind_ok.
    2:{ eapply on_room_ok; [apply put_room_lookup|].
        eapply on_game_ok; [reflexivity|exact Hnext]. }
    rewrite put_room_twice.
    erewrite broadcast_game_state_run; [|apply put_room_lookup|reflexivity].
    by rewrite put_room_twice.
Qed.

(** Anna draws the ten of clubs; the turn passes to Boris. *)
Lemma draw_request_accepted_witness :
  ∃ t card,
    next_active
      (set_players <[0%nat := hand examples.trio_game 0 ++ [examples.c 10 "♣"]]>
         (set_draw_pile (λ _, [examples.c 11 "♣"]) examples.trio_game)) t ∧
    players
      (set_players <[0%nat := hand examples.trio_game 0 ++ [examples.c 10 "♣"]]>
         (set_draw_pile (λ _, [examples.c 11 "♣"]) examples.trio_game)) =
      <[0%nat := hand examples.trio_game 0 ++ [card]]> (players examples.trio_game).
Proof.
  destruct (draw_request_accepted examples.tavern 0%nat 10%nat "room-1" examples.trio
              examples.trio_game
              (set_players <[0%nat := hand examples.trio_game 0 ++ [examples.c 10 "♣"]]>
                 (set_draw_pile (λ _, [examples.c 11 "♣"]) examples.trio_game))
              0%nat eq_refl eq_refl eq_refl examples.trio_game_wf)
    as (t & card & H1 & H2 & _).
  - reflexivity.
  - vm_compute. reflexivity.
  - exists t, card. split; assumption.
Defined.

Section housekeeping.
Context {Rng : Type}.

Lemma housekeep_no_game s (r : Rng) room_id room :
  RoomManager.rooms (MultiRoomServer.rooms s) !! room_id = Some room →
  GameRoom.game room = None →
  housekeep room_id s r = Ok (tt, s, r).
Proof.
  intros Hroom Hgame. unfold housekeep.
  erewrite bind_ok; [|by apply on_room_get]. by rewrite Hgame.
Qed.

Lemma housekeep_round_on s (r : Rng) room_id room g :
  RoomManager.rooms (MultiRoomServer.rooms s) !! room_id = Some room →
  GameRoom.game room = Some g → wf g →
  0 ≤ current_player g < num_players g →
  hand g (current_player g) ≠ [] → check_game_over g = false →
  housekeep room_id s r =
    Ok (tt,
        if is_empty room then
          MultiRoomServer.set_rooms
            (λ rm, RoomManager.mk (delete room_id (RoomManager.rooms rm))
                                  (RoomManager.client_rooms rm)) s
        else s,
        r).
Proof.
  intros Hroom Hgame Hwf Hc Hhand Hon. unfold housekeep.
  erewrite bind_ok; [|by apply on_room_get]. rewrite Hgame. cbv zeta.
  erewrite bind_ok; [|apply getitem_in_range; [lia|by apply wf_seat]].
  rewrite bool_decide_eq_false_2 by (by destruct (hand g (current_player g))).
  cbn [andb]. rewrite bind_ret.
  erewrite bind_ok; [|by eapply on_room_game_get].
  rewrite Hon, bind_ret. by destruct (is_empty room).
Qed.

Lemma housekeep_skip s (r : Rng) room_id room g t :
  RoomManager.rooms (MultiRoomServer.rooms s) !! room_id = Some room →
  GameRoom.game room = Some g → wf g →
  0 ≤ current_player g < num_players g →
  hand g (current_player g) = [] → check_game_over g = false →
  next_turn g r = Ok (tt, set_current_player t g, r) →
  housekeep room_id s r =
    Ok (tt,
        (if is_empty room then
           MultiRoomServer.set_rooms
             (λ rm, RoomManager.mk (delete room_id (RoomManager.rooms rm))
                                   (RoomManager.client_rooms rm))
         else id)
          (MultiRoomServer.set_sent
             (λ log, log ++ ((., server_msg.gs (serialize (set_current_player t g))
                                   (GameRoom.player_names room))
                               <$> elements (GameRoom.sockets room)))
             (MultiRoomServer.set_rooms
                (λ rm, RoomManager.mk
                         (<[room_id :=
                              GameRoom.set_last_game_state
                                (Some (serialize (set_current_player t g),
                                       GameRoom.player_names room))
                                (GameRoom.set_game (λ _, Some (set_current_player t g)) room)]>
                            (RoomManager.rooms rm))
                         (RoomManager.client_rooms rm)) s)),
        r).
Proof.
  intros Hroom Hgame Hwf Hc Hhand Hon Hnext. unfold housekeep.
  erewrite bind_ok; [|by apply on_room_get]. rewrite Hgame. cbv zeta.
  erewrite bind_ok; [|apply getitem_in_range; [lia|by apply wf_seat]].
  rewrite Hhand, Hon. cbn [length negb]. rewrite bool_decide_eq_true_2 by done. cbn [andb].
  erewrite bind_ok.
  2:{ erewrite bind_ok.
      2:{ eapply on_room_ok; [exact Hroom|]. eapply on_game_ok; [exact Hgame|exact Hnext]. }
      erewrite broadcast_game_state_run; [|apply put_room_lookup|reflexivity].
      by rewrite put_room_twice. }
  erewrite bind_ok.
  2:{ eapply on_room_game_get; [simpl; apply lookup_insert_eq|reflexivity]. }
  change (check_game_over (set_current_player t g)) with (check_game_over g).
  rewrite Hon, bind_ret. by destruct (is_empty room).
Qed.

End housekeeping.

(** X16. The housekeeping pass on a room whose round is on: when the seat
    holding the turn has no cards, the turn is passed to the next active
    seat, which is another seat and holds cards, and the new state is sent
    to the room; when it has cards nothing is sent and the game is left
    alone.  In both cases a room without occupants is then deleted.  A room
    without a game is never touched, empty or not. *)
Theorem housekeep_skips_empty_seat {Rng : Type} (s : MultiRoomServer.t) (r : Rng)
    (room_id : string) (room : GameRoom.t) :
  RoomManager.rooms (MultiRoomServer.rooms s) !! room_id = Some room →
  (GameRoom.game room = None → housekeep room_id s r = Ok (tt, s, r)) ∧
  (∀ g,
     GameRoom.game room = Some g → wf g → 0 ≤ current_player g < num_players g →
     check_game_over g = false →
     (hand g (current_player g) ≠ [] →
      housekeep room_id s r =
        Ok (tt,
            if is_empty room then
              MultiRoomServer.set_rooms
                (λ rm, RoomManager.mk (delete room_id (RoomManager.rooms rm))
                                      (RoomManager.client_rooms rm)) s
            else s,
            r)) ∧
     (hand g (current_player g) = [] →
      ∃ t,
        next_active g t ∧ t ≠ current_player g ∧ hand g t ≠ [] ∧
        housekeep room_id s r =
          Ok (tt,
              (if is_empty room then
                 MultiRoomServer.set_rooms
                   (λ rm, RoomManager.mk (delete room_id (RoomManager.rooms rm))
                                         (RoomManager.client_rooms rm))
               else id)
                (MultiRoomServer.set_sent
                   (λ log, log ++ ((., server_msg.gs (serialize (set_current_player t g))
                                         (GameRoom.player_names room))
                                     <$> elements (GameRoom.sockets room)))
                   (MultiRoomServer.set_rooms
                      (λ rm, RoomManager.mk
                               (<[room_id :=
                                    GameRoom.set_last_game_state
                                      (Some (serialize (set_current_player t g),
                                             GameRoom.player_names room))
                                      (GameRoom.set_game
                                         (λ _, Some (set_current_player t g)) room)]>
                                  (RoomManager.rooms rm))
                               (RoomManager.client_rooms rm)) s)),
              r))).
Proof.
  intros Hroom. split; [by apply housekeep_no_game|].
  intros g Hgame Hwf Hc Hon. split.
  { intros Hhand. exact (housekeep_round_on s r room_id room g Hroom Hgame Hwf Hc Hhand Hon). }
  intros Hhand.
  destruct (next_turn_round_on g r Hwf Hc Hon) as (t & Hnext & Ht & _ & Hne & Hcards).
  exists t. split_and!; try done. by apply housekeep_skip.
Qed.

(** Cyril, who has no cards left, holds the turn in the sample room. *)
Lemma housekeep_skips_empty_seat_witness :
  ∃ t, next_active examples.idle_game t ∧ t ≠ current_player examples.idle_game ∧
       hand examples.idle_game t ≠ [].
Proof.
  destruct (housekeep_skips_empty_seat examples.idle_tavern 0%nat "room-1"
              (GameRoom.set_game (λ _, Some examples.idle_game) examples.trio) eq_refl)
    as [_ Hgame].
  destruct (Hgame examples.idle_game eq_refl) as [_ Hskip].
  - split; [reflexivity | vm_compute; discriminate].
  - vm_compute. split; [discriminate | reflexivity].
  - reflexivity.
  - destruct (Hskip eq_refl) as (t & H1 & H2 & H3 & _).
    exists t. split_and!; assumption.
Defined.

(** ** Leaving a room *)

Section leaving.
Context {Rng : Type}.

Lemma bind_assoc {Σ A B C} (m : M Rng Σ A) (f : A → M Rng Σ B) (k : B → M Rng Σ C) s r :
  bind (bind m f) k s r = bind m (λ x, bind (f x) k) s r.
Proof. unfold bind. by destruct (m s r) as [[[a s'] r']|]. Qed.

Lemma send_message_run s (r : Rng) sock (message : Message) :
  send_message sock message s r =
    Ok (true, MultiRoomServer.set_sent (λ log, log ++ [(sock, message)]) s, r).
Proof. reflexivity. Qed.

Lemma send_room_list_run s (r : Rng) sock :
  send_room_list sock s r =
    Ok (tt,
        MultiRoomServer.set_sent
          (λ log, log ++
             [(sock,
               server_msg.room_list
                 (get_available_rooms_info (RoomManager.rooms (MultiRoomServer.rooms s)))
                 MAX_ROOMS (Z.of_nat (size (RoomManager.rooms (MultiRoomServer.rooms s)))))])
          s,
        r).
Proof. reflexivity. Qed.

Lemma broadcast_run s (r : Rng) (message : Message) :
  broadcast message None s r =
    Ok (tt,
        MultiRoomServer.set_sent
          (λ log, log ++ ((., message)
                            <$> elements (LobbyManager.clients (MultiRoomServer.lobby s))))
          s,
        r).
Proof. unfold broadcast. rewrite bind_get. apply send_all_ok. Qed.

(** The tail of [leave_room]: back to the lobby. *)
Lemma back_to_lobby_run s (r : Rng) sock :
  (add_client sock ;;;
   send_message sock server_msg.back_to_lobby ;;;
   send_room_list sock ;;;
   s <- get ;;
   broadcast
     (server_msg.room_list_update
        (get_available_rooms_info (RoomManager.rooms (MultiRoomServer.rooms s))))
     None) s r =
  Ok (tt,
      MultiRoomServer.mk
        (LobbyManager.mk ({[sock]} ∪ LobbyManager.clients (MultiRoomServer.lobby s))
                         (LobbyManager.player_room_created (MultiRoomServer.lobby s)))
        (MultiRoomServer.rooms s) (MultiRoomServer.client_names s)
        (MultiRoomServer.sent s ++
           [(sock, server_msg.back_to_lobby);
            (sock,
             server_msg.room_list
               (get_available_rooms_info (RoomManager.rooms (MultiRoomServer.rooms s)))
               MAX_ROOMS (Z.of_nat (size (RoomManager.rooms (MultiRoomServer.rooms s)))))] ++
           ((., server_msg.room_list_update
                  (get_available_rooms_info (RoomManager.rooms (MultiRoomServer.rooms s))))
              <$> elements ({[sock]} ∪ LobbyManager.clients (MultiRoomServer.lobby s)))),
      r).
Proof.
  unfold add_client. rewrite bind_modify.
  erewrite bind_ok; [|apply send_message_run].
  erewrite bind_ok; [|apply send_room_list_run].
  rewrite bind_get, broadcast_run.
  destruct s as [[clients created] rm names log].
  unfold MultiRoomServer.set_sent, MultiRoomServer.set_lobby. simpl.
  by rewrite <- !app_assoc.
Qed.

Lemma leave_room_lobby s (r : Rng) sock :
  RoomManager.client_rooms (MultiRoomServer.rooms s) !! sock = None →
  leave_room sock s r =
    Ok (tt,
        MultiRoomServer.mk
          (LobbyManager.mk ({[sock]} ∪ LobbyManager.clients (MultiRoomServer.lobby s))
                           (LobbyManager.player_room_created (MultiRoomServer.lobby s)))
          (MultiRoomServer.rooms s) (MultiRoomServer.client_names s)
          (MultiRoomServer.sent s ++
             [(sock, server_msg.back_to_lobby);
              (sock,
               server_msg.room_list
                 (get_available_rooms_info (RoomManager.rooms (MultiRoomServer.rooms s)))
                 MAX_ROOMS (Z.of_nat (size (RoomManager.rooms (MultiRoomServer.rooms s)))))] ++
             ((., server_msg.room_list_update
                    (get_available_rooms_info (RoomManager.rooms (MultiRoomServer.rooms s))))
                <$> elements ({[sock]} ∪ LobbyManager.clients (MultiRoomServer.lobby s)))),
        r).
Proof.
  intros Hsock. unfold leave_room. rewrite bind_get, Hsock, bind_ret.
  apply back_to_lobby_run.
Qed.

Lemma leave_room_run s (r : Rng) sock room_id room (b : bool) room1 r1 :
  RoomManager.client_rooms (MultiRoomServer.rooms s) !! sock = Some room_id →
  RoomManager.rooms (MultiRoomServer.rooms s) !! room_id = Some room →
  remove_player sock room r = Ok (b, room1, r1) →
  leave_room sock s r =
    (let rooms' :=
       if is_empty room1 then delete room_id (RoomManager.rooms (MultiRoomServer.rooms s))
       else <[room_id := room1]> (RoomManager.rooms (MultiRoomServer.rooms s)) in
     Ok (tt,
         MultiRoomServer.mk
           (LobbyManager.mk
              ({[sock]} ∪ LobbyManager.clients (MultiRoomServer.lobby s))
              (if is_empty room1
               then delete (Player.name (GameRoom.creator room1))
                           (LobbyManager.player_room_created (MultiRoomServer.lobby s))
               else LobbyManager.player_room_created (MultiRoomServer.lobby s)))
           (RoomManager.mk rooms'
              (delete sock (RoomManager.client_rooms (MultiRoomServer.rooms s))))
           (MultiRoomServer.client_names s)
           (MultiRoomServer.sent s ++
              farewell (default "Unknown" (MultiRoomServer.client_names s !! sock)) room1 ++
              [(sock, server_msg.back_to_lobby);
               (sock, server_msg.room_list (get_available_rooms_info rooms') MAX_ROOMS
                        (Z.of_nat (size rooms')))] ++
              ((., server_msg.room_list_update (get_available_rooms_info rooms'))
                 <$> elements ({[sock]} ∪ LobbyManager.clients (MultiRoomServer.lobby s)))),
         r1)).
Proof.
  intros Hsock Hroom Hgone. unfold leave_room. rewrite bind_get, Hsock, Hroom. cbv beta iota zeta.
  rewrite ?bind_assoc.
  erewrite bind_ok; [|eapply on_room_ok; [exact Hroom|exact Hgone]].
  rewrite ?bind_assoc.
  erewrite bind_ok; [|apply on_room_get, put_room_lookup].
  rewrite ?bind_assoc.
  erewrite bind_ok; [|apply broadcast_to_room_ok, put_room_lookup].
  rewrite ?bind_assoc.
  erewrite (bind_ok _ _ _ _ tt
              (MultiRoomServer.set_sent
                 (λ log, log ++
                    match GameRoom.game room1 with
                    | Some g => (., server_msg.gs (serialize g) (GameRoom.player_names room1))
                                  <$> elements (GameRoom.sockets room1)
                    | None => []
                    end) _)).
  2:{ destruct (GameRoom.game room1) as [g|].
      - apply broadcast_to_room_ok. simpl. apply lookup_insert_eq.
      - unfold ret. f_equal. f_equal. f_equal.
        destruct s as [lb rm names log]. unfold MultiRoomServer.set_sent. simpl.
        by rewrite app_nil_r. }
  rewrite ?bind_assoc. unfold farewell.
  destruct s as [[clients created] [rooms crooms] names log].
  destruct (is_empty room1) eqn:Hempty.
  - rewrite bind_assoc, !bind_modify, back_to_lobby_run.
    unfold MultiRoomServer.set_sent, MultiRoomServer.set_lobby, MultiRoomServer.set_rooms.
    simpl. rewrite delete_insert_eq, <- !app_assoc. reflexivity.
  - rewrite bind_ret, bind_modify, back_to_lobby_run.
    unfold MultiRoomServer.set_sent, MultiRoomServer.set_lobby, MultiRoomServer.set_rooms.
    simpl. rewrite <- !app_assoc. reflexivity.
Qed.

End leaving.

(** X17. [leave_room] moves a connection to the lobby.  For a connection
    in no room only the lobby changes.  For a connection in a room, with
    [room1] the room as [remove_player] leaves it: the room is stored, or
    deleted together with its creator's flag when no seat is taken any
    more; the connection's room entry is dropped; [player_left] and, when
    a game is on, the game state go to the sockets of [room1], from which
    [remove_player] has taken a seated leaver; the leaver gets
    [back_to_lobby] and the room list; and every lobby connection, the
    leaver included, gets the updated list. *)
Theorem leave_room_effect {Rng : Type} (s : MultiRoomServer.t) (r : Rng) (sock : socket) :
  (RoomManager.client_rooms (MultiRoomServer.rooms s) !! sock = None →
   ∃ s',
     leave_room sock s r = Ok (tt, s', r) ∧
     MultiRoomServer.rooms s' = MultiRoomServer.rooms s ∧
     MultiRoomServer.client_names s' = MultiRoomServer.client_names s ∧
     LobbyManager.clients (MultiRoomServer.lobby s')
       = {[sock]} ∪ LobbyManager.clients (MultiRoomServer.lobby s) ∧
     LobbyManager.player_room_created (MultiRoomServer.lobby s')
       = LobbyManager.player_room_created (MultiRoomServer.lobby s) ∧
     MultiRoomServer.sent s' =
       MultiRoomServer.sent s ++
         [(sock, server_msg.back_to_lobby);
          (sock,
           server_msg.room_list
             (get_available_rooms_info (RoomManager.rooms (MultiRoomServer.rooms s)))
             MAX_ROOMS (Z.of_nat (size (RoomManager.rooms (MultiRoomServer.rooms s)))))] ++
         ((., server_msg.room_list_update
                (get_available_rooms_info (RoomManager.rooms (MultiRoomServer.rooms s))))
            <$> elements ({[sock]} ∪ LobbyManager.clients (MultiRoomServer.lobby s)))) ∧
  (∀ room_id room (b : bool) room1 r1,
     RoomManager.client_rooms (MultiRoomServer.rooms s) !! sock = Some room_id →
     RoomManager.rooms (MultiRoomServer.rooms s) !! room_id = Some room →
     remove_player sock room r = Ok (b, room1, r1) →
     ∃ s',
       leave_room sock s r = Ok (tt, s', r1) ∧
       RoomManager.rooms (MultiRoomServer.rooms s') =
         (if is_empty room1
          then delete room_id (RoomManager.rooms (MultiRoomServer.rooms s))
          else <[room_id := room1]> (RoomManager.rooms (MultiRoomServer.rooms s))) ∧
       RoomManager.client_rooms (MultiRoomServer.rooms s')
         = delete sock (RoomManager.client_rooms (MultiRoomServer.rooms s)) ∧
       MultiRoomServer.client_names s' = MultiRoomServer.client_names s ∧
       LobbyManager.clients (MultiRoomServer.lobby s')
         = {[sock]} ∪ LobbyManager.clients (MultiRoomServer.lobby s) ∧
       LobbyManager.player_room_created (MultiRoomServer.lobby s') =
         (if is_empty room1
          then delete (Player.name (GameRoom.creator room1))
                      (LobbyManager.player_room_created (MultiRoomServer.lobby s))
          else LobbyManager.player_room_created (MultiRoomServer.lobby s)) ∧
       MultiRoomServer.sent s' =
         MultiRoomServer.sent s ++
           farewell (default "Unknown" (MultiRoomServer.client_names s !! sock)) room1 ++
           [(sock, server_msg.back_to_lobby);
            (sock,
             server_msg.room_list
               (get_available_rooms_info (RoomManager.rooms (MultiRoomServer.rooms s')))
               MAX_ROOMS (Z.of_nat (size (RoomManager.rooms (MultiRoomServer.rooms s')))))] ++
           ((., server_msg.room_list_update
                  (get_available_rooms_info (RoomManager.rooms (MultiRoomServer.rooms s'))))
              <$> elements ({[sock]} ∪ LobbyManager.clients (MultiRoomServer.lobby s)))).
Proof.
  split.
  - intros Hsock. eexists. split; [by apply leave_room_lobby|]. by split_and!.
  - intros room_id room b room1 r1 Hsock Hroom Hgone.
    eexists. split; [by eapply leave_room_run|]. cbv zeta. by split_and!.
Qed.

Section disconnecting.
Context {Rng : Type}.

Lemma remove_client_run s (r : Rng) sock s1 r1 :
  (if bool_decide (is_Some (RoomManager.client_rooms (MultiRoomServer.rooms s) !! sock))
   then leave_room sock else ret tt) s r = Ok (tt, s1, r1) →
  _remove_client sock s r =
    Ok (tt,
        MultiRoomServer.mk
          (LobbyManager.mk (LobbyManager.clients (MultiRoomServer.lobby s1) ∖ {[sock]})
                           (LobbyManager.player_room_created (MultiRoomServer.lobby s1)))
          (MultiRoomServer.rooms s1)
          (delete sock (MultiRoomServer.client_names s1))
          (MultiRoomServer.sent s1 ++
             ((., server_msg.room_list_update
                    (get_available_rooms_info
                       (RoomManager.rooms (MultiRoomServer.rooms s1))))
                <$> elements (LobbyManager.clients (MultiRoomServer.lobby s1) ∖ {[sock]}))),
        r1).
Proof.
  intros Hleave. unfold _remove_client. rewrite bind_get.
  erewrite bind_ok; [|exact Hleave].
  unfold remove_client. rewrite !bind_modify, bind_get, broadcast_run.
  by destruct s1 as [[clients created] rm names log].
Qed.

End disconnecting.

(** X18. [_remove_client] forgets a connection (sends are modelled as
    succeeding).  A connection in a room first leaves it as [leave_room]
    does.  Afterwards the connection is in no registry: not among the
    lobby's clients, without a name, without a room; the other entries of
    these registries are as [leave_room] (or the state before, for a
    connection in no room) left them, and the updated room list goes to
    the lobby connections that remain. *)
Theorem remove_client_forgets {Rng : Type} (s : MultiRoomServer.t) (r : Rng) (sock : socket) :
  (RoomManager.client_rooms (MultiRoomServer.rooms s) !! sock = None →
   _remove_client sock s r =
     Ok (tt,
         MultiRoomServer.mk
           (LobbyManager.mk (LobbyManager.clients (MultiRoomServer.lobby s) ∖ {[sock]})
                            (LobbyManager.player_room_created (MultiRoomServer.lobby s)))
           (MultiRoomServer.rooms s)
           (delete sock (MultiRoomServer.client_names s))
           (MultiRoomServer.sent s ++
              ((., server_msg.room_list_update
                     (get_available_rooms_info
                        (RoomManager.rooms (MultiRoomServer.rooms s))))
                 <$> elements (LobbyManager.clients (MultiRoomServer.lobby s) ∖ {[sock]}))),
         r)) ∧
  (∀ room_id room (b : bool) room1 r1,
     RoomManager.client_rooms (MultiRoomServer.rooms s) !! sock = Some room_id →
     RoomManager.rooms (MultiRoomServer.rooms s) !! room_id = Some room →
     remove_player sock room r = Ok (b, room1, r1) →
     ∃ s1 s',
       leave_room sock s r = Ok (tt, s1, r1) ∧
       _remove_client sock s r = Ok (tt, s', r1) ∧
       LobbyManager.clients (MultiRoomServer.lobby s')
         = LobbyManager.clients (MultiRoomServer.lobby s) ∖ {[sock]} ∧
       MultiRoomServer.client_names s' = delete sock (MultiRoomServer.client_names s) ∧
       RoomManager.client_rooms (MultiRoomServer.rooms s')
         = delete sock (RoomManager.client_rooms (MultiRoomServer.rooms s)) ∧
       RoomManager.rooms (MultiRoomServer.rooms s')
         = RoomManager.rooms (MultiRoomServer.rooms s1) ∧
       MultiRoomServer.sent s' =
         MultiRoomServer.sent s1 ++
           ((., server_msg.room_list_update
                  (get_available_rooms_info
                     (RoomManager.rooms (MultiRoomServer.rooms s1))))
              <$> elements (LobbyManager.clients (MultiRoomServer.lobby s) ∖ {[sock]}))).
Proof.
  split.
  - intros Hsock. apply remove_client_run.
    rewrite Hsock, bool_decide_eq_false_2; [done | by intros [? ?]].
  - intros room_id room b room1 r1 Hsock Hroom Hgone.
    pose proof (leave_room_run s r sock room_id room b room1 r1 Hsock Hroom Hgone) as Hleave.
    cbv zeta in Hleave.
    assert (({[sock]} ∪ LobbyManager.clients (MultiRoomServer.lobby s)) ∖ {[sock]}
            = LobbyManager.clients (MultiRoomServer.lobby s) ∖ {[sock]}) as Hminus.
    { apply set_eq. intros x. rewrite !elem_of_difference, elem_of_union. tauto. }
    eexists _, _. split; [exact Hleave|]. split.
    + apply remove_client_run. rewrite Hsock, bool_decide_eq_true_2 by (by eexists).
      exact Hleave.
    + cbn [MultiRoomServer.lobby MultiRoomServer.rooms MultiRoomServer.client_names
           MultiRoomServer.sent LobbyManager.clients RoomManager.rooms
           RoomManager.client_rooms].
      rewrite Hminus. by split_and!.
Qed.

Section vacating.
Context {Rng : Type}.

Lemma remove_player_waiting room (r : Rng) sock (i : nat) pl :
  GameRoom.game room = None →
  GameRoom.players room !! i = Some (Some pl) → Player.sock pl = sock →
  Forall (λ player, seat_of sock player = false) (take i (GameRoom.players room)) →
  remove_player sock room r =
    Ok (true,
        GameRoom.set_sockets (λ ss, ss ∖ {[sock]})
          (GameRoom.set_players <[i := None]> room),
        r).
Proof.
  intros Hgame Hseat Hsock Hfirst. unfold remove_player. rewrite bind_get.
  rewrite <- (take_drop_middle _ _ _ Hseat) at 1.
  rewrite (remove_player_from_first sock room r 0 _ pl _ Hfirst Hsock).
  rewrite length_take_le by (apply lookup_lt_Some in Hseat; lia).
  unfold discard_hand. rewrite bind_assoc, bind_get, Hgame, bind_ret.
  by rewrite !bind_modify.
Qed.

Lemma occupied_vacate room (i : nat) pl :
  GameRoom.players room !! i = Some (Some pl) →
  occupied (GameRoom.set_players <[i := None]> room) = occupied room - 1.
Proof.
  intros Hseat. unfold occupied. cbn [GameRoom.set_players GameRoom.players].
  rewrite <- (take_drop_middle _ _ _ Hseat) at 2.
  rewrite insert_take_drop by (by eapply lookup_lt_Some).
  rewrite !filter_app, !length_app. rewrite (filter_cons_True _ (Some pl)) by (by eexists).
  rewrite (filter_cons_False _ None) by (by intros [? ?]). cbn [length]. lia.
Qed.

End vacating.

(** X19. [remove_player] in a room without a game: a socket that holds no
    seat changes nothing and gives [False] (with or without a game); a
    socket that holds a seat frees its first seat and is dropped from the
    room's sockets, the occupancy falls by one, the name stays in
    [player_names], and nothing else changes. *)
Theorem remove_player_without_game {Rng : Type} (room : GameRoom.t) (r : Rng)
    (sock : socket) :
  (Forall (λ player, seat_of sock player = false) (GameRoom.players room) →
   remove_player sock room r = Ok (false, room, r)) ∧
  (∀ (i : nat) pl,
     GameRoom.game room = None →
     GameRoom.players room !! i = Some (Some pl) → Player.sock pl = sock →
     Forall (λ player, seat_of sock player = false) (take i (GameRoom.players room)) →
     ∃ room1,
       remove_player sock room r = Ok (true, room1, r) ∧
       room1 = GameRoom.set_sockets (λ ss, ss ∖ {[sock]})
                 (GameRoom.set_players <[i := None]> room) ∧
       (sock ∉ GameRoom.sockets room1) ∧
       GameRoom.players room1 !! i = Some None ∧
       occupied room1 = occupied room - 1 ∧
       GameRoom.player_names room1 = GameRoom.player_names room ∧
       (is_empty room1 = true ↔
        ∀ (j : nat) pl', GameRoom.players room !! j = Some (Some pl') → j = i)).
Proof.
  split.
  - intros Habsent. unfold remove_player. rewrite bind_get.
    by apply remove_player_absent.
  - intros i pl Hgame Hseat Hsock Hfirst. eexists. split; [by eapply remove_player_waiting|].
    split; [reflexivity|].
    cbn [GameRoom.set_sockets GameRoom.set_players GameRoom.sockets GameRoom.players
         GameRoom.player_names].
    split_and!.
    + rewrite elem_of_difference, elem_of_singleton. tauto.
    + apply list_lookup_insert_eq. by eapply lookup_lt_Some.
    + by apply (occupied_vacate room i pl).
    + done.
    + unfold is_empty. cbn [GameRoom.set_sockets GameRoom.set_players GameRoom.players].
      rewrite <- Is_true_true, forallb_True, Forall_lookup. split.
      * intros Hall j pl' Hx. destruct (decide (j = i)) as [|Hne]; [done|].
        specialize (Hall j (Some pl')). rewrite list_lookup_insert_ne in Hall by done.
        specialize (Hall Hx). by apply bool_decide_unpack in Hall.
      * intros Hall j x Hx. apply bool_decide_pack.
        destruct (decide (j = i)) as [->|Hne].
        -- rewrite list_lookup_insert_eq in Hx by (by eapply lookup_lt_Some). congruence.
        -- rewrite list_lookup_insert_ne in Hx by done.
           destruct x as [pl'|]; [|done]. by destruct (Hne (Hall j pl' Hx)).
Qed.

(** ** A whole round *)

Section rounds.
Context {Rng : Type} `{!Random Rng}.

Lemma active_card_some g : discard_pile g ≠ [] ↔ is_Some (active_card g).
Proof.
  unfold active_card. destruct (discard_pile g) as [|c l] using rev_ind.
  - split; [done | by intros [? ?]].
  - rewrite last_snoc. split; [by eexists | by destruct l].
Qed.

Lemma play_card_false_inv g (r : Rng) player_index card_index g' r' :
  wf g → play_card player_index card_index g r = Ok (false, g', r') → g' = g ∧ r' = r.
Proof.
  intros Hwf Hrun.
  destruct (decide (0 ≤ player_index < num_players g ∧
                    0 ≤ card_index < Z.of_nat (length (hand g player_index))))
    as [[Hp Hc]|Hout].
  2:{ rewrite play_card_out_of_range in Hrun by done. by injection Hrun as <- <-. }
  destruct (lookup_lt_is_Some_2 (hand g player_index) (Z.to_nat card_index))
    as [card Hcard]; [lia|].
  rewrite (play_card_in_range g r _ _ card) in Hrun by (done || lia).
  destruct (playable card (active_card g)).
  - destruct (resolve_spec (laid g player_index card_index card) r card)
      as (g2 & r2 & t & Hres & _); [by apply wf_laid|].
    rewrite Hres in Hrun. discriminate.
  - by injection Hrun as <- <-.
Qed.

Lemma draw_card_frame g (r : Rng) player_index :
  wf g →
  ∃ (b : bool) g' r',
    draw_card player_index g r = Ok (b, g', r') ∧
    num_players g' = num_players g ∧ current_player g' = current_player g ∧
    active_card g' = active_card g.
Proof.
  intros Hwf. unfold draw_card. rewrite bind_get.
  case_bool_decide as Hp; cbn [negb]; [|by eexists _, _, _].
  destruct (maybe_refresh_frame g r true) as (g0 & r0 & Hre & Hpl & Hn & Hc & Ha & _).
  rewrite andb_true_r in Hre. erewrite bind_ok; [|exact Hre].
  rewrite bind_get.
  destruct (draw_pile g0) as [|card rest] eqn:Hstock; [by eexists _, _, _|].
  rewrite bind_modify.
  assert (wf (set_draw_pile (λ _, rest) g0)) as Hwf0.
  { destruct Hwf. split; cbn [set_draw_pile players num_players]; congruence. }
  erewrite bind_ok; [|apply hand_append_ok; [exact Hwf0|]].
  2:{ cbn [set_draw_pile num_players]. by rewrite Hn. }
  eexists _, _, _. split; [reflexivity|]. by split_and!.
Qed.

Lemma play_card_sound g (r : Rng) player_index card_index :
  permutes Rng → sound g →
  ∃ (b : bool) g' r',
    play_card player_index card_index g r = Ok (b, g', r') ∧ sound g' ∧
    num_players g' = num_players g ∧ (b = false → g' = g ∧ r' = r).
Proof.
  intros Hperm (Hwf & Hturn & Hpile & Hcards).
  destruct (play_card_conserves g r player_index card_index Hperm Hwf)
    as (b & g' & r' & Hrun & Hwf' & Hall).
  exists b, g', r'. split; [done|]. destruct b.
  - destruct (play_card_true_inv g r _ _ g' r' Hwf Hrun) as (card & _ & _ & _ & _ & Hres).
    destruct (resolve_spec (laid g player_index card_index card) r card)
      as (g2 & r2 & t & Hres2 & Hwf2 & Ht & Hn2 & Ha2 & _); [by apply wf_laid|].
    rewrite Hres2 in Hres. injection Hres as <- <-.
    split; [|by split].
    refine (conj Hwf' (conj _ (conj _ _))).
    + by apply (next_active_range g2).
    + apply (active_card_some g2). rewrite Ha2. unfold active_card, laid.
      cbn [set_discard_pile discard_pile]. rewrite last_snoc. by eexists.
    + by rewrite Hall.
  - destruct (play_card_false_inv g r _ _ g' r' Hwf Hrun) as [-> ->]. by split_and!.
Qed.

Lemma draw_card_sound g (r : Rng) player_index :
  permutes Rng → sound g →
  ∃ (b : bool) g' r',
    draw_card player_index g r = Ok (b, g', r') ∧ sound g' ∧
    num_players g' = num_players g ∧ current_player g' = current_player g.
Proof.
  intros Hperm (Hwf & Hturn & Hpile & Hcards).
  destruct (draw_card_frame g r player_index Hwf) as (b & g' & r' & Hrun & Hn & Hc & Ha).
  destruct (draw_card_conserves g r player_index Hperm Hwf)
    as (b2 & g2 & r2 & Hrun2 & Hwf' & Hall).
  rewrite Hrun in Hrun2. injection Hrun2 as <- <- <-.
  exists b, g', r'. split; [done|]. split; [|by split].
  refine (conj Hwf' (conj _ (conj _ _))).
  - by rewrite Hn, Hc.
  - apply active_card_some. rewrite Ha. by apply active_card_some.
  - by rewrite Hall.
Qed.

Lemma next_turn_sound g (r : Rng) :
  sound g →
  ∃ t, next_turn g r = Ok (tt, set_current_player t g, r) ∧ next_active g t ∧
       sound (set_current_player t g).
Proof.
  intros (Hwf & Hturn & Hpile & Hcards).
  destruct (next_turn_spec g r Hwf) as (t & Hrun & Ht).
  exists t. split; [done|]. split; [done|].
  refine (conj _ (conj _ (conj Hpile Hcards))).
  - destruct Hwf. by split.
  - by apply (next_active_range g).
Qed.

Lemma do_call_sound (c : call) g (r : Rng) :
  permutes Rng → sound g →
  ∃ g' r', do_call c g r = Ok (tt, g', r') ∧ sound g' ∧ num_players g' = num_players g.
Proof.
  intros Hperm Hsound. destruct c as [i ci|i|]; cbn [do_call].
  - destruct (play_card_sound g r i ci Hperm Hsound) as (b & g' & r' & Hrun & Hs & Hn & _).
    exists g', r'. split; [by erewrite bind_ok|]. by split.
  - destruct (draw_card_sound g r i Hperm Hsound) as (b & g' & r' & Hrun & Hs & Hn & _).
    exists g', r'. split; [by erewrite bind_ok|]. by split.
  - destruct (next_turn_sound g r Hsound) as (t & Hrun & _ & Hs).
    exists (set_current_player t g), r. by split_and!.
Qed.

Lemma calls_sound (calls : list call) g (r : Rng) :
  permutes Rng → sound g →
  ∃ g' r', forM_ calls do_call g r = Ok (tt, g', r') ∧ sound g' ∧
           num_players g' = num_players g.
Proof.
  intros Hperm. revert g r. induction calls as [|c calls IH]; intros g r Hsound.
  - by exists g, r.
  - destruct (do_call_sound c g r Hperm Hsound) as (g1 & r1 & Hrun & Hsound1 & Hn1).
    destruct (IH g1 r1 Hsound1) as (g' & r' & Hrest & Hsound' & Hn').
    exists g', r'. cbn [forM_]. split; [by erewrite bind_ok|]. split; [done|congruence].
Qed.

End rounds.

(** X20. A whole round keeps the game sound.  After [create_deck] and
    [deal_cards] on a new game of 2 to 4 seats, any sequence of
    [play_card], [draw_card] and [next_turn] calls with any arguments runs
    without raising, and leaves a game with the same seats, a seat in range
    holding the turn, an active card on the discard pile, and exactly the 32
    distinct cards of the deck spread over hands, stock and discard
    pile. *)
Theorem round_stays_sound {Rng : Type} `{!Random Rng} (n : Z) (calls : list call) (r : Rng) :
  permutes Rng → 2 ≤ n ≤ MAX_PLAYERS_PER_ROOM →
  ∃ g r',
    (create_deck ;;; deal_cards ;;; forM_ calls do_call) (__init__ n) r = Ok (tt, g, r') ∧
    wf g ∧ num_players g = n ∧
    0 ≤ current_player g < num_players g ∧
    is_Some (active_card g) ∧
    all_cards g ≡ₚ deck ∧ NoDup (all_cards g) ∧ length (all_cards g) = 32%nat.
Proof.
  intros Hperm Hn.
  destruct (start_deal n r Hperm Hn)
    as (g0 & r0 & Hdeal & Hwf & Hnum & Hcur & Hall & _ & Hdisc & _).
  destruct (create_deck_fresh (__init__ n) r eq_refl) as (g1 & Hdeck & _).
  assert (deal_cards g1 (random_shuffle deck r).2 = Ok (tt, g0, r0)) as Hdeal1.
  { unfold bind in Hdeal. by rewrite Hdeck in Hdeal. }
  destruct (calls_sound calls g0 r0 Hperm) as (g & r' & Hrun & (Hwf' & Hc' & Hd' & Hall') & Hn').
  { refine (conj Hwf (conj _ (conj _ Hall))); [lia|]. by destruct (discard_pile g0). }
  exists g, r'. split.
  { erewrite bind_ok; [|exact Hdeck]. erewrite bind_ok; [|exact Hdeal1]. exact Hrun. }
  refine (conj Hwf' (conj _ (conj Hc' (conj _ (conj Hall' (conj _ _)))))).
  - congruence.
  - by apply active_card_some.
  - rewrite Hall'. by apply (bool_decide_eq_true_1 (NoDup deck)).
  - by rewrite Hall'.
Qed.

(** A game of two: seat 0 plays its first card, seat 1 draws, the turn is
    passed on. *)
Lemma round_stays_sound_witness :
  ∃ g r',
    (create_deck ;;; deal_cards ;;; forM_ [play 0 0; draw 1; turn] do_call)
      (__init__ 2) 0%nat = Ok (tt, g, r') ∧
    wf g ∧ all_cards g ≡ₚ deck ∧ NoDup (all_cards g).
Proof.
  destruct (round_stays_sound 2 [play 0 0; draw 1; turn] 0%nat examples.reversing_permutes)
    as (g & r' & H1 & H2 & _ & _ & _ & H3 & H4 & _).
  - vm_compute. split; discriminate.
  - exists g, r'. split_and!; assumption.
Defined.

(** ** The server between two requests *)

Section server_invariant.
Context {Rng : Type} `{!Random Rng}.

Lemma server_ok_rooms s s' :
  RoomManager.rooms (MultiRoomServer.rooms s') = RoomManager.rooms (MultiRoomServer.rooms s) →
  server_ok s → server_ok s'.
Proof. unfold server_ok. by intros ->. Qed.

Lemma server_ok_insert s s' room_id room1 :
  RoomManager.rooms (MultiRoomServer.rooms s')
    = <[room_id := room1]> (RoomManager.rooms (MultiRoomServer.rooms s)) →
  room_ok room1 → server_ok s → server_ok s'.
Proof. unfold server_ok. intros -> Hroom Hs. by apply map_Forall_insert_2. Qed.

Lemma server_ok_delete s s' room_id :
  RoomManager.rooms (MultiRoomServer.rooms s')
    = delete room_id (RoomManager.rooms (MultiRoomServer.rooms s)) →
  server_ok s → server_ok s'.
Proof. unfold server_ok. intros -> Hs. by apply map_Forall_delete. Qed.

Lemma server_ok_lookup s room_id room :
  server_ok s → RoomManager.rooms (MultiRoomServer.rooms s) !! room_id = Some room →
  room_ok room.
Proof. intros Hs Hroom. exact (Hs room_id room Hroom). Qed.

(** Changes of a room that keep it in order. *)
Lemma room_ok_game room g' :
  room_ok room → sound g' → num_players g' = GameRoom.max_players room →
  room_ok (GameRoom.set_game (λ _, Some g') room).
Proof.
  intros (Hlen & Hmax & Hfo & _) Hsound Hn. refine (conj Hlen (conj Hmax (conj Hfo _))).
  intros g [= <-]. by split.
Qed.

Lemma room_ok_seat room (i : nat) seat :
  room_ok room → room_ok (GameRoom.set_players <[i := seat]> room).
Proof.
  intros (Hlen & Hmax & Hfo & Hgame). refine (conj _ (conj Hmax (conj Hfo Hgame))).
  cbn [GameRoom.set_players GameRoom.players]. by rewrite length_insert.
Qed.

Lemma room_ok_frame room room' :
  GameRoom.players room' = GameRoom.players room →
  GameRoom.max_players room' = GameRoom.max_players room →
  GameRoom.finish_order room' = GameRoom.finish_order room →
  GameRoom.game room' = GameRoom.game room →
  room_ok room → room_ok room'.
Proof. unfold room_ok. by intros -> -> -> ->. Qed.

(** *** [remove_player] *)

Lemma vacated_cards g (i : nat) :
  wf g → Z.of_nat i < num_players g → all_cards (vacated g i) ≡ₚ all_cards g.
Proof.
  intros Hwf Hi. unfold all_cards, vacated.
  cbn [set_players set_discard_pile players draw_pile discard_pile].
  pose proof (wf_seat g (Z.of_nat i) Hwf ltac:(lia)) as Hseat. rewrite Nat2Z.id in Hseat.
  pose proof (concat_insert_perm (players g) i _ [] Hseat) as Hperm.
  rewrite app_nil_r in Hperm. rewrite <- Hperm, reverse_Permutation.
  rewrite <- !app_assoc. f_equiv. apply Permutation_app_swap_app.
Qed.

Lemma remove_player_cards room (r : Rng) sock (i : nat) pl g :
  GameRoom.game room = Some g → sound g →
  GameRoom.players room !! i = Some (Some pl) → Player.sock pl = sock →
  Forall (λ player, seat_of sock player = false) (take i (GameRoom.players room)) →
  Z.of_nat i < num_players g → hand g (Z.of_nat i) ≠ [] →
  ∃ g',
    remove_player sock room r =
      Ok (true,
          GameRoom.set_sockets (λ ss, ss ∖ {[sock]})
            (GameRoom.set_players <[i := None]>
               (GameRoom.set_game (λ _, Some g')
                  (GameRoom.set_disconnected (λ ds, {[Z.of_nat i]} ∪ ds) room))),
          r) ∧
    sound g' ∧ num_players g' = num_players g.
Proof.
  intros Hg (Hwf & Hturn & Hpile & Hall) Hpl Hsock Hfirst Hi Hcards.
  destruct (discard_hand_cards room r g i Hg Hwf Hi Hcards)
    as (g' & Hdis & Hp' & Hd' & Hx' & Hn' & Hmoved & Hkept).
  exists g'. split.
  { unfold remove_player. rewrite bind_get.
    rewrite <- (take_drop_middle _ _ _ Hpl) at 1.
    rewrite (remove_player_from_first sock room r 0) by done.
    rewrite length_take_le by (apply lookup_lt_Some in Hpl; lia).
    by erewrite bind_ok; [|exact Hdis]. }
  split; [|done].
  assert (wf g') as Hwf'.
  { destruct (wf_vacated g i Hwf) as [Hlen Hnum]. split; [|by rewrite Hn'].
    rewrite Hp', Hn'. exact Hlen. }
  refine (conj Hwf' (conj _ (conj _ _))).
  - destruct (decide (current_player g = Z.of_nat i)) as [Hc|Hc].
    + rewrite Hn'. by apply (next_active_range (vacated g i)), Hmoved; [apply wf_vacated|].
    + by rewrite (Hkept Hc), Hn' in *.
  - rewrite Hx'. by destruct (reverse _), (discard_pile g).
  - rewrite <- Hall, <- (vacated_cards g i Hwf Hi). unfold all_cards.
    rewrite Hp', Hd', Hx'. reflexivity.
Qed.

Lemma remove_player_ok room (r : Rng) sock :
  room_ok room →
  ∃ (b : bool) room1,
    remove_player sock room r = Ok (b, room1, r) ∧ room_ok room1.
Proof.
  intros Hok.
  destruct (list_find (λ player, seat_of sock player = true) (GameRoom.players room))
    as [[i seat]|] eqn:Hfind.
  2:{ exists false, room. split; [|done]. unfold remove_player. rewrite bind_get.
      apply remove_player_absent. apply list_find_None in Hfind.
      eapply Forall_impl; [exact Hfind|]. intros x Hx. by apply not_true_is_false. }
  apply list_find_Some in Hfind as (Hseat & Hsock & Hbefore).
  destruct seat as [pl|]; [|done]. apply bool_decide_eq_true_1 in Hsock.
  assert (Forall (λ player, seat_of sock player = false) (take i (GameRoom.players room)))
    as Hfirst.
  { apply Forall_forall. intros x Hx. apply elem_of_take in Hx as (j & Hj & Hlt).
    specialize (Hbefore j x Hj Hlt). by apply not_true_is_false. }
  destruct (GameRoom.game room) as [g|] eqn:Hg.
  - pose proof Hok as (Hlen & Hmax & Hfo & Hgame). destruct (Hgame g Hg) as [Hsound Hn].
    assert (Z.of_nat i < num_players g) as Hi.
    { apply lookup_lt_Some in Hseat. lia. }
    destruct (decide (hand g (Z.of_nat i) = [])) as [Hempty|Hcards].
    + destruct Hsound as (Hwf & ?).
      destruct (remove_player_run sock room r i pl g Hg Hwf Hseat Hsock Hfirst Hi)
        as [Hrun _].
      eexists _, _. split; [by apply Hrun|].
      eapply room_ok_frame; [reflexivity..|]. by apply room_ok_seat.
    + destruct (remove_player_cards room r sock i pl g Hg Hsound Hseat Hsock Hfirst Hi Hcards)
        as (g' & Hrun & Hsound' & Hn').
      eexists _, _. split; [exact Hrun|].
      eapply room_ok_frame; [reflexivity..|]. apply room_ok_seat.
      apply room_ok_game; [|done|].
      * eapply room_ok_frame; [reflexivity..|exact Hok].
      * cbn [GameRoom.set_disconnected GameRoom.max_players]. congruence.
  - eexists _, _. split; [by eapply remove_player_waiting|].
    eapply room_ok_frame; [reflexivity..|]. by apply room_ok_seat.
Qed.

End server_invariant.

Section server_requests.
Context {Rng : Type} `{!Random Rng}.

(** *** Leaving and disconnecting *)

Lemma leave_room_dangling s (r : Rng) sock room_id :
  RoomManager.client_rooms (MultiRoomServer.rooms s) !! sock = Some room_id →
  RoomManager.rooms (MultiRoomServer.rooms s) !! room_id = None →
  ∃ s', leave_room sock s r = Ok (tt, s', r) ∧
        RoomManager.rooms (MultiRoomServer.rooms s')
          = RoomManager.rooms (MultiRoomServer.rooms s).
Proof.
  intros Hsock Hroom. unfold leave_room. rewrite bind_get, Hsock, Hroom.
  cbv beta iota. rewrite ?bind_assoc, bind_ret, bind_modify, back_to_lobby_run.
  eexists. split; [reflexivity|]. reflexivity.
Qed.

Lemma leave_room_ok s (r : Rng) sock :
  server_ok s → ∃ s', leave_room sock s r = Ok (tt, s', r) ∧ server_ok s'.
Proof.
  intros Hs.
  destruct (RoomManager.client_rooms (MultiRoomServer.rooms s) !! sock)
    as [room_id|] eqn:Hsock.
  2:{ eexists. split; [by apply leave_room_lobby|]. by eapply server_ok_rooms. }
  destruct (RoomManager.rooms (MultiRoomServer.rooms s) !! room_id) as [room|] eqn:Hroom.
  2:{ destruct (leave_room_dangling s r sock room_id Hsock Hroom) as (s' & Hrun & Hrooms).
      exists s'. split; [done|]. by eapply server_ok_rooms. }
  destruct (remove_player_ok room r sock (server_ok_lookup s room_id room Hs Hroom))
    as (b & room1 & Hgone & Hok1).
  eexists. split; [by eapply leave_room_run|]. cbv zeta.
  destruct (is_empty room1).
  - by eapply server_ok_delete.
  - by eapply server_ok_insert.
Qed.

Lemma remove_client_ok s (r : Rng) sock :
  server_ok s → ∃ s', _remove_client sock s r = Ok (tt, s', r) ∧ server_ok s'.
Proof.
  intros Hs.
  assert (∃ s1,
    (if bool_decide (is_Some (RoomManager.client_rooms (MultiRoomServer.rooms s) !! sock))
     then leave_room sock else ret tt) s r = Ok (tt, s1, r) ∧ server_ok s1)
    as (s1 & Hleave & Hs1).
  { case_bool_decide; [by apply leave_room_ok | by exists s]. }
  eexists. split; [by apply remove_client_run|]. by eapply server_ok_rooms.
Qed.

(** *** The end of a round and the housekeeping pass *)

Lemma room_ok_ended room :
  room_ok room →
  room_ok (GameRoom.set_finish_order (λ _, [])
             (GameRoom.set_last_game_state None
                (GameRoom.set_game_ended true (GameRoom.set_game (λ _, None) room)))).
Proof.
  intros (Hlen & Hmax & _ & _). refine (conj Hlen (conj Hmax (conj _ _))).
  - apply NoDup_nil_2.
  - by intros g [=].
Qed.

Lemma end_game_ok s (r : Rng) room_id :
  server_ok s → ∃ s', end_game room_id s r = Ok (tt, s', r) ∧ server_ok s'.
Proof.
  intros Hs.
  destruct (RoomManager.rooms (MultiRoomServer.rooms s) !! room_id) as [room|] eqn:Hroom.
  2:{ exists s. split; [|done]. apply end_game_nothing. by left. }
  destruct (GameRoom.game room) as [g|] eqn:Hg.
  2:{ exists s. split; [|done]. apply end_game_nothing. right. by exists room. }
  pose proof (server_ok_lookup s room_id room Hs Hroom) as Hok.
  destruct Hok as (Hlen & Hmax & Hfo & Hgame).
  destruct (Hgame g Hg) as [([Hseats _] & _) Hn].
  eexists. split; [apply (end_game_run s r room_id room g Hroom Hg); lia|].
  eapply server_ok_insert; [reflexivity| |done].
  apply room_ok_ended. refine (conj Hlen (conj Hmax (conj Hfo Hgame))).
Qed.

Lemma housekeep_ok s (r : Rng) room_id :
  is_Some (RoomManager.rooms (MultiRoomServer.rooms s) !! room_id) →
  server_ok s → ∃ s', housekeep room_id s r = Ok (tt, s', r) ∧ server_ok s'.
Proof.
  intros [room Hroom] Hs.
  destruct (GameRoom.game room) as [g|] eqn:Hg.
  2:{ exists s. split; [by eapply housekeep_no_game | done]. }
  pose proof (server_ok_lookup s room_id room Hs Hroom) as Hok.
  destruct Hok as (Hlen & Hmax & Hfo & Hgame).
  destruct (Hgame g Hg) as [(Hwf & Hturn & Hpile & Hcards) Hn].
  destruct (check_game_over g) eqn:Hover.
  - destruct (housekeep_game_over s r room_id room g Hroom Hg Hwf Hturn ltac:(lia) Hover)
      as (s1 & Hend & Hrun & _).
    destruct (end_game_ok s r room_id Hs) as (s1' & Hend' & Hs1).
    rewrite Hend in Hend'. injection Hend' as <-.
    eexists. split; [exact Hrun|].
    destruct (is_empty room); [by eapply server_ok_delete | done].
  - destruct (decide (hand g (current_player g) = [])) as [Hempty|Hcards'].
    + destruct (next_turn_round_on g r Hwf Hturn Hover) as (t & Hnext & Ht & Hrange & _).
      eexists. split; [by eapply housekeep_skip|].
      assert (server_ok
                (MultiRoomServer.set_sent
                   (λ log, log ++ ((., server_msg.gs (serialize (set_current_player t g))
                                         (GameRoom.player_names room))
                                     <$> elements (GameRoom.sockets room)))
                   (MultiRoomServer.set_rooms
                      (λ rm, RoomManager.mk
                               (<[room_id :=
                                    GameRoom.set_last_game_state
                                      (Some (serialize (set_current_player t g),
                                             GameRoom.player_names room))
                                      (GameRoom.set_game
                                         (λ _, Some (set_current_player t g)) room)]>
                                  (RoomManager.rooms rm))
                               (RoomManager.client_rooms rm)) s))) as Hs1.
      { eapply server_ok_insert; [reflexivity| |exact Hs].
        eapply room_ok_frame; [reflexivity..|].
        apply room_ok_game; [by refine (conj Hlen (conj Hmax (conj Hfo Hgame)))| |done].
        refine (conj _ (conj Hrange (conj Hpile Hcards))). destruct Hwf. by split. }
      destruct (is_empty room); [by eapply server_ok_delete | done].
    + eexists. split; [by eapply housekeep_round_on|].
      destruct (is_empty room); [by eapply server_ok_delete | done].
Qed.

End server_requests.

Section server_moves.
Context {Rng : Type} `{!Random Rng}.

(** *** Requests of a connection in a room *)

Lemma handle_room_message_idle s (r : Rng) sock (message : ClientMessage) :
  (∀ room_id, RoomManager.client_rooms (MultiRoomServer.rooms s) !! sock = Some room_id →
              RoomManager.rooms (MultiRoomServer.rooms s) !! room_id = None) →
  handle_room_message sock message s r = Ok (tt, s, r).
Proof.
  intros Hidle. unfold handle_room_message. rewrite bind_get.
  destruct (RoomManager.client_rooms (MultiRoomServer.rooms s) !! sock) as [room_id|];
    [|done].
  cbn [mbind option_bind]. by rewrite (Hidle room_id eq_refl).
Qed.

Lemma handle_room_message_leave s (r : Rng) sock room_id room :
  RoomManager.client_rooms (MultiRoomServer.rooms s) !! sock = Some room_id →
  RoomManager.rooms (MultiRoomServer.rooms s) !! room_id = Some room →
  handle_room_message sock client_msg.leave_room s r = leave_room sock s r.
Proof.
  intros Hsock Hroom. unfold handle_room_message. rewrite bind_get, Hsock.
  cbn [mbind option_bind]. by rewrite Hroom.
Qed.

Lemma room_ok_played room g' st fo :
  room_ok room → sound g' → num_players g' = GameRoom.max_players room → NoDup fo →
  room_ok (GameRoom.set_last_game_state st
             (GameRoom.set_finish_order (λ _, fo)
                (GameRoom.set_game (λ _, Some g') room))).
Proof.
  intros (Hlen & Hmax & _ & _) Hsound Hn Hfo. refine (conj Hlen (conj Hmax (conj Hfo _))).
  intros g [= <-]. by split.
Qed.

Lemma handle_room_message_ok s (r : Rng) sock (message : ClientMessage) :
  permutes Rng → server_ok s →
  ∃ s' r', handle_room_message sock message s r = Ok (tt, s', r') ∧ server_ok s'.
Proof.
  intros Hperm Hs.
  destruct (RoomManager.client_rooms (MultiRoomServer.rooms s) !! sock)
    as [room_id|] eqn:Hsock.
  2:{ exists s, r. split; [|done]. apply handle_room_message_idle. intros ??. congruence. }
  destruct (RoomManager.rooms (MultiRoomServer.rooms s) !! room_id) as [room|] eqn:Hroom.
  2:{ exists s, r. split; [|done]. apply handle_room_message_idle. intros ??. congruence. }
  assert (message = client_msg.leave_room ∨ message ≠ client_msg.leave_room) as [->|Hmsg]
    by (destruct message; (by left) || (by right)).
  { rewrite (handle_room_message_leave s r sock room_id room Hsock Hroom).
    destruct (leave_room_ok s r sock Hs) as (s' & Hrun & Hs'). by exists s', r. }
  destruct (GameRoom.game room) as [g|] eqn:Hg.
  2:{ exists s, r. split; [|done]. apply handle_room_message_no_game; [done|]. intros ????. congruence. }
  pose proof (server_ok_lookup s room_id room Hs Hroom) as Hok.
  pose proof Hok as (Hlen & Hmax & Hfo & Hgame).
  destruct (Hgame g Hg) as [Hsound Hn].
  rewrite (handle_room_message_game s r sock message room_id room g) by done.
  cbv zeta.
  assert (∀ msg, ∃ s' r', (send_message sock (server_msg.e msg) ;;; ret tt) s r
                            = Ok (tt, s', r') ∧ server_ok s') as Hrefuse.
  { intros msg. eexists _, _. split; [reflexivity|]. by eapply server_ok_rooms. }
  destruct message as [name| |ci| | |t]; try apply Hrefuse.
  - (* a play *)
    case_bool_decide as Hturn; [|apply Hrefuse]. rewrite Hturn.
    destruct (play_card_sound g r (current_player g) (default (-1) ci) Hperm Hsound)
      as (b & g' & r' & Hplay & Hsound' & Hn' & _).
    erewrite bind_ok;
      [|eapply on_room_ok; [exact Hroom|]; eapply on_game_ok; [exact Hg|exact Hplay]].
    cbv beta iota. destruct b.
    + destruct Hsound as (_ & Hrange & _). pose proof Hsound' as (Hwf' & _).
      erewrite bind_ok.
      2:{ eapply on_room_ok; [apply put_room_lookup|].
          apply (record_finish _ _ g'); [done|done|by rewrite Hn']. }
      rewrite put_room_twice.
      erewrite broadcast_game_state_run; [|apply put_room_lookup|reflexivity].
      rewrite put_room_twice. eexists _, _. split; [reflexivity|].
      eapply server_ok_insert; [reflexivity| |exact Hs].
      apply room_ok_played; [done|done|congruence|by apply finished_NoDup].
    + eexists _, _. split; [reflexivity|].
      eapply server_ok_insert; [reflexivity| |exact Hs].
      apply room_ok_game; [done|done|congruence].
  - (* a draw *)
    case_bool_decide as Hturn; [|apply Hrefuse]. rewrite Hturn.
    destruct (draw_card_sound g r (current_player g) Hperm Hsound)
      as (b & g1 & r1 & Hdraw & Hsound1 & Hn1 & _).
    erewrite bind_ok;
      [|eapply on_room_ok; [exact Hroom|]; eapply on_game_ok; [exact Hg|exact Hdraw]].
    cbv beta iota. destruct b.
    + destruct (next_turn_sound g1 r1 Hsound1) as (t & Hnext & _ & Hsound2).
      erewrite bind_ok.
      2:{ eapply on_room_ok; [apply put_room_lookup|].
          eapply on_game_ok; [reflexivity|exact Hnext]. }
      rewrite put_room_twice.
      erewrite broadcast_game_state_run; [|apply put_room_lookup|reflexivity].
      rewrite put_room_twice. eexists _, _. split; [reflexivity|].
      eapply server_ok_insert; [reflexivity| |exact Hs].
      eapply room_ok_frame; [reflexivity..|].
      apply room_ok_game; [|exact Hsound2|].
      * apply room_ok_game; [exact Hok|exact Hsound1|congruence].
      * cbn [set_current_player num_players GameRoom.set_game GameRoom.max_players].
        congruence.
    + eexists _, _. split; [reflexivity|].
      eapply server_ok_insert; [reflexivity| |exact Hs].
      apply room_ok_game; [done|done|congruence].
Qed.

(** *** Requests of a connection in the lobby, and rooms *)

Lemma handle_lobby_message_ok s (r : Rng) sock (message : ClientMessage) :
  server_ok s →
  ∃ s', handle_lobby_message sock message s r = Ok (tt, s', r) ∧ server_ok s'.
Proof.
  intros Hs. destruct message as [name| |ci| | |t].
  - rewrite set_name_run. cbv zeta.
    destruct (negb _); [|destruct (bool_decide _)];
      (eexists; split; [reflexivity|]; by eapply server_ok_rooms).
  - eexists. split; [apply send_room_list_run|]. by eapply server_ok_rooms.
  - by exists s.
  - by exists s.
  - by exists s.
  - by exists s.
Qed.

Lemma room_ok_new room_id room_name sock creator_name max_players :
  2 ≤ max_players ≤ MAX_PLAYERS_PER_ROOM →
  room_ok (new_room room_id room_name sock creator_name max_players).
Proof.
  intros Hmax.
  destruct (new_room_waits room_id room_name sock creator_name max_players)
    as (_ & _ & _ & _ & Hlen); [lia|].
  refine (conj Hlen (conj Hmax (conj _ _))); [apply NoDup_nil_2 | by intros g [=]].
Qed.

Lemma create_room_ok s (r : Rng) sock room_name creator_name max_players room_id :
  server_ok s →
  ∃ res s',
    create_room sock room_name creator_name max_players room_id s r = Ok (res, s', r) ∧
    server_ok s'.
Proof.
  intros Hs.
  destruct (decide (MAX_ROOMS ≤ Z.of_nat (size (RoomManager.rooms (MultiRoomServer.rooms s)))))
    as [Hfull|Hrooms].
  { exists None, s. split; [apply create_room_refused; by left | done]. }
  destruct (decide (2 ≤ max_players ≤ MAX_PLAYERS_PER_ROOM)) as [Hmax|Hmax].
  2:{ exists None, s. split; [apply create_room_refused; by right | done]. }
  eexists _, _. split; [apply create_room_made; [lia|done]|].
  eapply server_ok_insert; [reflexivity| |exact Hs]. by apply room_ok_new.
Qed.

Lemma join_room_ok s (r : Rng) sock room_id player_name :
  server_ok s →
  ∃ res s', join_room sock room_id player_name s r = Ok (res, s', r) ∧ server_ok s'.
Proof.
  intros Hs.
  assert (∀ rid room,
            room_id = Some rid →
            RoomManager.rooms (MultiRoomServer.rooms s) !! rid = Some room →
            is_full room = false → GameRoom.game room = None →
            GameRoom.game_ended room = false →
            ∃ res s', join_room sock room_id player_name s r = Ok (res, s', r) ∧
                      server_ok s') as Hopen.
  { intros rid room -> Hroom Hfull Hgame Hended.
    destruct (join_room_open s r sock rid room player_name Hroom Hfull Hgame Hended)
      as (slot & _ & Hrun).
    eexists _, _. split; [exact Hrun|].
    eapply server_ok_insert; [reflexivity| |exact Hs].
    eapply room_ok_frame; [reflexivity..|].
    apply room_ok_seat. by eapply server_ok_lookup. }
  assert (join_room sock room_id player_name s r = Ok (None, s, r) →
          ∃ res s', join_room sock room_id player_name s r = Ok (res, s', r) ∧
                    server_ok s') as Hclosed.
  { intros Hrun. by exists None, s. }
  destruct room_id as [rid|]; [|by apply Hclosed, join_room_refused].
  destruct (RoomManager.rooms (MultiRoomServer.rooms s) !! rid) as [room|] eqn:Hroom.
  2:{ apply Hclosed, join_room_refused. intros rid' room' [= <-]. congruence. }
  destruct (is_full room) eqn:Hfull.
  { apply Hclosed, join_room_refused. intros rid' room' [= <-] Hroom'.
    left. congruence. }
  destruct (GameRoom.game room) as [g|] eqn:Hgame.
  { apply Hclosed, join_room_refused. intros rid' room' [= <-] Hroom'.
    right. left. assert (room' = room) as -> by congruence. rewrite Hgame. by eexists. }
  destruct (GameRoom.game_ended room) eqn:Hended.
  { apply Hclosed, join_room_refused. intros rid' room' [= <-] Hroom'.
    right. right. congruence. }
  by apply (Hopen rid room).
Qed.

Lemma start_game_ok s (r : Rng) room_id :
  permutes Rng →
  is_Some (RoomManager.rooms (MultiRoomServer.rooms s) !! room_id) → server_ok s →
  ∃ (b : bool) s' r', on_room room_id start_game s r = Ok (b, s', r') ∧ server_ok s'.
Proof.
  intros Hperm [room Hroom] Hs.
  pose proof (server_ok_lookup s room_id room Hs Hroom) as Hok.
  pose proof Hok as (Hlen & Hmax & Hfo & Hgame).
  destruct (can_start_game room) eqn:Hcan.
  - destruct (start_game_run room r Hcan) as (g & r' & Hdeal & Hrun).
    destruct (start_deal (GameRoom.max_players room) r Hperm Hmax)
      as (g0 & r0 & Hdeal0 & Hwf & Hnum & Hcur & Hall & _ & Hdisc & _).
    rewrite Hdeal in Hdeal0. injection Hdeal0 as <- <-.
    eexists _, _, _. split; [eapply on_room_ok; [exact Hroom|exact Hrun]|].
    eapply server_ok_insert; [reflexivity| |exact Hs].
    refine (conj Hlen (conj Hmax (conj (NoDup_nil_2 (A:=Z)) _))).
    intros g1 [= <-]. split; [|done].
    refine (conj Hwf (conj _ (conj _ Hall))); [lia|]. by destruct (discard_pile g).
  - eexists _, _, _. split.
    + eapply on_room_ok; [exact Hroom|]. unfold start_game. by rewrite bind_get, Hcan.
    + by eapply server_ok_insert.
Qed.

End server_moves.

(** X21. The server stays in order.  Call a server in order when every room
    of its table has [max_players] seats, 2 to 4 of them, no seat twice in
    its finish order, and a game, if any, with one hand per seat, a seat in
    range holding the turn, an active card, and exactly the 32 cards of the
    deck.  The new server is in order, and from a server in order each of
    these runs without raising and leaves the server in order: a lobby
    message of any type but [create_room] and [join_room], whose branches
    of [handle_lobby_message] are not modelled; any room message;
    [RoomManager.create_room] and [RoomManager.join_room], which those two
    branches call; [start_game] on a room; the housekeeping pass for a
    room; [end_game]; [leave_room]; and [_remove_client].  (Sends are
    modelled as succeeding.) *)
Theorem server_stays_in_order {Rng : Type} `{!Random Rng} (s : MultiRoomServer.t) (r : Rng) :
  permutes Rng → server_ok s →
  (∀ sock message,
     (∀ t, message = client_msg.other t → t ≠ "create_room" ∧ t ≠ "join_room") →
     ∃ s', handle_lobby_message sock message s r = Ok (tt, s', r) ∧ server_ok s') ∧
  (∀ sock message,
     ∃ s' r', handle_room_message sock message s r = Ok (tt, s', r') ∧ server_ok s') ∧
  (∀ sock room_name creator_name max_players room_id,
     ∃ res s',
       create_room sock room_name creator_name max_players room_id s r = Ok (res, s', r) ∧
       server_ok s') ∧
  (∀ sock room_id player_name,
     ∃ res s', join_room sock room_id player_name s r = Ok (res, s', r) ∧ server_ok s') ∧
  (∀ room_id,
     is_Some (RoomManager.rooms (MultiRoomServer.rooms s) !! room_id) →
     (∃ (b : bool) s' r', on_room room_id start_game s r = Ok (b, s', r') ∧ server_ok s') ∧
     (∃ s', housekeep room_id s r = Ok (tt, s', r) ∧ server_ok s')) ∧
  (∀ room_id, ∃ s', end_game room_id s r = Ok (tt, s', r) ∧ server_ok s') ∧
  (∀ sock, ∃ s', leave_room sock s r = Ok (tt, s', r) ∧ server_ok s') ∧
  (∀ sock, ∃ s', _remove_client sock s r = Ok (tt, s', r) ∧ server_ok s') ∧
  server_ok MultiRoomServer__init__.
Proof.
  intros Hperm Hs. split_and!.
  - intros sock message _. by apply handle_lobby_message_ok.
  - intros. by apply handle_room_message_ok.
  - intros. by apply create_room_ok.
  - intros. by apply join_room_ok.
  - intros room_id Hroom. split; [by apply start_game_ok | by apply housekeep_ok].
  - intros. by apply end_game_ok.
  - intros. by apply leave_room_ok.
  - intros. by apply remove_client_ok.
  - apply map_Forall_empty.
Qed.

(** A first room on the new server. *)
Lemma server_stays_in_order_witness :
  ∃ res s',
    create_room 10%nat "Krčma" "Anna" 2 "room-1" MultiRoomServer__init__ 0%nat
      = Ok (res, s', 0%nat) ∧
    server_ok s'.
Proof.
  destruct (server_stays_in_order MultiRoomServer__init__ 0%nat examples.reversing_permutes)
    as (_ & _ & Hcreate & _).
  - apply map_Forall_empty.
  - exact (Hcreate 10%nat "Krčma" "Anna" 2 "room-1").
Defined.
